(** * The ntfy message cache (server/message_cache.go)

    A shallow embedding of the SQLite-backed message cache: the Go methods
    of [messageCache] become functions in a small state-and-error monad over
    the database, and every SQL text of the source becomes a function on the
    rows of [messages] or a list of statements run against the catalogue.
    Two views of the database are used:

    - [Store], the [messages] relation in its current layout, with one typed
      record per row: the view of the read and write paths;
    - [Schema.DB], a catalogue of untyped tables, the view of the schema
      migrator, which creates, alters, rebuilds and renames relations. *)

From stdpp Require Import base tactics option list strings pretty gmap sorting.
From Stdlib Require Import ZArith Ascii.

Local Open Scope string_scope.
Local Open Scope Z_scope.

(** ** Go values *)

(** The [error] values the file builds or passes on: the package variable
    [errUnexpectedMessageType], [errors.New], the one [fmt.Errorf] with its
    [%d] argument, and whatever the SQLite driver reports. *)
Inductive error : Type :=
  | errUnexpectedMessageType
  | errorsNew (text : string)
  | fmtErrorf (format : string) (arg : Z)
  | errDriver (text : string).

(** A Go result [(value, error)]: [Ok v] is [(v, nil)]. *)
Inductive result (A : Type) : Type :=
  | Ok (value : A)
  | Err (e : error).
Global Arguments Ok {A} value.
Global Arguments Err {A} e.

Global Instance error_eq_dec : EqDecision error.
Proof. solve_decision. Defined.

(** ** The database handle

    A [world] is what a [*sql.DB] gives access to: the persisted data, the
    wall clock read by [time.Now], and the failures the storage engine is
    going to report.  Every statement sent to the engine consumes one entry
    of [faults]; [true] makes that statement fail with an I/O error, an
    exhausted list means no further failure. *)
Record world (S : Type) : Type := World {
  store : S;
  faults : list bool;
  clock : Z
}.
Global Arguments World {S} store faults clock.
Global Arguments store {S} w.
Global Arguments faults {S} w.
Global Arguments clock {S} w.

Definition M (S A : Type) : Type := world S → result A * world S.

Definition ret {S A} (a : A) : M S A := λ w, (Ok a, w).

Definition fail {S A} (e : error) : M S A := λ w, (Err e, w).

(** [if err != nil { return err }] *)
Definition bind {S A B} (m : M S A) (k : A → M S B) : M S B := λ w,
  match m w with
  | (Ok a, w') => k a w'
  | (Err e, w') => (Err e, w')
  end.

Notation "x <- m ;; k" := (bind m (λ x, k))
  (at level 100, m at next level, right associativity,
   format "'[v' x  <-  m  ;;  '/' k ']'").
Notation "'run' m ;; k" := (bind m (λ _, k))
  (at level 100, m at next level, right associativity,
   format "'[v' 'run'  m  ;;  '/' k ']'").

Definition errIO : error := errDriver "disk I/O error".

Definition nextFault (fs : list bool) : bool := hd false fs.

(** [time.Now().Unix()] *)
Definition timeNowUnix {S} : M S Z := λ w, (Ok (clock w), w).

(** What [db.Query] hands back: the rows the statement yields and, when
    stepping through them stops on an error, that error ([rows.Err()]). *)
Record Rows (A : Type) : Type := mkRows {
  items : list A;
  rowsErr : option error
}.
Global Arguments mkRows {A} items rowsErr.
Global Arguments items {A} r.
Global Arguments rowsErr {A} r.

Definition allRows {A} (l : list A) : Rows A := mkRows l None.

(** [db.Exec(stmt, args...)]: the statement either fails, leaving the data
    as it was, or replaces the data. *)
Definition dbExec {S} (stmt : S → result S) : M S unit := λ w,
  if nextFault (faults w) then (Err errIO, World (store w) (tail (faults w)) (clock w))
  else match stmt (store w) with
       | Ok s' => (Ok (), World s' (tail (faults w)) (clock w))
       | Err e => (Err e, World (store w) (tail (faults w)) (clock w))
       end.

(** [db.Query(stmt, args...)] *)
Definition dbQuery {S A} (q : S → result (Rows A)) : M S (Rows A) := λ w,
  if nextFault (faults w) then (Err errIO, World (store w) (tail (faults w)) (clock w))
  else (q (store w), World (store w) (tail (faults w)) (clock w)).

(** The engine reports no failure for the next [n] statements. *)
Definition quiet (n : nat) (fs : list bool) : Prop := Forall (λ b, b = false) (take n fs).

Global Instance quiet_dec n fs : Decision (quiet n fs).
Proof. unfold quiet. apply _. Defined.

(** ** Messages, attachments and replay markers *)

(** Modelled from the spec: the event kinds of a [message] are declared
    outside this file; a deliverable message event is distinct from the
    keepalive and control events. *)
Inductive eventKind : Type := openEvent | keepaliveEvent | messageEvent.

Global Instance eventKind_eq_dec : EqDecision eventKind.
Proof. solve_decision. Defined.

(** Modelled from the spec: the [attachment] struct, with the fields this
    file reads and writes. *)
Record attachment : Type := mkAttachment {
  Name : string;
  Type' : string;
  Size : Z;
  Expires : Z;
  URL : string;
  Owner : string
}.

(** Modelled from the spec: the [message] struct, with the fields this file
    reads and writes; [Attachment] is a pointer, [None] is [nil]. *)
Record message : Type := mkMessage {
  ID : string;
  Time : Z;
  Updated : Z;
  Event : eventKind;
  Topic : string;
  Message : string;
  Title : string;
  Priority : Z;
  Tags : list string;
  Click : string;
  Attachment : option attachment;
  Encoding : string
}.

(** Modelled from the spec: a [sinceMarker] is one of four variants; the
    time of [sinceAllMessages] is the epoch ([time >= 0]).  Instants are
    kept as Unix seconds, so [Since.Unix] is what the source writes
    [since.Time().Unix()]. *)
Inductive sinceMarker : Type :=
  | sinceNoMessages
  | sinceAllMessages
  | sinceTime (t : Z)
  | sinceID (id : string).

Module Since.
Definition IsNone (s : sinceMarker) : bool :=
  match s with sinceNoMessages => true | _ => false end.
Definition IsID (s : sinceMarker) : bool :=
  match s with sinceID _ => true | _ => false end.
Definition Unix (s : sinceMarker) : Z :=
  match s with sinceTime t => t | _ => 0 end.
Definition ID (s : sinceMarker) : string :=
  match s with sinceID id => id | _ => "" end.
End Since.

(** [strings.Join(elems, sep)] *)
Definition stringsJoin (elems : list string) (sep : string) : string :=
  String.concat sep elems.

(** [strings.Split(s, sep)] for a separator of one byte, the only use here. *)
Fixpoint stringsSplit (s : string) (sep : Ascii.ascii) : list string :=
  match s with
  | EmptyString => [""]
  | String c s' =>
      if decide (c = sep) then "" :: stringsSplit s' sep
      else match stringsSplit s' sep with
           | piece :: pieces => String c piece :: pieces
           | [] => [String c ""]
           end
  end.

Definition comma : Ascii.ascii := ","%char.

(** Modelled from the spec: the [topic] struct and its constructor
    [newTopic] are declared outside this file; a topic is a grouping key,
    kept here by its name alone. *)
Record topic : Type := newTopic {
  topicID : string
}.

(** ** The [messages] relation, current layout *)

(** One row of [messages] as [createMessagesTableQuery] declares it; the
    columns keep their names.  [published] is an [INT] column: the source
    writes a Go [bool] into it and compares it with [1] and [0]. *)
Module MessageRow.
Record t : Type := mk {
  id : Z;
  mid : string;
  time : Z;
  updated : Z;
  topic : string;
  message : string;
  title : string;
  priority : Z;
  tags : string;
  click : string;
  attachment_name : string;
  attachment_type : string;
  attachment_size : Z;
  attachment_expires : Z;
  attachment_url : string;
  attachment_owner : string;
  encoding : string;
  published : Z
}.

Global Instance eq_dec : EqDecision t.
Proof. solve_decision. Defined.
End MessageRow.

(** The table: its rows in row-id order, and the largest row id handed out
    so far, which [AUTOINCREMENT] keeps so that ids are never reused.  The
    counter is not bounded here: its limit of 2^63 - 1 insertions is out of
    reach. *)
Record Store : Type := mkStore {
  rows : list MessageRow.t;
  seq : Z
}.

Definition emptyStore : Store := mkStore [] 0.

(** How the driver binds a Go [bool] to an [INT] column. *)
Definition boolToInt (b : bool) : Z := if b then 1 else 0.

(** The id [AUTOINCREMENT] gives the next row: one more than every id the
    table holds or has held. *)
Definition nextRowID (s : Store) : Z :=
  1 + foldr Z.max (seq s) (MessageRow.id <$> rows s).

(** [ORDER BY time, id] *)
Definition byTimeID (r1 r2 : MessageRow.t) : Prop :=
  MessageRow.time r1 < MessageRow.time r2 ∨ (MessageRow.time r1 = MessageRow.time r2 ∧ MessageRow.id r1 ≤ MessageRow.id r2).

Global Instance byTimeID_dec : RelDecision byTimeID.
Proof. intros r1 r2. unfold byTimeID. apply _. Defined.

Definition orderByTimeID (l : list MessageRow.t) : list MessageRow.t := merge_sort byTimeID l.

(** [insertMessageQuery] with its seventeen arguments, in their order. *)
Definition insertMessageQuery
    (mid : string) (time updated : Z) (topic message title : string) (priority : Z)
    (tags click attachment_name attachment_type : string)
    (attachment_size attachment_expires : Z)
    (attachment_url attachment_owner encoding : string) (published : bool)
    (s : Store) : result Store :=
  let rowid := nextRowID s in
  Ok (mkStore
        (rows s ++ [MessageRow.mk rowid mid time updated topic message title priority tags click
                      attachment_name attachment_type attachment_size attachment_expires
                      attachment_url attachment_owner encoding (boolToInt published)])
        rowid).

(** [updateMessageQuery] *)
Definition updateMessageQuery
    (updated : Z) (message title : string) (priority : Z) (tags click : string)
    (topic mid : string) (s : Store) : result Store :=
  Ok (mkStore
        ((λ r, if decide (MessageRow.topic r = topic ∧ MessageRow.mid r = mid)
               then MessageRow.mk (MessageRow.id r) (MessageRow.mid r) (MessageRow.time r) updated (MessageRow.topic r)
                      message title priority tags click
                      (MessageRow.attachment_name r) (MessageRow.attachment_type r)
                      (MessageRow.attachment_size r) (MessageRow.attachment_expires r)
                      (MessageRow.attachment_url r) (MessageRow.attachment_owner r)
                      (MessageRow.encoding r) (MessageRow.published r)
               else r) <$> rows s)
        (seq s)).

(** [pruneMessagesQuery]: [DELETE] keeps the rows its [WHERE] rejects. *)
Definition pruneMessagesQuery (olderThan : Z) (s : Store) : result Store :=
  Ok (mkStore
        (filter (λ r, ¬ (MessageRow.time r < olderThan ∧ MessageRow.published r = 1)) (rows s))
        (seq s)).

(** [selectRowIDFromMessageID]; the statement has no [ORDER BY], rows come
    in table order. *)
Definition selectRowIDFromMessageID (topic mid : string) (s : Store) : result (Rows Z) :=
  Ok (allRows (MessageRow.id <$> filter (λ r, MessageRow.topic r = topic ∧ MessageRow.mid r = mid) (rows s))).

(** [selectMessagesSinceTimeQuery] *)
Definition selectMessagesSinceTimeQuery (topic : string) (since : Z) (s : Store)
    : result (Rows MessageRow.t) :=
  Ok (allRows (orderByTimeID
        (filter (λ r, MessageRow.topic r = topic ∧ since ≤ MessageRow.time r ∧ MessageRow.published r = 1)
                (rows s)))).

(** [selectMessagesSinceTimeIncludeScheduledQuery] *)
Definition selectMessagesSinceTimeIncludeScheduledQuery (topic : string) (since : Z)
    (s : Store) : result (Rows MessageRow.t) :=
  Ok (allRows (orderByTimeID
        (filter (λ r, MessageRow.topic r = topic ∧ since ≤ MessageRow.time r) (rows s)))).

(** [selectMessagesSinceIDQuery] *)
Definition selectMessagesSinceIDQuery (topic : string) (rowID : Z) (s : Store)
    : result (Rows MessageRow.t) :=
  Ok (allRows (orderByTimeID
        (filter (λ r, MessageRow.topic r = topic ∧ rowID < MessageRow.id r ∧ MessageRow.published r = 1)
                (rows s)))).

(** [selectMessagesSinceIDIncludeScheduledQuery] *)
Definition selectMessagesSinceIDIncludeScheduledQuery (topic : string) (rowID : Z)
    (s : Store) : result (Rows MessageRow.t) :=
  Ok (allRows (orderByTimeID
        (filter (λ r, MessageRow.topic r = topic ∧ (rowID < MessageRow.id r ∨ MessageRow.published r = 0))
                (rows s)))).

(** [selectMessagesDueQuery] *)
Definition selectMessagesDueQuery (now : Z) (s : Store) : result (Rows MessageRow.t) :=
  Ok (allRows (orderByTimeID
        (filter (λ r, MessageRow.time r ≤ now ∧ MessageRow.published r = 0) (rows s)))).

(** [updateMessagePublishedQuery] *)
Definition updateMessagePublishedQuery (mid : string) (s : Store) : result Store :=
  Ok (mkStore
        ((λ r, if decide (MessageRow.mid r = mid)
               then MessageRow.mk (MessageRow.id r) (MessageRow.mid r) (MessageRow.time r) (MessageRow.updated r) (MessageRow.topic r)
                      (MessageRow.message r) (MessageRow.title r) (MessageRow.priority r) (MessageRow.tags r)
                      (MessageRow.click r) (MessageRow.attachment_name r) (MessageRow.attachment_type r)
                      (MessageRow.attachment_size r) (MessageRow.attachment_expires r)
                      (MessageRow.attachment_url r) (MessageRow.attachment_owner r)
                      (MessageRow.encoding r) 1
               else r) <$> rows s)
        (seq s)).

(** Signed 64-bit integers, the range of an SQLite integer and of [int64]. *)
Definition minInt64 : Z := - 2 ^ 63.
Definition maxInt64 : Z := 2 ^ 63 - 1.

Definition addInt64 (a b : Z) : option Z :=
  if decide (minInt64 ≤ a + b ≤ maxInt64) then Some (a + b) else None.

(** SQLite's [SUM] over integers: [NULL] ([Ok None]) over no row, the total
    otherwise, and the error "integer overflow" as soon as the running total
    leaves the 64-bit range. *)
Definition SUM (l : list Z) : result (option Z) :=
  match l with
  | [] => Ok None
  | _ => match foldl (λ acc x, acc ≫= λ a, addInt64 a x) (Some 0) l with
         | Some total => Ok (Some total)
         | None => Err (errDriver "integer overflow")
         end
  end.

Definition IFNULL (v : option Z) (d : Z) : Z := default d v.

(** [selectAttachmentsSizeQuery]: always one row, unless [SUM] raises its
    error while the row is being computed. *)
Definition selectAttachmentsSizeQuery (owner : string) (now : Z) (s : Store)
    : result (Rows Z) :=
  match SUM (MessageRow.attachment_size <$>
               filter (λ r, MessageRow.attachment_owner r = owner ∧ now ≤ MessageRow.attachment_expires r)
                      (rows s)) with
  | Ok v => Ok (allRows [IFNULL v 0])
  | Err e => Ok (mkRows [] (Some e))
  end.

(** ** The cache methods *)

(** The [messageCache] struct.  Its [db] field is the handle through which
    the methods reach the [world]; what is left is the [nop] flag. *)
Record messageCache : Type := mkCache {
  nop : bool
}.

(** A Go value computed without the database, returned as is. *)
Definition lift {S A} (r : result A) : M S A := λ w, (r, w).

Definition AddMessage (c : messageCache) (m : message) : M Store unit :=
  if decide (Event m ≠ messageEvent) then fail errUnexpectedMessageType
  else if nop c then ret ()
  else
    now <- timeNowUnix;;
    let published := bool_decide (Time m ≤ now) in
    let tags := stringsJoin (Tags m) "," in
    let '(attachmentName, attachmentType, attachmentSize,
          attachmentExpires, attachmentURL, attachmentOwner) :=
      match Attachment m with
      | Some a => (Name a, Type' a, Size a, Expires a, URL a, Owner a)
      | None => ("", "", 0, 0, "", "")
      end in
    dbExec (insertMessageQuery
              (ID m) (Time m) (Updated m) (Topic m) (Message m) (Title m) (Priority m)
              tags (Click m) attachmentName attachmentType attachmentSize
              attachmentExpires attachmentURL attachmentOwner (Encoding m) published).

Definition UpdateMessage (c : messageCache) (m : message) : M Store unit :=
  if decide (Event m ≠ messageEvent) then fail errUnexpectedMessageType
  else if nop c then ret ()
  else
    let tags := stringsJoin (Tags m) "," in
    dbExec (updateMessageQuery
              (Updated m) (Message m) (Title m) (Priority m) tags (Click m)
              (Topic m) (ID m)).

(** The body of the loop of [readMessages]: one scanned row becomes one
    message. *)
Definition scanMessage (r : MessageRow.t) : message :=
  let tagsStr := MessageRow.tags r in
  let tags := if decide (tagsStr ≠ "") then stringsSplit tagsStr comma else [] in
  let att :=
    if decide (MessageRow.attachment_name r ≠ "" ∧ MessageRow.attachment_url r ≠ "")
    then Some (mkAttachment (MessageRow.attachment_name r) (MessageRow.attachment_type r)
                 (MessageRow.attachment_size r) (MessageRow.attachment_expires r)
                 (MessageRow.attachment_url r) (MessageRow.attachment_owner r))
    else None in
  mkMessage (MessageRow.mid r) (MessageRow.time r) (MessageRow.updated r) messageEvent (MessageRow.topic r)
    (MessageRow.message r) (MessageRow.title r) (MessageRow.priority r) tags (MessageRow.click r) att
    (MessageRow.encoding r).

Definition readMessages (rs : Rows MessageRow.t) : result (list message) :=
  let messages := scanMessage <$> items rs in
  match rowsErr rs with
  | Some err => Err err
  | None => Ok messages
  end.

Definition messagesSinceTime (c : messageCache) (topic : string) (since : sinceMarker)
    (scheduled : bool) : M Store (list message) :=
  rs <- (if scheduled
         then dbQuery (selectMessagesSinceTimeIncludeScheduledQuery topic (Since.Unix since))
         else dbQuery (selectMessagesSinceTimeQuery topic (Since.Unix since)));;
  lift (readMessages rs).

Definition messagesSinceID (c : messageCache) (topic : string) (since : sinceMarker)
    (scheduled : bool) : M Store (list message) :=
  idrows <- dbQuery (selectRowIDFromMessageID topic (Since.ID since));;
  match items idrows with
  | [] => messagesSinceTime c topic sinceAllMessages scheduled
  | rowID :: _ =>
      rs <- (if scheduled
             then dbQuery (selectMessagesSinceIDIncludeScheduledQuery topic rowID)
             else dbQuery (selectMessagesSinceIDQuery topic rowID));;
      lift (readMessages rs)
  end.

Definition Messages (c : messageCache) (topic : string) (since : sinceMarker)
    (scheduled : bool) : M Store (list message) :=
  if Since.IsNone since then ret []
  else if Since.IsID since then messagesSinceID c topic since scheduled
  else messagesSinceTime c topic since scheduled.

Definition MessagesDue (c : messageCache) : M Store (list message) :=
  now <- timeNowUnix;;
  rs <- dbQuery (selectMessagesDueQuery now);;
  lift (readMessages rs).

Definition MarkPublished (c : messageCache) (m : message) : M Store unit :=
  dbExec (updateMessagePublishedQuery (ID m)).

(** [olderThan] is a [time.Time]; the statement gets [olderThan.Unix()]. *)
Definition Prune (c : messageCache) (olderThan : Z) : M Store unit :=
  dbExec (pruneMessagesQuery olderThan).

(** After [rows.Next()] has returned [true] the row is scanned and
    [rows.Err()] is [nil]; when it returns [false] the method gives up with
    its own error, whatever made the result empty. *)
Definition AttachmentsSize (c : messageCache) (owner : string) : M Store Z :=
  now <- timeNowUnix;;
  rs <- dbQuery (selectAttachmentsSizeQuery owner now);;
  match items rs with
  | [] => fail (errorsNew "no rows found")
  | size :: _ => ret size
  end.

(** ** The schema migrator's view of the database *)

Module Schema.

(** What a cell holds.  Every column of the source is [NOT NULL] or a
    key, so there is no [NULL] among the stored values. *)
Inductive value : Type :=
  | VInt (z : Z)
  | VText (s : string).

Global Instance value_eq_dec : EqDecision value.
Proof. solve_decision. Defined.

(** Declared column types and constraints, as the source spells them. *)
Inductive sqltype : Type := INTEGER | INT | TEXT.

Inductive constraint : Type :=
  | PRIMARY_KEY_AUTOINCREMENT
  | PRIMARY_KEY
  | NOT_NULL.

Global Instance sqltype_eq_dec : EqDecision sqltype.
Proof. solve_decision. Defined.

Global Instance constraint_eq_dec : EqDecision constraint.
Proof. solve_decision. Defined.

Record column : Type := Col {
  cname : string;
  ctype : sqltype;
  cconstraint : constraint
}.

Global Instance column_eq_dec : EqDecision column.
Proof. solve_decision. Defined.

(** A table: its declared columns, its rows in insertion order (each row
    maps a column name to its cell) and the [AUTOINCREMENT] counter. *)
Record table : Type := Table {
  columns : list column;
  body : list (gmap string value);
  autoinc : Z
}.

(** The catalogue: tables by name, and indexes by name with the table and
    the column each one covers. *)
Record DB : Type := mkDB {
  tables : gmap string table;
  indexes : gmap string (string * string)
}.

Definition emptyDB : DB := mkDB ∅ ∅.

Definition columnNames (t : table) : list string := cname <$> columns t.

(** *** Column affinity

    A value stored into an [INT] column is turned into an integer when it
    is the text of one, and a value stored into a [TEXT] column is turned
    into text. *)
Definition digitValue (c : Ascii.ascii) : option Z :=
  let n := Z.of_N (N_of_ascii c) in
  if decide (48 ≤ n ≤ 57) then Some (n - 48) else None.

Fixpoint parseDigits (s : string) (acc : Z) : option Z :=
  match s with
  | EmptyString => Some acc
  | String c s' => d ← digitValue c; parseDigits s' (10 * acc + d)
  end.

Definition parseInteger (s : string) : option Z :=
  match s with
  | EmptyString => None
  | String c s' =>
      if decide (c = "-"%char)
      then (if decide (s' = "") then None else Z.opp <$> parseDigits s' 0)
      else parseDigits s 0
  end.

Definition affinity (ty : sqltype) (v : value) : value :=
  match ty, v with
  | TEXT, VInt z => VText (pretty z)
  | (INT | INTEGER), VText s =>
      match parseInteger s with
      | Some z => if decide (minInt64 ≤ z ≤ maxInt64) then VInt z else VText s
      | None => VText s
      end
  | _, _ => v
  end.

(** *** Statements *)

Inductive stmt : Type :=
  | BEGIN
  | COMMIT
  | CREATE_TABLE_IF_NOT_EXISTS (name : string) (cols : list column)
  | CREATE_INDEX_IF_NOT_EXISTS (index : string) (on : string) (col : string)
  | ALTER_TABLE_ADD_COLUMN (name : string) (col : column) (dflt : value)
  | INSERT_INTO_SELECT (dst : string) (dstCols : list string)
      (srcCols : list string) (src : string)
  | DROP_TABLE (name : string)
  | ALTER_TABLE_RENAME_TO (name : string) (newName : string)
  | INSERT_INTO_VALUES (name : string) (vals : list value)
  | INSERT_INTO (name : string) (cols : list string) (vals : list value)
  | UPDATE_SET_WHERE (name : string) (col : string) (v : value)
      (whereCol : string) (whereVal : value).

Definition noSuchTable (name : string) : error := errDriver ("no such table: " +:+ name).

Definition withTable (d : DB) (name : string) (k : table → result DB) : result DB :=
  match tables d !! name with
  | Some t => k t
  | None => Err (noSuchTable name)
  end.

Definition columnOf (t : table) (name : string) : option column :=
  list_find (λ c, cname c = name) (columns t) ≫= λ p, Some p.2.

Definition hasColumn (t : table) (name : string) : Prop := name ∈ columnNames t.

Global Instance hasColumn_dec t name : Decision (hasColumn t name).
Proof. unfold hasColumn. apply _. Defined.

Definition isKey (c : column) : Prop :=
  cconstraint c = PRIMARY_KEY ∨ cconstraint c = PRIMARY_KEY_AUTOINCREMENT.

Global Instance isKey_dec c : Decision (isKey c).
Proof. unfold isKey. apply _. Defined.

(** The value a row gets in column [c]: the supplied one, under the
    column's affinity, or the next row id for the [AUTOINCREMENT] key. *)
Definition cell (rowid : Z) (given : gmap string value) (c : column) : option value :=
  match given !! cname c with
  | Some v => Some (affinity (ctype c) v)
  | None => if decide (cconstraint c = PRIMARY_KEY_AUTOINCREMENT)
            then Some (VInt rowid) else None
  end.

(** One [INSERT]: every column needs a value ([NOT NULL]) and a key value
    must be new. *)
Definition insertRow (name : string) (t : table) (given : gmap string value)
    : result table :=
  let rowid := 1 + autoinc t in
  match mapM (λ c, v ← cell rowid given c; Some (cname c, v)) (columns t) with
  | None => Err (errDriver ("NOT NULL constraint failed: " +:+ name))
  | Some cells =>
      let row : gmap string value := list_to_map cells in
      if decide (Exists (λ c, isKey c ∧ Exists (λ old, old !! cname c = row !! cname c) (body t))
                        (columns t))
      then Err (errDriver ("UNIQUE constraint failed: " +:+ name))
      else Ok (Table (columns t) (body t ++ [row])
                 (if decide (Exists (λ c, cconstraint c = PRIMARY_KEY_AUTOINCREMENT) (columns t))
                  then rowid else autoinc t))
  end.

Fixpoint insertRows (name : string) (t : table) (given : list (gmap string value))
    : result table :=
  match given with
  | [] => Ok t
  | g :: rest =>
      match insertRow name t g with
      | Ok t' => insertRows name t' rest
      | Err e => Err e
      end
  end.

(** What one statement other than [BEGIN] and [COMMIT] does to the
    catalogue. *)
Definition apply (st : stmt) (d : DB) : result DB :=
  match st with
  | BEGIN | COMMIT => Ok d
  | CREATE_TABLE_IF_NOT_EXISTS name cols =>
      match tables d !! name with
      | Some _ => Ok d
      | None => Ok (mkDB (<[name := Table cols [] 0]> (tables d)) (indexes d))
      end
  | CREATE_INDEX_IF_NOT_EXISTS index on col =>
      match indexes d !! index with
      | Some _ => Ok d
      | None =>
          withTable d on (λ t,
            if decide (hasColumn t col)
            then Ok (mkDB (tables d) (<[index := (on, col)]> (indexes d)))
            else Err (errDriver ("no such column: " +:+ col)))
      end
  | ALTER_TABLE_ADD_COLUMN name col dflt =>
      withTable d name (λ t,
        if decide (hasColumn t (cname col))
        then Err (errDriver ("duplicate column name: " +:+ cname col))
        else Ok (mkDB
                   (<[name := Table (columns t ++ [col])
                                (<[cname col := affinity (ctype col) dflt]> <$> body t)
                                (autoinc t)]> (tables d))
                   (indexes d)))
  | INSERT_INTO_SELECT dst dstCols srcCols src =>
      withTable d src (λ from,
      withTable d dst (λ to,
        if decide (Forall (hasColumn from) srcCols) then
          if decide (Forall (hasColumn to) dstCols ∧ length dstCols = length srcCols) then
            let selected := (λ r : gmap string value,
                               list_to_map (omap (λ p : string * string,
                                                    (λ v, (p.1, v)) <$> r !! p.2)
                                              (zip dstCols srcCols)))
                            <$> body from in
            match insertRows dst to selected with
            | Ok to' => Ok (mkDB (<[dst := to']> (tables d)) (indexes d))
            | Err e => Err e
            end
          else Err (errDriver ("table " +:+ dst +:+ " has no such columns"))
        else Err (errDriver ("no such column in " +:+ src))))
  | DROP_TABLE name =>
      withTable d name (λ _,
        Ok (mkDB (delete name (tables d))
              (filter (λ ix, ix.2.1 ≠ name) (indexes d))))
  | ALTER_TABLE_RENAME_TO name newName =>
      withTable d name (λ t,
        match tables d !! newName with
        | Some _ => Err (errDriver ("there is already another table or index with this name: "
                                    +:+ newName))
        | None =>
            Ok (mkDB (<[newName := t]> (delete name (tables d)))
                  ((λ ix : string * string,
                      if decide (ix.1 = name) then (newName, ix.2) else ix)
                   <$> indexes d))
        end)
  | INSERT_INTO_VALUES name vals =>
      withTable d name (λ t,
        if decide (length vals = length (columns t)) then
          match insertRow name t (list_to_map (zip (columnNames t) vals)) with
          | Ok t' => Ok (mkDB (<[name := t']> (tables d)) (indexes d))
          | Err e => Err e
          end
        else Err (errDriver ("table " +:+ name +:+ " has a different number of columns")))
  | INSERT_INTO name cols vals =>
      withTable d name (λ t,
        match list_find (λ c, ¬ hasColumn t c) cols with
        | Some (_, c) =>
            Err (errDriver ("table " +:+ name +:+ " has no column named " +:+ c))
        | None =>
            if decide (length cols = length vals) then
              match insertRow name t (list_to_map (zip cols vals)) with
              | Ok t' => Ok (mkDB (<[name := t']> (tables d)) (indexes d))
              | Err e => Err e
              end
            else Err (errDriver "values for a different number of columns")
        end)
  | UPDATE_SET_WHERE name col v whereCol whereVal =>
      withTable d name (λ t,
        match columnOf t col with
        | Some c =>
            if decide (hasColumn t whereCol) then
              Ok (mkDB
                    (<[name := Table (columns t)
                                 ((λ r : gmap string value,
                                     if decide (r !! whereCol = Some whereVal)
                                     then <[col := affinity (ctype c) v]> r else r)
                                  <$> body t)
                                 (autoinc t)]> (tables d))
                    (indexes d))
            else Err (errDriver ("no such column: " +:+ whereCol))
        | None => Err (errDriver ("no such column: " +:+ col))
        end)
  end.

(** *** Transactions

    A connection holds what is committed and, between [BEGIN] and
    [COMMIT], the uncommitted state the statements of the transaction
    work on.  Outside a transaction each statement commits by itself. *)
Record session : Type := Session {
  committed : DB;
  pending : option DB
}.

Definition step (st : stmt) (ss : session) : result session :=
  match st, pending ss with
  | BEGIN, None => Ok (Session (committed ss) (Some (committed ss)))
  | BEGIN, Some _ =>
      Err (errDriver "cannot start a transaction within a transaction")
  | COMMIT, Some d => Ok (Session d None)
  | COMMIT, None => Err (errDriver "cannot commit - no transaction is active")
  | _, Some d =>
      match apply st d with
      | Ok d' => Ok (Session (committed ss) (Some d'))
      | Err e => Err e
      end
  | _, None =>
      match apply st (committed ss) with
      | Ok d' => Ok (Session d' None)
      | Err e => Err e
      end
  end.

(** The statements of one text, in order; each consumes one entry of the
    fault list, and the first failure ends the run. *)
Fixpoint runScript (script : list stmt) (ss : session) (fs : list bool)
    : option error * session * list bool :=
  match script with
  | [] => (None, ss, fs)
  | st :: rest =>
      if nextFault fs then (Some errIO, ss, tail fs)
      else match step st ss with
           | Ok ss' => runScript rest ss' (tail fs)
           | Err e => (Some e, ss, tail fs)
           end
  end.

(** [db.Exec(text)] for a text of several statements.  What is persisted
    afterwards is what was committed: a transaction the text leaves open,
    because a statement inside it failed, never reaches the file. *)
Definition dbExecScript (script : list stmt) : M DB unit := λ w,
  match runScript script (Session (store w) None) (faults w) with
  | (None, ss, fs) => (Ok (), World (committed ss) fs (clock w))
  | (Some e, ss, fs) => (Err e, World (committed ss) fs (clock w))
  end.

(** *** The texts of the source *)

Definition createMessagesTableQuery : list stmt := [
  BEGIN;
  CREATE_TABLE_IF_NOT_EXISTS "messages" [
    Col "id" INTEGER PRIMARY_KEY_AUTOINCREMENT;
    Col "mid" TEXT NOT_NULL;
    Col "time" INT NOT_NULL;
    Col "updated" INT NOT_NULL;
    Col "topic" TEXT NOT_NULL;
    Col "message" TEXT NOT_NULL;
    Col "title" TEXT NOT_NULL;
    Col "priority" INT NOT_NULL;
    Col "tags" TEXT NOT_NULL;
    Col "click" TEXT NOT_NULL;
    Col "attachment_name" TEXT NOT_NULL;
    Col "attachment_type" TEXT NOT_NULL;
    Col "attachment_size" INT NOT_NULL;
    Col "attachment_expires" INT NOT_NULL;
    Col "attachment_url" TEXT NOT_NULL;
    Col "attachment_owner" TEXT NOT_NULL;
    Col "encoding" TEXT NOT_NULL;
    Col "published" INT NOT_NULL
  ];
  CREATE_INDEX_IF_NOT_EXISTS "idx_mid" "messages" "mid";
  CREATE_INDEX_IF_NOT_EXISTS "idx_topic" "messages" "topic";
  COMMIT
].

(** The column list of [insertMessageQuery]. *)
Definition insertMessageColumns : list string := [
  "mid"; "time"; "updated"; "topic"; "message"; "title"; "priority"; "tags"; "click";
  "attachment_name"; "attachment_type"; "attachment_size"; "attachment_expires";
  "attachment_url"; "attachment_owner"; "encoding"; "published"
].

(** [insertMessageQuery] as the catalogue sees it: the statement names its
    seventeen columns and binds one value to each. *)
Definition insertMessageQuery (vals : list value) : list stmt :=
  [ INSERT_INTO "messages" insertMessageColumns vals ].

Definition currentSchemaVersion : Z := 5.

(** The columns of [schemaVersion] in [createSchemaVersionTableQuery]. *)
Definition schemaVersionColumns : list column := [
  Col "id" INT PRIMARY_KEY;
  Col "version" INT NOT_NULL
].

Definition createSchemaVersionTableQuery : list stmt := [
  CREATE_TABLE_IF_NOT_EXISTS "schemaVersion" schemaVersionColumns
].

Definition insertSchemaVersion (version : Z) : list stmt :=
  [ INSERT_INTO_VALUES "schemaVersion" [VInt 1; VInt version] ].

Definition updateSchemaVersion (version : Z) : list stmt :=
  [ UPDATE_SET_WHERE "schemaVersion" "version" (VInt version) "id" (VInt 1) ].

(** [selectSchemaVersionQuery] *)
Definition selectSchemaVersionQuery (d : DB) : result (Rows value) :=
  match tables d !! "schemaVersion" with
  | Some t =>
      if decide (hasColumn t "version" ∧ hasColumn t "id")
      then Ok (allRows (omap (λ r : gmap string value, r !! "version")
                          (filter (λ r : gmap string value, r !! "id" = Some (VInt 1))
                                  (body t))))
      else Err (errDriver "no such column")
  | None => Err (noSuchTable "schemaVersion")
  end.

(** [selectMessagesCountQuery] *)
Definition selectMessagesCountQuery (d : DB) : result (Rows Z) :=
  match tables d !! "messages" with
  | Some t => Ok (allRows [Z.of_nat (length (body t))])
  | None => Err (noSuchTable "messages")
  end.

(** 0 -> 1 *)
Definition migrate0To1AlterMessagesTableQuery : list stmt := [
  BEGIN;
  ALTER_TABLE_ADD_COLUMN "messages" (Col "title" TEXT NOT_NULL) (VText "");
  ALTER_TABLE_ADD_COLUMN "messages" (Col "priority" INT NOT_NULL) (VInt 0);
  ALTER_TABLE_ADD_COLUMN "messages" (Col "tags" TEXT NOT_NULL) (VText "");
  COMMIT
].

(** 1 -> 2 *)
Definition migrate1To2AlterMessagesTableQuery : list stmt := [
  ALTER_TABLE_ADD_COLUMN "messages" (Col "published" INT NOT_NULL) (VInt 1)
].

(** 2 -> 3 *)
Definition migrate2To3AlterMessagesTableQuery : list stmt := [
  BEGIN;
  ALTER_TABLE_ADD_COLUMN "messages" (Col "click" TEXT NOT_NULL) (VText "");
  ALTER_TABLE_ADD_COLUMN "messages" (Col "attachment_name" TEXT NOT_NULL) (VText "");
  ALTER_TABLE_ADD_COLUMN "messages" (Col "attachment_type" TEXT NOT_NULL) (VText "");
  ALTER_TABLE_ADD_COLUMN "messages" (Col "attachment_size" INT NOT_NULL) (VText "0");
  ALTER_TABLE_ADD_COLUMN "messages" (Col "attachment_expires" INT NOT_NULL) (VText "0");
  ALTER_TABLE_ADD_COLUMN "messages" (Col "attachment_owner" TEXT NOT_NULL) (VText "");
  ALTER_TABLE_ADD_COLUMN "messages" (Col "attachment_url" TEXT NOT_NULL) (VText "");
  COMMIT
].

(** 3 -> 4 *)
Definition migrate3To4AlterMessagesTableQuery : list stmt := [
  ALTER_TABLE_ADD_COLUMN "messages" (Col "encoding" TEXT NOT_NULL) (VText "")
].

(** The columns of [messages_new] in the 4 -> 5 text. *)
Definition messagesNewColumns : list column := [
  Col "id" INTEGER PRIMARY_KEY_AUTOINCREMENT;
  Col "mid" TEXT NOT_NULL;
  Col "time" INT NOT_NULL;
  Col "topic" TEXT NOT_NULL;
  Col "message" TEXT NOT_NULL;
  Col "title" TEXT NOT_NULL;
  Col "priority" INT NOT_NULL;
  Col "tags" TEXT NOT_NULL;
  Col "click" TEXT NOT_NULL;
  Col "attachment_name" TEXT NOT_NULL;
  Col "attachment_type" TEXT NOT_NULL;
  Col "attachment_size" INT NOT_NULL;
  Col "attachment_expires" INT NOT_NULL;
  Col "attachment_url" TEXT NOT_NULL;
  Col "attachment_owner" TEXT NOT_NULL;
  Col "encoding" TEXT NOT_NULL;
  Col "published" INT NOT_NULL
].

(** 4 -> 5 *)
Definition migrate4To5AlterMessagesTableQuery : list stmt := [
  BEGIN;
  CREATE_TABLE_IF_NOT_EXISTS "messages_new" messagesNewColumns;
  CREATE_INDEX_IF_NOT_EXISTS "idx_mid" "messages_new" "mid";
  CREATE_INDEX_IF_NOT_EXISTS "idx_topic" "messages_new" "topic";
  INSERT_INTO_SELECT "messages_new"
    ["mid"; "time"; "topic"; "message"; "title"; "priority"; "tags"; "click";
     "attachment_name"; "attachment_type"; "attachment_size"; "attachment_expires";
     "attachment_url"; "attachment_owner"; "encoding"; "published"]
    ["id"; "time"; "topic"; "message"; "title"; "priority"; "tags"; "click";
     "attachment_name"; "attachment_type"; "attachment_size"; "attachment_expires";
     "attachment_url"; "attachment_owner"; "encoding"; "published"]
    "messages";
  DROP_TABLE "messages";
  ALTER_TABLE_RENAME_TO "messages_new" "messages";
  COMMIT
].

(** *** The migrator

    The [log.Print] at the head of each step writes to the process log
    and is left out. *)

Definition migrateFrom4 : M DB unit :=
  run dbExecScript migrate4To5AlterMessagesTableQuery;;
  run dbExecScript (updateSchemaVersion 5);;
  ret ().

Definition migrateFrom3 : M DB unit :=
  run dbExecScript migrate3To4AlterMessagesTableQuery;;
  run dbExecScript (updateSchemaVersion 4);;
  migrateFrom4.

Definition migrateFrom2 : M DB unit :=
  run dbExecScript migrate2To3AlterMessagesTableQuery;;
  run dbExecScript (updateSchemaVersion 3);;
  migrateFrom3.

Definition migrateFrom1 : M DB unit :=
  run dbExecScript migrate1To2AlterMessagesTableQuery;;
  run dbExecScript (updateSchemaVersion 2);;
  migrateFrom2.

Definition migrateFrom0 : M DB unit :=
  run dbExecScript migrate0To1AlterMessagesTableQuery;;
  run dbExecScript createSchemaVersionTableQuery;;
  run dbExecScript (insertSchemaVersion 1);;
  migrateFrom1.

Definition setupNewCacheDB : M DB unit :=
  run dbExecScript createMessagesTableQuery;;
  run dbExecScript createSchemaVersionTableQuery;;
  run dbExecScript (insertSchemaVersion currentSchemaVersion);;
  ret ().

(** [rows.Scan(&schemaVersion)] into a Go [int]. *)
Definition scanInt (v : value) : result Z :=
  match v with
  | VInt z => Ok z
  | VText s => Err (errDriver ("converting driver.Value type string to a int: " +:+ s))
  end.

(** The chain of [if]s at the end of [setupCacheDB]. *)
Definition doMigrations (schemaVersion : Z) : M DB unit :=
  if decide (schemaVersion = currentSchemaVersion) then ret ()
  else if decide (schemaVersion = 0) then migrateFrom0
  else if decide (schemaVersion = 1) then migrateFrom1
  else if decide (schemaVersion = 2) then migrateFrom2
  else if decide (schemaVersion = 3) then migrateFrom3
  else if decide (schemaVersion = 4) then migrateFrom4
  else fail (fmtErrorf "unexpected schema version found: %d" schemaVersion).

Definition setupCacheDB : M DB unit := λ w,
  match dbQuery selectMessagesCountQuery w with
  | (Err _, w1) => setupNewCacheDB w1
  | (Ok _, w1) =>
      match dbQuery selectSchemaVersionQuery w1 with
      | (Ok rowsSV, w2) =>
          match items rowsSV with
          | [] => (Err (errorsNew
                     "cannot determine schema version: cache file may be corrupt"), w2)
          | v :: _ =>
              match scanInt v with
              | Err e => (Err e, w2)
              | Ok schemaVersion => doMigrations schemaVersion w2
              end
          end
      | (Err _, w2) => doMigrations 0 w2
      end
  end.

(** The version the store records, as [setupCacheDB] reads it. *)
Definition recordedVersion (d : DB) : option value :=
  match selectSchemaVersionQuery d with
  | Ok rs => head (items rs)
  | Err _ => None
  end.

(** The columns of the [messages] relation, when it exists. *)
Definition messagesColumns (d : DB) : option (list column) :=
  columns <$> tables d !! "messages".

(** A store as the first release laid it out: [id] is the message id, and
    there is no version record.  The layout is read off the 4 -> 5 text:
    the columns it copies, less the ones steps 0 to 3 add. *)
Definition legacyColumns : list column := [
  Col "id" TEXT PRIMARY_KEY;
  Col "time" INT NOT_NULL;
  Col "topic" TEXT NOT_NULL;
  Col "message" TEXT NOT_NULL
].

Definition legacyRow (id : string) (time : Z) (topic message : string)
    : gmap string value :=
  list_to_map [("id", VText id); ("time", VInt time);
               ("topic", VText topic); ("message", VText message)].

Definition legacyDB (body : list (gmap string value)) : DB :=
  mkDB {[ "messages" := Table legacyColumns body 0 ]} ∅.

(** *** Vocabulary of the statements *)

(** A store of the first release holding two messages, opened by
    [setupCacheDB] while the engine fails at statement [n + 1] and at no
    other: what an interrupted upgrade leaves on disk. *)
Definition interruptedAt (n : nat) : DB :=
  store (snd (setupCacheDB
                (World (legacyDB [legacyRow "a1" 10 "alerts" "disk full";
                                  legacyRow "b2" 11 "alerts" "disk ok"])
                       (replicate n false ++ [true]) 0))).

(** The statements of a text between its [BEGIN] and its [COMMIT]. *)
Definition transactionBody (script : list stmt) : list stmt :=
  removelast (tail script).

(** The tables a statement may write. *)
Definition targets (st : stmt) : list string :=
  match st with
  | BEGIN | COMMIT | CREATE_INDEX_IF_NOT_EXISTS _ _ _ => []
  | CREATE_TABLE_IF_NOT_EXISTS name _ | ALTER_TABLE_ADD_COLUMN name _ _
  | DROP_TABLE name | INSERT_INTO_VALUES name _ | INSERT_INTO name _ _
  | UPDATE_SET_WHERE name _ _ _ _ => [name]
  | INSERT_INTO_SELECT dst _ _ _ => [dst]
  | ALTER_TABLE_RENAME_TO name newName => [name; newName]
  end.

(** Both the committed and the uncommitted state of a connection show
    the same table under the name [n]. *)
Definition sees (ss : session) (n : string) (t : option table) : Prop :=
  tables (committed ss) !! n = t ∧ ∀ d, pending ss = Some d → tables d !! n = t.

(** A text that opens no transaction of its own. *)
Definition plain (script : list stmt) : Prop :=
  Forall (λ st, st ≠ BEGIN ∧ st ≠ COMMIT) script.

(** The names of the columns of [messages]; none when there is no such
    relation. *)
Definition messagesColumnNames (d : DB) : list string :=
  match messagesColumns d with
  | Some cols => cname <$> cols
  | None => []
  end.

(** A store created by [setupNewCacheDB]. *)
Definition freshDB : DB := store (snd (setupNewCacheDB (World emptyDB [] 0))).

(** The store holds a version record of the declared shape, and the
    version it records is [v]. *)
Definition atVersion (d : DB) (v : Z) : Prop :=
  ∃ t, tables d !! "schemaVersion" = Some t ∧
       columns t = schemaVersionColumns ∧
       recordedVersion d = Some (VInt v).

(** The store was opened before: it has a [messages] relation, no
    leftover [messages_new], and does not record the current version. *)
Definition priorStore (d : DB) : Prop :=
  is_Some (tables d !! "messages") ∧
  tables d !! "messages_new" = None ∧
  recordedVersion d ≠ Some (VInt currentSchemaVersion).

(** All-or-nothing, as a property of the step that starts at version [v]:
    whenever the store still records [v] after the step has run, its
    [messages] relation has the columns it had before. *)
Definition atomicStep (v : Z) (migrate : M DB unit) : Prop :=
  ∀ w : world DB,
    atVersion (store w) v →
    recordedVersion (store (snd (migrate w))) = Some (VInt v) →
    messagesColumns (store (snd (migrate w))) = messagesColumns (store w).

(** What the step that starts at version [v] does, as the source runs it:
    the text [structural] first, then the write of version [v + 1], then
    the step [next].
    - When [structural] fails the step fails and the store is what it was.
    - When [structural] succeeds it leaves the version record alone; when
      the version write then fails, the step fails and the store is what
      [structural] made of it, still at version [v].
    - When both succeed the store records [v + 1], the version write has
      not touched [messages], and the step goes on with [next]. *)
Definition twoPhase (v : Z) (structural : list stmt) (migrate next : M DB unit)
    : Prop :=
  ∀ w : world DB,
    atVersion (store w) v →
    match dbExecScript structural w with
    | (Err e, w1) => migrate w = (Err e, w1) ∧ store w1 = store w
    | (Ok _, w1) =>
        atVersion (store w1) v ∧
        match dbExecScript (updateSchemaVersion (v + 1)) w1 with
        | (Err e, w2) => migrate w = (Err e, w2) ∧ store w2 = store w1
        | (Ok _, w2) =>
            migrate w = next w2 ∧
            atVersion (store w2) (v + 1) ∧
            tables (store w2) !! "messages" = tables (store w1) !! "messages"
        end
    end.

(** The same for the step that starts from a store without a version
    record, which has three phases: the text [structural], the creation
    of the version table, and the insertion of version 1. *)
Definition threePhase (structural : list stmt) (migrate next : M DB unit) : Prop :=
  ∀ w : world DB,
    tables (store w) !! "schemaVersion" = None →
    match dbExecScript structural w with
    | (Err e, w1) => migrate w = (Err e, w1) ∧ store w1 = store w
    | (Ok _, w1) =>
        tables (store w1) !! "schemaVersion" = None ∧
        match dbExecScript createSchemaVersionTableQuery w1 with
        | (Err e, w2) => migrate w = (Err e, w2) ∧ store w2 = store w1
        | (Ok _, w2) =>
            recordedVersion (store w2) = None ∧
            tables (store w2) !! "messages" = tables (store w1) !! "messages" ∧
            match dbExecScript (insertSchemaVersion 1) w2 with
            | (Err e, w3) => migrate w = (Err e, w3) ∧ store w3 = store w2
            | (Ok _, w3) =>
                migrate w = next w3 ∧
                atVersion (store w3) 1 ∧
                tables (store w3) !! "messages" = tables (store w1) !! "messages"
            end
        end
    end.

End Schema.

(** ** The remaining cache methods *)

(** [selectMessageByIDQuery]; no [ORDER BY], rows come in table order. *)
Definition selectMessageByIDQuery (topic mid : string) (s : Store) : result (Rows MessageRow.t) :=
  Ok (allRows (filter (λ r, MessageRow.topic r = topic ∧ MessageRow.mid r = mid) (rows s))).

(** [selectMessageCountForTopicQuery] *)
Definition selectMessageCountForTopicQuery (topic : string) (s : Store) : result (Rows Z) :=
  Ok (allRows [Z.of_nat (length (filter (λ r, MessageRow.topic r = topic) (rows s)))]).

(** [selectTopicsQuery]: one row for each distinct topic. *)
Definition selectTopicsQuery (s : Store) : result (Rows string) :=
  Ok (allRows (remove_dups (MessageRow.topic <$> rows s))).

(** [selectAttachmentsExpiredQuery] *)
Definition selectAttachmentsExpiredQuery (now : Z) (s : Store) : result (Rows string) :=
  Ok (allRows (MessageRow.mid <$>
                 filter (λ r, 0 < MessageRow.attachment_expires r ∧ MessageRow.attachment_expires r < now)
                        (rows s))).

Module Cache.

(** The method [Message] of [messageCache]; the name is qualified because
    the struct [message] has a field of that name. *)
Definition Message (c : messageCache) (topic id : string) : M Store message :=
  rs <- dbQuery (selectMessageByIDQuery topic id);;
  match readMessages rs with
  | Err err => fail err
  | Ok messages =>
      match messages with
      | [] => fail (errorsNew "not found")
      | m :: _ => ret m
      end
  end.

End Cache.

Definition MessageCount (c : messageCache) (topic : string) : M Store Z :=
  rs <- dbQuery (selectMessageCountForTopicQuery topic);;
  match items rs with
  | [] => fail (errorsNew "no rows found")
  | count :: _ => ret count
  end.

Definition Topics (c : messageCache) : M Store (gmap string topic) :=
  rs <- dbQuery selectTopicsQuery;;
  let topics := foldl (λ (topics : gmap string topic) (id : string),
                         <[id := newTopic id]> topics) ∅ (items rs) in
  match rowsErr rs with
  | Some err => fail err
  | None => ret topics
  end.

Definition AttachmentsExpired (c : messageCache) : M Store (list string) :=
  now <- timeNowUnix;;
  rs <- dbQuery (selectAttachmentsExpiredQuery now);;
  let ids := items rs in
  match rowsErr rs with
  | Some err => fail err
  | None => ret ids
  end.

(** [newSqliteCache], on a database that [sql.Open] has opened: the schema
    is set up first, and only then is there a cache. *)
Definition newSqliteCache (nop : bool) : M Schema.DB messageCache :=
  run Schema.setupCacheDB;;
  ret (mkCache nop).

(** ** Vocabulary of the statements, continued *)

(** A call of one of the four writing methods. *)
Inductive write : Type :=
  | callAddMessage (m : message)
  | callUpdateMessage (m : message)
  | callMarkPublished (m : message)
  | callPrune (olderThan : Z).

Definition runWrite (c : messageCache) (op : write) : M Store unit :=
  match op with
  | callAddMessage m => AddMessage c m
  | callUpdateMessage m => UpdateMessage c m
  | callMarkPublished m => MarkPublished c m
  | callPrune olderThan => Prune c olderThan
  end.

(** The calls of a list made one after the other, each on the database the
    one before has left, whether it returned an error or not. *)
Definition runWrites (c : messageCache) (ops : list write) (w : world Store) : world Store :=
  foldl (λ w op, snd (runWrite c op w)) w ops.

(** The rows are in the order of their ids, no id occurs twice, and none
    exceeds the counter. *)
Definition wellFormed (s : Store) : Prop :=
  StronglySorted Z.lt (MessageRow.id <$> rows s) ∧ Forall (λ r, MessageRow.id r ≤ seq s) (rows s).

(** What a publisher does with the messages that are due: it marks each of
    them published, in the order [MessagesDue] gave them. *)
Fixpoint markAllPublished (c : messageCache) (due : list message) : M Store unit :=
  match due with
  | [] => ret ()
  | m :: rest => run MarkPublished c m;; markAllPublished c rest
  end.

Definition publishDue (c : messageCache) : M Store unit :=
  due <- MessagesDue c;;
  markAllPublished c due.

(** The byte [b] occurs in [s]. *)
Fixpoint hasByte (b : Ascii.ascii) (s : string) : bool :=
  match s with
  | EmptyString => false
  | String c s' => if decide (c = b) then true else hasByte b s'
  end.

(** The row [AddMessage] writes for the message [m] when the clock shows
    [now] and the next row id is [rowid]. *)
Definition addedRow (m : message) (now rowid : Z) : MessageRow.t :=
  MessageRow.mk rowid (ID m) (Time m) (Updated m) (Topic m) (Message m) (Title m) (Priority m)
    (String.concat "," (Tags m)) (Click m)
    (from_option Name "" (Attachment m)) (from_option Type' "" (Attachment m))
    (from_option Size 0 (Attachment m)) (from_option Expires 0 (Attachment m))
    (from_option URL "" (Attachment m)) (from_option Owner "" (Attachment m))
    (Encoding m) (if decide (Time m ≤ now) then 1 else 0).

(** A row with its [published] cell set to 1. *)
Definition asPublished (r : MessageRow.t) : MessageRow.t :=
  MessageRow.mk (MessageRow.id r) (MessageRow.mid r) (MessageRow.time r) (MessageRow.updated r) (MessageRow.topic r)
    (MessageRow.message r) (MessageRow.title r) (MessageRow.priority r) (MessageRow.tags r) (MessageRow.click r)
    (MessageRow.attachment_name r) (MessageRow.attachment_type r) (MessageRow.attachment_size r)
    (MessageRow.attachment_expires r) (MessageRow.attachment_url r) (MessageRow.attachment_owner r)
    (MessageRow.encoding r) 1.

(** The statements of a text succeed one after the other and take the
    connection from [ss] to [ss']. *)
Fixpoint stepsTo (script : list Schema.stmt) (ss ss' : Schema.session) : Prop :=
  match script with
  | [] => ss = ss'
  | st :: rest => ∃ ss1, Schema.step st ss = Ok ss1 ∧ stepsTo rest ss1 ss'
  end.

(** The columns a text adds to [messages], each with the value existing
    rows get in it. *)
Definition addedCells (script : list Schema.stmt) : list (string * Schema.value) :=
  omap (λ st, match st with
              | Schema.ALTER_TABLE_ADD_COLUMN _ col dflt =>
                  Some (Schema.cname col, Schema.affinity (Schema.ctype col) dflt)
              | _ => None
              end) script.

(** A row with the cells of a list written into it, one after the other. *)
Definition withCells (cells : list (string * Schema.value)) (r : gmap string Schema.value)
    : gmap string Schema.value :=
  foldl (λ r cv, <[cv.1 := cv.2]> r) r cells.

(** The columns a text declares with [ADD COLUMN], in its order. *)
Definition addedColumns (script : list Schema.stmt) : list Schema.column :=
  omap (λ st, match st with
              | Schema.ALTER_TABLE_ADD_COLUMN _ col _ => Some col
              | _ => None
              end) script.

(** Every statement of the text adds a column to [messages]. *)
Definition addsToMessages (script : list Schema.stmt) : Prop :=
  Forall (λ st, ∃ col dflt, st = Schema.ALTER_TABLE_ADD_COLUMN "messages" col dflt) script.

(** The columns a text copies with [INSERT INTO ... SELECT], each new
    column name with the old column it is filled from. *)
Definition copiedColumns (script : list Schema.stmt) : list (string * string) :=
  mjoin (omap (λ st, match st with
                     | Schema.INSERT_INTO_SELECT _ dstCols srcCols _ => Some (zip dstCols srcCols)
                     | _ => None
                     end) script).

(** A call of [AddMessage] or of [UpdateMessage]. *)
Definition isAddOrUpdate (op : write) : Prop :=
  match op with
  | callAddMessage _ | callUpdateMessage _ => True
  | _ => False
  end.

(** A row that [MessagesDue] selects when the clock shows [now]. *)
Definition isDue (now : Z) (r : MessageRow.t) : Prop :=
  MessageRow.time r ≤ now ∧ MessageRow.published r = 0.

Global Instance isDue_dec now r : Decision (isDue now r).
Proof. unfold isDue. apply _. Defined.

(** The number of occurrences of the byte [b] in [s]. *)
Fixpoint countByte (b : Ascii.ascii) (s : string) : nat :=
  match s with
  | EmptyString => 0
  | String c s' => (if decide (c = b) then 1 else 0) + countByte b s'
  end.

(** ** Vocabulary of the statements *)

(** The cells of a row that [UpdateMessage] does not name: the row id, the
    message id, the time, the topic, the attachment, the encoding and the
    published flag. *)
Definition sameFixedCells (r r' : MessageRow.t) : Prop :=
  MessageRow.id r' = MessageRow.id r ∧ MessageRow.mid r' = MessageRow.mid r ∧ MessageRow.time r' = MessageRow.time r ∧
  MessageRow.topic r' = MessageRow.topic r ∧
  MessageRow.attachment_name r' = MessageRow.attachment_name r ∧
  MessageRow.attachment_type r' = MessageRow.attachment_type r ∧
  MessageRow.attachment_size r' = MessageRow.attachment_size r ∧
  MessageRow.attachment_expires r' = MessageRow.attachment_expires r ∧
  MessageRow.attachment_url r' = MessageRow.attachment_url r ∧
  MessageRow.attachment_owner r' = MessageRow.attachment_owner r ∧
  MessageRow.encoding r' = MessageRow.encoding r ∧ MessageRow.published r' = MessageRow.published r.

(** The cells [UpdateMessage] rewrites, taken from the message. *)
Definition mutableCellsFrom (m : message) (r' : MessageRow.t) : Prop :=
  MessageRow.updated r' = Updated m ∧ MessageRow.message r' = Message m ∧ MessageRow.title r' = Title m ∧
  MessageRow.priority r' = Priority m ∧ MessageRow.tags r' = String.concat "," (Tags m) ∧
  MessageRow.click r' = Click m.

(** Every cell but [published] is the same. *)
Definition sameButPublished (r r' : MessageRow.t) : Prop :=
  MessageRow.id r' = MessageRow.id r ∧ MessageRow.mid r' = MessageRow.mid r ∧ MessageRow.time r' = MessageRow.time r ∧
  MessageRow.updated r' = MessageRow.updated r ∧ MessageRow.topic r' = MessageRow.topic r ∧
  MessageRow.message r' = MessageRow.message r ∧ MessageRow.title r' = MessageRow.title r ∧
  MessageRow.priority r' = MessageRow.priority r ∧ MessageRow.tags r' = MessageRow.tags r ∧
  MessageRow.click r' = MessageRow.click r ∧
  MessageRow.attachment_name r' = MessageRow.attachment_name r ∧
  MessageRow.attachment_type r' = MessageRow.attachment_type r ∧
  MessageRow.attachment_size r' = MessageRow.attachment_size r ∧
  MessageRow.attachment_expires r' = MessageRow.attachment_expires r ∧
  MessageRow.attachment_url r' = MessageRow.attachment_url r ∧
  MessageRow.attachment_owner r' = MessageRow.attachment_owner r ∧
  MessageRow.encoding r' = MessageRow.encoding r.

(** The row position an ID cursor resolves to: the first row id that
    [selectRowIDFromMessageID] yields. *)
Definition resolvesTo (s : Store) (topic mid : string) (p : Z) : Prop :=
  ∃ rs, selectRowIDFromMessageID topic mid s = Ok rs ∧ head (items rs) = Some p.

(** No row of the topic carries the message id. *)
Definition unknownID (s : Store) (topic mid : string) : Prop :=
  Forall (λ r, ¬ (MessageRow.topic r = topic ∧ MessageRow.mid r = mid)) (rows s).

Definition sumZ (l : list Z) : Z := foldr Z.add 0 l.

(** The totals reached while the numbers of a list are added up one after
    the other, starting from [acc]. *)
Fixpoint runningTotals (acc : Z) (l : list Z) : list Z :=
  match l with
  | [] => []
  | x :: l' => (acc + x) :: runningTotals (acc + x) l'
  end.

(** Adding up the list never leaves the signed 64-bit range. *)
Definition addsUpInInt64 (l : list Z) : Prop :=
  Forall (λ total, minInt64 ≤ total ≤ maxInt64) (runningTotals 0 l).

(** * Properties *)

(** ** The driver *)

Lemma quiet_next n fs : quiet (S n) fs → nextFault fs = false ∧ quiet n (tail fs).
Proof.
  unfold quiet, nextFault. destruct fs as [|b fs]; simpl.
  - intros _. split; [done|]. by rewrite take_nil.
  - intros H. apply Forall_cons in H as [-> H]. done.
Qed.

Lemma quiet_nil n : quiet n [].
Proof. unfold quiet. rewrite take_nil. constructor. Qed.

Lemma dbExec_ok {S} (stmt : S → result S) (w : world S) (s' : S) :
  nextFault (faults w) = false →
  stmt (store w) = Ok s' →
  dbExec stmt w = (Ok (), World s' (tail (faults w)) (clock w)).
Proof. intros Hq Hs. unfold dbExec. by rewrite Hq, Hs. Qed.

Lemma dbQuery_ok {S A} (q : S → result (Rows A)) (w : world S) :
  nextFault (faults w) = false →
  dbQuery q w = (q (store w), World (store w) (tail (faults w)) (clock w)).
Proof. intros Hq. unfold dbQuery. by rewrite Hq. Qed.

Lemma bind_dbQuery_ok {S A B} (q : S → result (Rows A)) (k : Rows A → M S B)
    (w : world S) (rs : Rows A) :
  nextFault (faults w) = false →
  q (store w) = Ok rs →
  bind (dbQuery q) k w = k rs (World (store w) (tail (faults w)) (clock w)).
Proof. intros Hq Hrs. unfold bind. by rewrite dbQuery_ok, Hrs. Qed.

Lemma bind_ok {S A B} (m : M S A) (k : A → M S B) (w w1 : world S) (a : A) :
  m w = (Ok a, w1) → bind m k w = k a w1.
Proof. intros H. unfold bind. by rewrite H. Qed.

Lemma bind_err {S A B} (m : M S A) (k : A → M S B) (w w1 : world S) (e : error) :
  m w = (Err e, w1) → bind m k w = (Err e, w1).
Proof. intros H. unfold bind. by rewrite H. Qed.

Lemma bind_inv_ok {S A B} (m : M S A) (k : A → M S B) (w w' : world S) (b : B) :
  bind m k w = (Ok b, w') → ∃ a w1, m w = (Ok a, w1) ∧ k a w1 = (Ok b, w').
Proof.
  unfold bind. destruct (m w) as [[a|e] w1]; [eauto | discriminate].
Qed.

(** ** Writing messages *)

(** C10: a message of any other event kind is refused by [AddMessage] and by
    [UpdateMessage] with [errUnexpectedMessageType], whatever the [nop] flag
    of the cache: the check on the event kind comes first, the database is
    not reached and nothing changes. *)
Theorem wrong_event_refused_even_when_nop (c : messageCache) (m : message) (w : world Store) :
  Event m ≠ messageEvent →
  AddMessage c m w = (Err errUnexpectedMessageType, w) ∧
  UpdateMessage c m w = (Err errUnexpectedMessageType, w).
Proof.
  intros He. unfold AddMessage, UpdateMessage.
  destruct (decide (Event m ≠ messageEvent)) as [_|Hn]; [done | by destruct Hn].
Qed.

Lemma wrong_event_refused_even_when_nop_witness :
  let m := mkMessage "k1" 5 5 keepaliveEvent "alerts" "" "" 0 [] "" None "" in
  let w := World emptyStore [] 100 in
  Event m ≠ messageEvent ∧
  AddMessage (mkCache true) m w = (Err errUnexpectedMessageType, w) ∧
  UpdateMessage (mkCache true) m w = (Err errUnexpectedMessageType, w).
Proof.
  intros m w.
  assert (H : Event m ≠ messageEvent) by (simpl; discriminate).
  split; [exact H|].
  exact (wrong_event_refused_even_when_nop (mkCache true) m w H).
Defined.

Lemma foldr_max_bound (z : Z) (l : list Z) :
  z ≤ foldr Z.max z l ∧ Forall (λ x, x ≤ foldr Z.max z l) l.
Proof.
  induction l as [|x l [IH1 IH2]]; [split; [reflexivity | constructor]|].
  change (foldr Z.max z (x :: l)) with (Z.max x (foldr Z.max z l)).
  split; [lia|]. constructor; [lia|].
  eapply Forall_impl; [exact IH2|]. intros y Hy. cbv beta in Hy. lia.
Qed.

Lemma nextRowID_fresh (s : Store) : Forall (λ r, MessageRow.id r < nextRowID s) (rows s).
Proof.
  unfold nextRowID.
  destruct (foldr_max_bound (seq s) (MessageRow.id <$> rows s)) as [_ H].
  rewrite Forall_forall in H. apply Forall_forall. intros r Hr.
  specialize (H (MessageRow.id r)). cbv beta in H.
  assert (MessageRow.id r ∈ MessageRow.id <$> rows s) as Hin by (apply list_elem_of_fmap; eauto).
  specialize (H Hin). lia.
Qed.

Lemma nextRowID_above_seq (s : Store) : seq s < nextRowID s.
Proof.
  unfold nextRowID.
  destruct (foldr_max_bound (seq s) (MessageRow.id <$> rows s)) as [H _]. lia.
Qed.

(** C1: on a cache that is not a no-op, [AddMessage] of a message event
    appends exactly one row.  Its [published] cell is 1 when the message's
    time is at most the clock read at the insertion and 0 when it is later;
    the other cells are the message's fields as given, the tags joined with
    commas, and an absent attachment written as empty strings and zeros.
    The rows already there are kept, and the new row id is above theirs. *)
Theorem AddMessage_stores_row (c : messageCache) (m : message) (w : world Store) :
  Event m = messageEvent →
  nop c = false →
  quiet 1 (faults w) →
  ∃ r : MessageRow.t,
    AddMessage c m w
      = (Ok (), World (mkStore (rows (store w) ++ [r]) (MessageRow.id r))
                  (tail (faults w)) (clock w)) ∧
    (Time m ≤ clock w → MessageRow.published r = 1) ∧
    (clock w < Time m → MessageRow.published r = 0) ∧
    (MessageRow.mid r = ID m ∧ MessageRow.time r = Time m ∧ MessageRow.updated r = Updated m ∧
     MessageRow.topic r = Topic m ∧ MessageRow.message r = Message m ∧ MessageRow.title r = Title m ∧
     MessageRow.priority r = Priority m ∧ MessageRow.click r = Click m ∧
     MessageRow.encoding r = Encoding m) ∧
    MessageRow.tags r = String.concat "," (Tags m) ∧
    match Attachment m with
    | Some a =>
        MessageRow.attachment_name r = Name a ∧ MessageRow.attachment_type r = Type' a ∧
        MessageRow.attachment_size r = Size a ∧ MessageRow.attachment_expires r = Expires a ∧
        MessageRow.attachment_url r = URL a ∧ MessageRow.attachment_owner r = Owner a
    | None =>
        MessageRow.attachment_name r = "" ∧ MessageRow.attachment_type r = "" ∧
        MessageRow.attachment_size r = 0 ∧ MessageRow.attachment_expires r = 0 ∧
        MessageRow.attachment_url r = "" ∧ MessageRow.attachment_owner r = ""
    end ∧
    Forall (λ r', MessageRow.id r' < MessageRow.id r) (rows (store w)).
Proof.
  intros He Hnop Hq. apply quiet_next in Hq as [Hq _].
  unfold AddMessage.
  destruct (decide (Event m ≠ messageEvent)) as [Hn|_]; [by destruct Hn|].
  rewrite Hnop.
  erewrite bind_ok by reflexivity.
  destruct (Attachment m) as [a|] eqn:Hatt;
    unfold dbExec, insertMessageQuery; rewrite Hq; cbv zeta;
    (match goal with |- context [cons ?r nil] => exists r end);
    (split; [reflexivity|]); simpl;
    (split; [intros Hle; by rewrite bool_decide_eq_true_2|]);
    (split; [intros Hlt; rewrite bool_decide_eq_false_2; [done | lia]|]);
    repeat split; apply nextRowID_fresh.
Qed.

Lemma AddMessage_stores_row_witness :
  let m := mkMessage "m1" 150 150 messageEvent "alerts" "disk full" "warning" 4
             ["warn"; "disk"] "" None "" in
  let w := World emptyStore [] 100 in
  Event m = messageEvent ∧ nop (mkCache false) = false ∧ quiet 1 (faults w) ∧
  ∃ r, rows (store (AddMessage (mkCache false) m w).2) = [r] ∧
       MessageRow.published r = 0 ∧ MessageRow.tags r = "warn,disk" ∧ MessageRow.attachment_size r = 0.
Proof.
  intros m w.
  assert (H1 : Event m = messageEvent) by reflexivity.
  assert (H2 : nop (mkCache false) = false) by reflexivity.
  assert (H3 : quiet 1 (faults w)) by apply quiet_nil.
  repeat split; [exact H3|].
  destruct (AddMessage_stores_row (mkCache false) m w H1 H2 H3)
    as (r & -> & _ & Hsched & _ & Htags & Hatt & _).
  exists r. simpl. repeat split.
  - apply Hsched. simpl. lia.
  - exact Htags.
  - simpl in Hatt. tauto.
Defined.

(** C8: on a cache that is not a no-op, [UpdateMessage] of a message event
    returns no error and keeps every row in its place.  A row whose topic
    and message id are the message's gets the message's [updated],
    [message], [title], [priority], joined [tags] and [click]; its time, its
    published flag, its attachment cells, its ids and its encoding stay as
    they were.  Every other row is untouched, and when no row matches the
    table is what it was. *)
Theorem UpdateMessage_frame (c : messageCache) (m : message) (w : world Store) :
  Event m = messageEvent →
  nop c = false →
  quiet 1 (faults w) →
  ∃ rows' : list MessageRow.t,
    UpdateMessage c m w
      = (Ok (), World (mkStore rows' (seq (store w))) (tail (faults w)) (clock w)) ∧
    length rows' = length (rows (store w)) ∧
    (∀ i r, rows (store w) !! i = Some r →
       ∃ r', rows' !! i = Some r' ∧
         (MessageRow.topic r = Topic m ∧ MessageRow.mid r = ID m →
            mutableCellsFrom m r' ∧ sameFixedCells r r') ∧
         (¬ (MessageRow.topic r = Topic m ∧ MessageRow.mid r = ID m) → r' = r)) ∧
    (unknownID (store w) (Topic m) (ID m) → rows' = rows (store w)).
Proof.
  intros He Hnop Hq. apply quiet_next in Hq as [Hq _].
  unfold UpdateMessage.
  destruct (decide (Event m ≠ messageEvent)) as [Hn|_]; [by destruct Hn|].
  rewrite Hnop. unfold dbExec, updateMessageQuery. rewrite Hq.
  eexists. split; [reflexivity|]. split; [by rewrite length_fmap|]. split.
  - intros i r Hi. rewrite list_lookup_fmap, Hi. simpl.
    eexists. split; [reflexivity|].
    destruct (decide (MessageRow.topic r = Topic m ∧ MessageRow.mid r = ID m)) as [Hm|Hm].
    + split; [|by intros []]. intros _.
      unfold mutableCellsFrom, sameFixedCells, stringsJoin. simpl. repeat split.
    + split; [by intros ?|done].
  - intros Hun. rewrite <- (list_fmap_id (rows (store w))) at 2.
    apply Forall_fmap_ext_1. eapply Forall_impl; [exact Hun|].
    intros r Hr. simpl. by rewrite decide_False.
Qed.

Lemma UpdateMessage_frame_witness :
  let m := mkMessage "m1" 0 120 messageEvent "alerts" "edited" "t" 3 ["x"] "" None "" in
  let r1 := MessageRow.mk 1 "m1" 90 90 "alerts" "disk full" "" 0 "" "" "f.txt" "text/plain"
              7 500 "http://h/f.txt" "alice" "" 1 in
  let r2 := MessageRow.mk 2 "m1" 95 95 "other" "hello" "" 0 "" "" "" "" 0 0 "" "" "" 0 in
  let w := World (mkStore [r1; r2] 2) [] 100 in
  Event m = messageEvent ∧ nop (mkCache false) = false ∧ quiet 1 (faults w) ∧
  ∃ r1', rows (store (UpdateMessage (mkCache false) m w).2) = [r1'; r2] ∧
         MessageRow.message r1' = "edited" ∧ MessageRow.time r1' = 90 ∧ MessageRow.published r1' = 1 ∧
         MessageRow.attachment_size r1' = 7.
Proof.
  intros m r1 r2 w.
  assert (H1 : Event m = messageEvent) by reflexivity.
  assert (H2 : nop (mkCache false) = false) by reflexivity.
  assert (H3 : quiet 1 (faults w)) by apply quiet_nil.
  repeat split; [exact H3|].
  destruct (UpdateMessage_frame (mkCache false) m w H1 H2 H3)
    as (rows' & -> & Hlen & Hrows & _).
  simpl in *.
  destruct (Hrows 0%nat r1 eq_refl) as (r1' & Hr1 & Hchg & _).
  destruct (Hrows 1%nat r2 eq_refl) as (r2' & Hr2 & _ & Hsame).
  destruct rows' as [|x [|y [|? ?]]]; simplify_eq/=.
  exists r1'. rewrite Hsame by (intros [? _]; discriminate).
  destruct Hchg as [Hmut Hfix]; [done|].
  unfold mutableCellsFrom, sameFixedCells in *. simpl in *.
  repeat split; tauto.
Defined.

(** C7: [MarkPublished] returns no error and sets [published] to 1 on every
    row whose message id is the message's, in whatever topic the row is, and
    changes no other cell and no other row.  A second call with the same
    message returns no error again and leaves the table as the first call
    left it. *)
Theorem MarkPublished_by_id_idempotent (c : messageCache) (m : message) (w : world Store) :
  quiet 2 (faults w) →
  ∃ (rows' : list MessageRow.t) (w1 w2 : world Store),
    MarkPublished c m w = (Ok (), w1) ∧
    store w1 = mkStore rows' (seq (store w)) ∧
    length rows' = length (rows (store w)) ∧
    (∀ i r, rows (store w) !! i = Some r →
       ∃ r', rows' !! i = Some r' ∧
         (MessageRow.mid r = ID m → MessageRow.published r' = 1 ∧ sameButPublished r r') ∧
         (MessageRow.mid r ≠ ID m → r' = r)) ∧
    MarkPublished c m w1 = (Ok (), w2) ∧
    store w2 = store w1.
Proof.
  intros Hq. apply quiet_next in Hq as [Hq1 Hq]. apply quiet_next in Hq as [Hq2 _].
  unfold MarkPublished, dbExec, updateMessagePublishedQuery. rewrite Hq1.
  eexists _, _, _. split; [reflexivity|]. simpl. rewrite Hq2.
  split; [reflexivity|].
  split; [by rewrite length_fmap|]. split; [|split; [reflexivity|]].
  - intros i r Hi. rewrite list_lookup_fmap, Hi. simpl.
    eexists. split; [reflexivity|].
    destruct (decide (MessageRow.mid r = ID m)) as [Hm|Hm].
    + split; [|done]. intros _. unfold sameButPublished. simpl. repeat split.
    + split; [done|]. done.
  - simpl. f_equal. rewrite <- list_fmap_compose.
    apply list_fmap_ext. intros i r _. simpl.
    destruct (decide (MessageRow.mid r = ID m)) as [Hm|Hm]; simpl.
    + by rewrite decide_True.
    + by rewrite decide_False.
Qed.

Lemma MarkPublished_by_id_idempotent_witness :
  let m := mkMessage "m1" 90 90 messageEvent "alerts" "" "" 0 [] "" None "" in
  let r1 := MessageRow.mk 1 "m1" 90 90 "alerts" "a" "" 0 "" "" "" "" 0 0 "" "" "" 0 in
  let r2 := MessageRow.mk 2 "m1" 95 95 "other" "b" "" 0 "" "" "" "" 0 0 "" "" "" 0 in
  let r3 := MessageRow.mk 3 "m2" 99 99 "alerts" "c" "" 0 "" "" "" "" 0 0 "" "" "" 0 in
  let w := World (mkStore [r1; r2; r3] 3) [] 100 in
  quiet 2 (faults w) ∧
  ∃ w1, MarkPublished (mkCache false) m w = (Ok (), w1) ∧
        (MessageRow.published <$> rows (store w1)) = [1; 1; 0] ∧
        (MarkPublished (mkCache false) m w1).1 = Ok ().
Proof.
  intros m r1 r2 r3 w.
  assert (H : quiet 2 (faults w)) by apply quiet_nil.
  split; [exact H|].
  destruct (MarkPublished_by_id_idempotent (mkCache false) m w H)
    as (rows' & w1 & w2 & Hrun & _ & _ & _ & Hagain & _).
  exists w1. split; [exact Hrun|]. rewrite Hagain. split; [|reflexivity].
  vm_compute in Hrun. by simplify_eq.
Defined.

(** C4: [Prune] returns no error and removes exactly the rows whose time is
    below the cutoff and whose [published] is 1.  The rows that stay keep
    their order; a row with [published] 0 stays however old its time is, and
    so does a published row whose time is at or above the cutoff. *)
Theorem Prune_deletes_old_published (c : messageCache) (cutoff : Z) (w : world Store) :
  quiet 1 (faults w) →
  ∃ rows' : list MessageRow.t,
    Prune c cutoff w
      = (Ok (), World (mkStore rows' (seq (store w))) (tail (faults w)) (clock w)) ∧
    rows' `sublist_of` rows (store w) ∧
    (∀ r, r ∈ rows' ↔
          r ∈ rows (store w) ∧ ¬ (MessageRow.time r < cutoff ∧ MessageRow.published r = 1)) ∧
    (∀ r, r ∈ rows (store w) → MessageRow.published r = 0 → r ∈ rows') ∧
    (∀ r, r ∈ rows (store w) → cutoff ≤ MessageRow.time r → r ∈ rows') ∧
    (∀ r, MessageRow.time r < cutoff → MessageRow.published r = 1 → r ∉ rows').
Proof.
  intros Hq. apply quiet_next in Hq as [Hq _].
  unfold Prune, dbExec, pruneMessagesQuery. rewrite Hq.
  eexists. split; [reflexivity|]. split; [apply sublist_filter|].
  split; [|split; [|split]].
  - intros r. rewrite list_elem_of_filter. tauto.
  - intros r Hin Hp. apply list_elem_of_filter. split; [|done]. intros [_ H1]. lia.
  - intros r Hin Ht. apply list_elem_of_filter. split; [|done]. intros [H1 _]. lia.
  - intros r Ht Hp. rewrite list_elem_of_filter. tauto.
Qed.

Lemma Prune_deletes_old_published_witness :
  let a := MessageRow.mk 1 "A" 900 900 "alerts" "a" "" 0 "" "" "" "" 0 0 "" "" "" 1 in
  let b := MessageRow.mk 2 "B" 900 900 "alerts" "b" "" 0 "" "" "" "" 0 0 "" "" "" 0 in
  let w := World (mkStore [a; b] 2) [] 1000 in
  quiet 1 (faults w) ∧
  fst (Prune (mkCache false) 1000 w) = Ok () ∧
  (a ∉ rows (store (Prune (mkCache false) 1000 w).2)) ∧
  b ∈ rows (store (Prune (mkCache false) 1000 w).2).
Proof.
  intros a b w.
  assert (H : quiet 1 (faults w)) by apply quiet_nil.
  split; [exact H|].
  destruct (Prune_deletes_old_published (mkCache false) 1000 w H)
    as (rows' & -> & _ & _ & Hb & _ & Ha).
  simpl. split; [reflexivity|]. split.
  - apply Ha; [simpl; lia | reflexivity].
  - apply Hb; [|reflexivity]. apply list_elem_of_further, list_elem_of_here.
Defined.

(** ** Reading messages *)

Global Instance byTimeID_total : Total byTimeID.
Proof. intros r1 r2. unfold byTimeID. lia. Qed.

Global Instance byTimeID_trans : Transitive byTimeID.
Proof. intros r1 r2 r3. unfold byTimeID. lia. Qed.

Lemma orderByTimeID_perm (l : list MessageRow.t) : orderByTimeID l ≡ₚ l.
Proof. apply merge_sort_Permutation. Qed.

Lemma orderByTimeID_sorted (l : list MessageRow.t) : Sorted byTimeID (orderByTimeID l).
Proof. apply (Sorted_merge_sort byTimeID). Qed.

Lemma filter_none {A} (P : A → Prop) `{!∀ x, Decision (P x)} (l : list A) :
  Forall (λ x, ¬ P x) l → filter P l = [].
Proof.
  induction 1 as [|x l Hx _ IH]; [done|]. by rewrite filter_cons_False.
Qed.

Lemma readMessages_allRows (l : list MessageRow.t) :
  readMessages (allRows l) = Ok (scanMessage <$> l).
Proof. reflexivity. Qed.

(** What [messagesSinceTime] returns while the engine answers. *)
Lemma messagesSinceTime_ok (c : messageCache) (topic : string) (since : sinceMarker)
    (scheduled : bool) (w : world Store) :
  nextFault (faults w) = false →
  messagesSinceTime c topic since scheduled w
    = (Ok (scanMessage <$>
             orderByTimeID
               (filter (λ r, MessageRow.topic r = topic ∧ Since.Unix since ≤ MessageRow.time r ∧
                             (scheduled = false → MessageRow.published r = 1))
                       (rows (store w)))),
       World (store w) (tail (faults w)) (clock w)).
Proof.
  intros Hq. unfold messagesSinceTime.
  destruct scheduled;
    (erewrite bind_dbQuery_ok by (first [exact Hq | reflexivity]));
    unfold lift; rewrite readMessages_allRows;
    do 4 f_equal; apply list_filter_iff; intros r; intuition congruence.
Qed.

(** C2: when no row of the topic carries the id of an ID cursor, [Messages]
    with that cursor returns what [Messages] with [sinceAllMessages] returns,
    for either value of the scheduled flag: a sequence of messages and no
    error.  Neither call changes the table. *)
Theorem unknown_ID_cursor_replays_all (c : messageCache) (topic id : string)
    (scheduled : bool) (w : world Store) :
  quiet 2 (faults w) →
  unknownID (store w) topic id →
  fst (Messages c topic (sinceID id) scheduled w)
    = fst (Messages c topic sinceAllMessages scheduled w) ∧
  (∃ messages, fst (Messages c topic (sinceID id) scheduled w) = Ok messages) ∧
  store (snd (Messages c topic (sinceID id) scheduled w)) = store w ∧
  store (snd (Messages c topic sinceAllMessages scheduled w)) = store w.
Proof.
  intros Hq Hun. apply quiet_next in Hq as [Hq1 Hq]. apply quiet_next in Hq as [Hq2 _].
  unfold Messages. simpl. unfold messagesSinceID.
  erewrite bind_dbQuery_ok by (first [exact Hq1 | reflexivity]).
  simpl. rewrite (filter_none _ _ Hun). simpl.
  rewrite !messagesSinceTime_ok by done. simpl. eauto.
Qed.

Lemma unknown_ID_cursor_replays_all_witness :
  let r1 := MessageRow.mk 1 "m1" 90 90 "alerts" "a" "" 0 "" "" "" "" 0 0 "" "" "" 1 in
  let r2 := MessageRow.mk 2 "m2" 200 200 "alerts" "b" "" 0 "" "" "" "" 0 0 "" "" "" 0 in
  let w := World (mkStore [r1; r2] 2) [] 100 in
  quiet 2 (faults w) ∧ unknownID (store w) "alerts" "nonexistent" ∧
  fst (Messages (mkCache false) "alerts" (sinceID "nonexistent") false w)
    = fst (Messages (mkCache false) "alerts" sinceAllMessages false w).
Proof.
  intros r1 r2 w.
  assert (H1 : quiet 2 (faults w)) by apply quiet_nil.
  assert (H2 : unknownID (store w) "alerts" "nonexistent").
  { unfold unknownID. simpl. repeat constructor; intros [_ ?]; discriminate. }
  split; [exact H1|]. split; [exact H2|].
  exact (proj1 (unknown_ID_cursor_replays_all (mkCache false) "alerts" "nonexistent"
                  false w H1 H2)).
Defined.

(** C3: when the ID cursor resolves to row position [p], [Messages] with the
    scheduled flag set returns the messages of exactly the rows of the topic
    whose position is above [p] or whose [published] is 0, ordered by time
    and then position.  A row of the topic that is not published is among
    them wherever it sits; a published row at or before [p] is not. *)
Theorem ID_cursor_with_scheduled (c : messageCache) (topic id : string) (p : Z)
    (w : world Store) :
  quiet 2 (faults w) →
  resolvesTo (store w) topic id p →
  ∃ l : list MessageRow.t,
    fst (Messages c topic (sinceID id) true w) = Ok (scanMessage <$> l) ∧
    l ≡ₚ filter (λ r, MessageRow.topic r = topic ∧ (p < MessageRow.id r ∨ MessageRow.published r = 0))
           (rows (store w)) ∧
    Sorted byTimeID l ∧
    (∀ r, r ∈ rows (store w) → MessageRow.topic r = topic → MessageRow.published r = 0 → r ∈ l) ∧
    (∀ r, r ∈ rows (store w) → MessageRow.topic r = topic → p < MessageRow.id r → r ∈ l) ∧
    (∀ r, MessageRow.published r = 1 → MessageRow.id r ≤ p → r ∉ l) ∧
    (∀ r, MessageRow.topic r ≠ topic → r ∉ l).
Proof.
  intros Hq (rs & Hrs & Hp).
  apply quiet_next in Hq as [Hq1 Hq]. apply quiet_next in Hq as [Hq2 _].
  unfold Messages. simpl. unfold messagesSinceID.
  erewrite bind_dbQuery_ok by (first [exact Hq1 | exact Hrs]).
  destruct (items rs) as [|rowID ids] eqn:Hitems; [discriminate|].
  simpl in Hp. injection Hp as ->.
  erewrite bind_dbQuery_ok by (first [exact Hq2 | reflexivity]).
  unfold lift. rewrite readMessages_allRows. cbn [fst].
  eexists. split; [reflexivity|].
  split; [apply orderByTimeID_perm|]. split; [apply orderByTimeID_sorted|].
  repeat split; intros r; rewrite ?orderByTimeID_perm, ?list_elem_of_filter.
  - intros; split; [split|]; auto.
  - intros; split; [split|]; auto.
  - intros H1 H2 [[_ [?|?]] _]; lia.
  - intros Hne [[? _] _]. done.
Qed.

Lemma ID_cursor_with_scheduled_witness :
  let r1 := MessageRow.mk 1 "m1" 500 500 "alerts" "later" "" 0 "" "" "" "" 0 0 "" "" "" 0 in
  let r2 := MessageRow.mk 2 "m2" 90 90 "alerts" "seen" "" 0 "" "" "" "" 0 0 "" "" "" 1 in
  let r3 := MessageRow.mk 3 "m3" 95 95 "alerts" "cursor" "" 0 "" "" "" "" 0 0 "" "" "" 1 in
  let r4 := MessageRow.mk 4 "m4" 99 99 "alerts" "new" "" 0 "" "" "" "" 0 0 "" "" "" 1 in
  let w := World (mkStore [r1; r2; r3; r4] 4) [] 100 in
  quiet 2 (faults w) ∧ resolvesTo (store w) "alerts" "m3" 3 ∧
  ∃ l, fst (Messages (mkCache false) "alerts" (sinceID "m3") true w)
         = Ok (scanMessage <$> l) ∧
       r1 ∈ l ∧ r4 ∈ l ∧ (r2 ∉ l) ∧ (r3 ∉ l).
Proof.
  intros r1 r2 r3 r4 w.
  assert (H1 : quiet 2 (faults w)) by apply quiet_nil.
  assert (H2 : resolvesTo (store w) "alerts" "m3" 3) by (eexists; split; reflexivity).
  split; [exact H1|]. split; [exact H2|].
  destruct (ID_cursor_with_scheduled (mkCache false) "alerts" "m3" 3 w H1 H2)
    as (l & Hl & _ & _ & Hsched & Hnew & Hseen & _).
  exists l. split; [exact Hl|]. repeat split.
  - apply Hsched; [apply list_elem_of_here | reflexivity | reflexivity].
  - apply Hnew; [|reflexivity | simpl; lia].
    do 3 apply list_elem_of_further. apply list_elem_of_here.
  - apply Hseen; [reflexivity | simpl; lia].
  - apply Hseen; [reflexivity | simpl; lia].
Defined.

(** ** Attachment accounting *)

Lemma foldl_addInt64 (l : list Z) (acc : Z) :
  Forall (λ total, minInt64 ≤ total ≤ maxInt64) (runningTotals acc l) →
  foldl (λ (a : option Z) (x : Z), a ≫= λ a, addInt64 a x) (Some acc) l
    = Some (acc + sumZ l).
Proof.
  revert acc. induction l as [|x l IH]; intros acc Hl.
  - simpl. f_equal. unfold sumZ. simpl. lia.
  - simpl in Hl. apply Forall_cons in Hl as [Hx Hl].
    change (sumZ (x :: l)) with (x + sumZ l).
    simpl. unfold addInt64 at 2. rewrite decide_True by exact Hx.
    rewrite IH by exact Hl. f_equal. lia.
Qed.

Lemma SUM_exact (l : list Z) :
  addsUpInInt64 l →
  ∃ v, SUM l = Ok v ∧ IFNULL v 0 = sumZ l.
Proof.
  intros Hl. unfold SUM. destruct l as [|x l]; [by exists None|].
  rewrite foldl_addInt64 by exact Hl. eexists. split; [reflexivity|]. simpl. lia.
Qed.

(** Sizes that are not negative add up in range as soon as their total
    does. *)
Lemma addsUpInInt64_nonneg (l : list Z) :
  Forall (λ x, 0 ≤ x) l → sumZ l ≤ maxInt64 → addsUpInInt64 l.
Proof.
  unfold addsUpInInt64. intros Hl.
  assert (Hgen : ∀ acc, 0 ≤ acc → acc + sumZ l ≤ maxInt64 →
                        Forall (λ total, minInt64 ≤ total ≤ maxInt64)
                               (runningTotals acc l)).
  { induction Hl as [|x l Hx Hl IH]; intros acc Hacc Hmax; simpl; [constructor|].
    assert (0 ≤ sumZ l).
    { clear -Hl. induction Hl; unfold sumZ in *; simpl in *; lia. }
    change (sumZ (x :: l)) with (x + sumZ l) in Hmax.
    constructor; [unfold minInt64; lia|]. apply IH; lia. }
  intros Hmax. apply Hgen; lia.
Qed.

(** C9: [AttachmentsSize] returns the sum of [attachment_size] over the rows
    whose [attachment_owner] is the owner and whose [attachment_expires] is
    at or after the clock, and 0 when there is no such row; rows of another
    owner and rows that have expired are not counted.  The sum is the one
    the engine computes in signed 64-bit integers, so the sizes are taken to
    add up within that range. *)
Theorem AttachmentsSize_sums_live_rows (c : messageCache) (owner : string)
    (w : world Store) :
  let live := filter (λ r, MessageRow.attachment_owner r = owner ∧
                           clock w ≤ MessageRow.attachment_expires r)
                     (rows (store w)) in
  quiet 1 (faults w) →
  addsUpInInt64 (MessageRow.attachment_size <$> live) →
  AttachmentsSize c owner w
    = (Ok (sumZ (MessageRow.attachment_size <$> live)),
       World (store w) (tail (faults w)) (clock w)) ∧
  (live = [] → fst (AttachmentsSize c owner w) = Ok 0).
Proof.
  intros live Hq Hrange. apply quiet_next in Hq as [Hq _].
  assert (Hsum : AttachmentsSize c owner w
                 = (Ok (sumZ (MessageRow.attachment_size <$> live)),
                    World (store w) (tail (faults w)) (clock w))).
  { unfold AttachmentsSize. erewrite bind_ok by reflexivity.
    unfold bind. rewrite dbQuery_ok by exact Hq.
    unfold selectAttachmentsSizeQuery. fold live.
    destruct (SUM_exact _ Hrange) as (v & -> & HS).
    simpl. unfold ret. by rewrite HS. }
  split; [exact Hsum|].
  intros Hnil. rewrite Hsum, Hnil. reflexivity.
Qed.

Lemma AttachmentsSize_sums_live_rows_witness :
  let r1 := MessageRow.mk 1 "m1" 90 90 "alerts" "a" "" 0 "" "" "a.bin" "" 100 50
              "http://h/a.bin" "alice" "" 1 in
  let r2 := MessageRow.mk 2 "m2" 95 95 "alerts" "b" "" 0 "" "" "b.bin" "" 200 500
              "http://h/b.bin" "alice" "" 1 in
  let r3 := MessageRow.mk 3 "m3" 99 99 "alerts" "c" "" 0 "" "" "c.bin" "" 400 500
              "http://h/c.bin" "bob" "" 1 in
  let w := World (mkStore [r1; r2; r3] 3) [] 100 in
  let live := filter (λ r, MessageRow.attachment_owner r = "alice" ∧
                           clock w ≤ MessageRow.attachment_expires r)
                     (rows (store w)) in
  quiet 1 (faults w) ∧
  addsUpInInt64 (MessageRow.attachment_size <$> live) ∧
  fst (AttachmentsSize (mkCache false) "alice" w) = Ok 200.
Proof.
  intros r1 r2 r3 w live.
  assert (H1 : quiet 1 (faults w)) by apply quiet_nil.
  assert (H2 : addsUpInInt64 (MessageRow.attachment_size <$> live)).
  { apply addsUpInInt64_nonneg; [repeat constructor; simpl; lia|].
    vm_compute. discriminate. }
  split; [exact H1|]. split; [exact H2|].
  rewrite (proj1 (AttachmentsSize_sums_live_rows (mkCache false) "alice" w H1 H2)).
  reflexivity.
Defined.

(** Past the 64-bit range the engine's [SUM] raises its error, no row comes
    back and the method reports "no rows found". *)
Example AttachmentsSize_overflow :
  let big := MessageRow.mk 1 "m1" 0 0 "alerts" "" "" 0 "" "" "a" "" (2 ^ 62) 500 "u" "alice" "" 1 in
  fst (AttachmentsSize (mkCache false) "alice"
         (World (mkStore [big; big] 2) [] 100))
    = Err (errorsNew "no rows found").
Proof. vm_compute. reflexivity. Qed.

(** ** Further properties of the read and write paths *)

Lemma AddMessage_ok (c : messageCache) (m : message) (w : world Store) :
  Event m = messageEvent →
  nop c = false →
  nextFault (faults w) = false →
  AddMessage c m w
    = (Ok (), World (mkStore (rows (store w)
                                ++ [addedRow m (clock w) (nextRowID (store w))])
                       (nextRowID (store w)))
                (tail (faults w)) (clock w)).
Proof.
  intros He Hnop Hq. unfold AddMessage.
  destruct (decide (Event m ≠ messageEvent)) as [Hn|_]; [by destruct Hn|].
  rewrite Hnop. erewrite bind_ok by reflexivity.
  unfold addedRow.
  destruct (Attachment m) as [a|]; unfold dbExec, insertMessageQuery; rewrite Hq;
    cbv zeta; simpl; unfold boolToInt, stringsJoin;
    destruct (decide (Time m ≤ clock w));
    rewrite ?bool_decide_eq_true_2, ?bool_decide_eq_false_2 by done; reflexivity.
Qed.

Lemma quiet_le (n k : nat) (fs : list bool) : (k ≤ n)%nat → quiet n fs → quiet k fs.
Proof.
  unfold quiet. intros Hle H. rewrite <- (Nat.min_l k n) by lia.
  rewrite <- take_take. by apply Forall_take.
Qed.

Lemma quiet_drop (n k : nat) (fs : list bool) : quiet (n + k) fs → quiet k (drop n fs).
Proof.
  unfold quiet. intros H. rewrite take_drop_commute.
  apply Forall_drop. exact H.
Qed.

Lemma tail_drop {A} (l : list A) : tail l = drop 1 l.
Proof. by destruct l. Qed.

(** The rows behind the result of [Messages], for any marker and flag. *)
Lemma Messages_rows (c : messageCache) (topic : string) (since : sinceMarker)
    (scheduled : bool) (w : world Store) :
  quiet 2 (faults w) →
  ∃ l : list MessageRow.t,
    fst (Messages c topic since scheduled w) = Ok (scanMessage <$> l) ∧
    store (snd (Messages c topic since scheduled w)) = store w ∧
    Sorted byTimeID l ∧
    ∀ r, r ∈ l →
         r ∈ rows (store w) ∧ MessageRow.topic r = topic ∧
         (scheduled = false → MessageRow.published r = 1).
Proof.
  intros Hq. apply quiet_next in Hq as [Hq1 Hq]. apply quiet_next in Hq as [Hq2 _].
  assert (Htime : ∀ since' (w' : world Store),
             nextFault (faults w') = false → store w' = store w →
             ∃ l, fst (messagesSinceTime c topic since' scheduled w') = Ok (scanMessage <$> l) ∧
                  store (snd (messagesSinceTime c topic since' scheduled w')) = store w ∧
                  Sorted byTimeID l ∧
                  ∀ r, r ∈ l → r ∈ rows (store w) ∧ MessageRow.topic r = topic ∧
                               (scheduled = false → MessageRow.published r = 1)).
  { intros since' w' Hq' Hst. rewrite messagesSinceTime_ok by exact Hq'.
    eexists. split; [reflexivity|]. split; [exact Hst|].
    split; [apply orderByTimeID_sorted|].
    intros r. rewrite orderByTimeID_perm, list_elem_of_filter, Hst. tauto. }
  unfold Messages.
  destruct since as [| |t|id]; simpl.
  - exists []. split; [done|]. split; [done|]. split; [apply Sorted_nil|].
    intros r Hr. by apply elem_of_nil in Hr.
  - by apply Htime.
  - by apply Htime.
  - unfold messagesSinceID.
    erewrite bind_dbQuery_ok by (first [exact Hq1 | reflexivity]).
    simpl.
    destruct (MessageRow.id <$> filter _ (rows (store w))) as [|p ps].
    + by apply Htime.
    + destruct scheduled;
        (erewrite bind_dbQuery_ok by (first [exact Hq2 | reflexivity]));
        unfold lift; rewrite readMessages_allRows; simpl;
        (eexists; split; [reflexivity|]; split; [reflexivity|];
         split; [apply orderByTimeID_sorted|];
         intros r; rewrite orderByTimeID_perm, list_elem_of_filter;
         intuition congruence).
Qed.

Lemma scanMessage_Time (l : list MessageRow.t) :
  Time <$> (scanMessage <$> l) = MessageRow.time <$> l.
Proof. rewrite <- list_fmap_compose. by apply list_fmap_ext. Qed.

(** X1: whatever the marker and the flag, [Messages] returns its messages
    in the order of their time: the times are never decreasing along the
    result. *)
Theorem Messages_in_time_order (c : messageCache) (topic : string) (since : sinceMarker)
    (scheduled : bool) (w : world Store) :
  quiet 2 (faults w) →
  ∃ messages,
    fst (Messages c topic since scheduled w) = Ok messages ∧
    Sorted Z.le (Time <$> messages).
Proof.
  intros Hq. destruct (Messages_rows c topic since scheduled w Hq) as (l & Hl & _ & Hs & _).
  eexists. split; [exact Hl|]. rewrite scanMessage_Time.
  eapply Sorted_fmap; [|exact Hs]. unfold byTimeID. intros r1 r2. lia.
Qed.

Lemma Messages_in_time_order_witness :
  let r1 := MessageRow.mk 1 "m1" 500 500 "alerts" "late" "" 0 "" "" "" "" 0 0 "" "" "" 1 in
  let r2 := MessageRow.mk 2 "m2" 90 90 "alerts" "early" "" 0 "" "" "" "" 0 0 "" "" "" 1 in
  let w := World (mkStore [r1; r2] 2) [] 1000 in
  quiet 2 (faults w) ∧
  ∃ messages,
    fst (Messages (mkCache false) "alerts" sinceAllMessages false w) = Ok messages ∧
    Sorted Z.le (Time <$> messages).
Proof.
  intros r1 r2 w.
  assert (H : quiet 2 (faults w)) by apply quiet_nil.
  split; [exact H|].
  exact (Messages_in_time_order (mkCache false) "alerts" sinceAllMessages false w H).
Defined.

(** X2: with the scheduled flag off, [Messages] returns messages of
    published rows of the topic only, whatever the marker: a time, all
    messages, an id that is found or an id that is not. *)
Theorem Messages_hides_unpublished (c : messageCache) (topic : string)
    (since : sinceMarker) (w : world Store) :
  quiet 2 (faults w) →
  ∃ l : list MessageRow.t,
    fst (Messages c topic since false w) = Ok (scanMessage <$> l) ∧
    Forall (λ r, r ∈ rows (store w) ∧ MessageRow.topic r = topic ∧ MessageRow.published r = 1) l.
Proof.
  intros Hq. destruct (Messages_rows c topic since false w Hq) as (l & Hl & _ & _ & Hin).
  exists l. split; [exact Hl|]. apply Forall_forall. intros r Hr.
  destruct (Hin r Hr) as (? & ? & ?). auto.
Qed.

Lemma Messages_hides_unpublished_witness :
  let r1 := MessageRow.mk 1 "m1" 500 500 "alerts" "scheduled" "" 0 "" "" "" "" 0 0 "" "" "" 0 in
  let r2 := MessageRow.mk 2 "m2" 90 90 "alerts" "sent" "" 0 "" "" "" "" 0 0 "" "" "" 1 in
  let w := World (mkStore [r1; r2] 2) [] 100 in
  quiet 2 (faults w) ∧
  ∃ l, fst (Messages (mkCache false) "alerts" (sinceID "m2") false w)
         = Ok (scanMessage <$> l) ∧ (r1 ∉ l).
Proof.
  intros r1 r2 w.
  assert (H : quiet 2 (faults w)) by apply quiet_nil.
  split; [exact H|].
  destruct (Messages_hides_unpublished (mkCache false) "alerts" (sinceID "m2") w H)
    as (l & Hl & Hall).
  exists l. split; [exact Hl|]. intros Hin.
  rewrite Forall_forall in Hall. destruct (Hall r1 Hin) as (_ & _ & Hp). discriminate Hp.
Defined.

(** X3: with a time marker [t], [Messages] returns the messages of exactly
    the rows of the topic whose time is [t] or later, the unpublished ones
    among them only when the scheduled flag is on; a row whose time is
    exactly [t] is included. *)
Theorem Messages_since_time (c : messageCache) (topic : string) (t : Z)
    (scheduled : bool) (w : world Store) :
  quiet 1 (faults w) →
  ∃ l : list MessageRow.t,
    fst (Messages c topic (sinceTime t) scheduled w) = Ok (scanMessage <$> l) ∧
    l ≡ₚ filter (λ r, MessageRow.topic r = topic ∧ t ≤ MessageRow.time r ∧
                      (scheduled = false → MessageRow.published r = 1))
           (rows (store w)) ∧
    (∀ r, r ∈ rows (store w) → MessageRow.topic r = topic → MessageRow.time r = t →
          MessageRow.published r = 1 → r ∈ l) ∧
    (∀ r, MessageRow.time r < t → r ∉ l).
Proof.
  intros Hq. apply quiet_next in Hq as [Hq _].
  unfold Messages. simpl. rewrite messagesSinceTime_ok by exact Hq. simpl.
  eexists. split; [reflexivity|]. split; [apply orderByTimeID_perm|].
  split; intros r; rewrite orderByTimeID_perm, list_elem_of_filter.
  - intros. repeat split; auto. lia.
  - intros Hlt [(_ & Hge & _) _]. lia.
Qed.

Lemma Messages_since_time_witness :
  let r1 := MessageRow.mk 1 "m1" 89 89 "alerts" "before" "" 0 "" "" "" "" 0 0 "" "" "" 1 in
  let r2 := MessageRow.mk 2 "m2" 90 90 "alerts" "at" "" 0 "" "" "" "" 0 0 "" "" "" 1 in
  let w := World (mkStore [r1; r2] 2) [] 100 in
  quiet 1 (faults w) ∧
  ∃ l, fst (Messages (mkCache false) "alerts" (sinceTime 90) false w)
         = Ok (scanMessage <$> l) ∧ r2 ∈ l ∧ (r1 ∉ l).
Proof.
  intros r1 r2 w.
  assert (H : quiet 1 (faults w)) by apply quiet_nil.
  split; [exact H|].
  destruct (Messages_since_time (mkCache false) "alerts" 90 false w H)
    as (l & Hl & _ & Hat & Hbefore).
  exists l. split; [exact Hl|]. split.
  - apply Hat; try reflexivity. apply list_elem_of_further, list_elem_of_here.
  - apply Hbefore. simpl. lia.
Defined.

(** X4: when the ID cursor resolves to row position [p] and the scheduled
    flag is off, [Messages] returns the messages of exactly the published
    rows of the topic whose position is above [p]; the row of the cursor
    itself is not among them. *)
Theorem ID_cursor_without_scheduled (c : messageCache) (topic id : string) (p : Z)
    (w : world Store) :
  quiet 2 (faults w) →
  resolvesTo (store w) topic id p →
  ∃ l : list MessageRow.t,
    fst (Messages c topic (sinceID id) false w) = Ok (scanMessage <$> l) ∧
    l ≡ₚ filter (λ r, MessageRow.topic r = topic ∧ p < MessageRow.id r ∧ MessageRow.published r = 1)
           (rows (store w)) ∧
    Sorted byTimeID l ∧
    (∀ r, MessageRow.id r ≤ p → r ∉ l).
Proof.
  intros Hq (rs & Hrs & Hp).
  apply quiet_next in Hq as [Hq1 Hq]. apply quiet_next in Hq as [Hq2 _].
  unfold Messages. simpl. unfold messagesSinceID.
  erewrite bind_dbQuery_ok by (first [exact Hq1 | exact Hrs]).
  destruct (items rs) as [|rowID ids] eqn:Hitems; [discriminate|].
  simpl in Hp. injection Hp as ->.
  erewrite bind_dbQuery_ok by (first [exact Hq2 | reflexivity]).
  unfold lift. rewrite readMessages_allRows. cbn [fst].
  eexists. split; [reflexivity|].
  split; [apply orderByTimeID_perm|]. split; [apply orderByTimeID_sorted|].
  intros r Hle. rewrite orderByTimeID_perm, list_elem_of_filter.
  intros [(_ & Hlt & _) _]. lia.
Qed.

Lemma ID_cursor_without_scheduled_witness :
  let r1 := MessageRow.mk 1 "m1" 90 90 "alerts" "seen" "" 0 "" "" "" "" 0 0 "" "" "" 1 in
  let r2 := MessageRow.mk 2 "m2" 95 95 "alerts" "cursor" "" 0 "" "" "" "" 0 0 "" "" "" 1 in
  let r3 := MessageRow.mk 3 "m3" 99 99 "alerts" "new" "" 0 "" "" "" "" 0 0 "" "" "" 1 in
  let w := World (mkStore [r1; r2; r3] 3) [] 100 in
  quiet 2 (faults w) ∧ resolvesTo (store w) "alerts" "m2" 2 ∧
  ∃ l, fst (Messages (mkCache false) "alerts" (sinceID "m2") false w)
         = Ok (scanMessage <$> l) ∧ (r2 ∉ l) ∧ (r1 ∉ l).
Proof.
  intros r1 r2 r3 w.
  assert (H1 : quiet 2 (faults w)) by apply quiet_nil.
  assert (H2 : resolvesTo (store w) "alerts" "m2" 2) by (eexists; split; reflexivity).
  split; [exact H1|]. split; [exact H2|].
  destruct (ID_cursor_without_scheduled (mkCache false) "alerts" "m2" 2 w H1 H2)
    as (l & Hl & _ & _ & Hout).
  exists l. split; [exact Hl|]. split; apply Hout; simpl; lia.
Defined.

(** X5: a message added with a time later than the clock, on a cache that
    is not a no-op, is stored unpublished; right after the insertion
    [Messages] with [sinceAllMessages] leaves its row out when the scheduled
    flag is off and includes it when the flag is on. *)
Theorem scheduled_message_visibility (c : messageCache) (m : message) (w : world Store) :
  Event m = messageEvent →
  nop c = false →
  quiet 2 (faults w) →
  clock w < Time m →
  0 ≤ Time m →
  let w1 := snd (AddMessage c m w) in
  let r := addedRow m (clock w) (nextRowID (store w)) in
  rows (store w1) = (rows (store w) ++ [r])%list ∧
  MessageRow.published r = 0 ∧
  ∃ hidden shown : list MessageRow.t,
    fst (Messages c (Topic m) sinceAllMessages false w1) = Ok (scanMessage <$> hidden) ∧
    (r ∉ hidden) ∧
    fst (Messages c (Topic m) sinceAllMessages true w1) = Ok (scanMessage <$> shown) ∧
    r ∈ shown.
Proof.
  intros He Hnop Hq Hlate Hpos w1 r.
  apply quiet_next in Hq as [Hq1 Hq]. apply quiet_next in Hq as [Hq2 _].
  assert (Hw1 : w1 = World (mkStore (rows (store w) ++ [r]) (nextRowID (store w)))
                       (tail (faults w)) (clock w)).
  { unfold w1. by rewrite AddMessage_ok. }
  assert (Hpub : MessageRow.published r = 0).
  { unfold r, addedRow. simpl. rewrite decide_False by lia. done. }
  split; [by rewrite Hw1|]. split; [exact Hpub|].
  unfold Messages. simpl. rewrite !messagesSinceTime_ok by (by rewrite Hw1).
  eexists _, _. split; [reflexivity|]. split; [|split; [reflexivity|]].
  - rewrite orderByTimeID_perm, list_elem_of_filter. intros [(_ & _ & Hp) _].
    specialize (Hp eq_refl). lia.
  - rewrite orderByTimeID_perm, list_elem_of_filter. rewrite Hw1. simpl.
    split; [|apply elem_of_app; right; apply list_elem_of_here].
    split; [done|]. split; [exact Hpos | discriminate].
Qed.

Lemma scheduled_message_visibility_witness :
  let m := mkMessage "m1" 150 150 messageEvent "alerts" "later" "" 3 [] "" None "" in
  let w := World emptyStore [] 100 in
  Event m = messageEvent ∧ nop (mkCache false) = false ∧ quiet 2 (faults w) ∧
  clock w < Time m ∧ 0 ≤ Time m ∧
  ∃ hidden shown : list MessageRow.t,
    fst (Messages (mkCache false) "alerts" sinceAllMessages false
           (snd (AddMessage (mkCache false) m w))) = Ok (scanMessage <$> hidden) ∧
    fst (Messages (mkCache false) "alerts" sinceAllMessages true
           (snd (AddMessage (mkCache false) m w))) = Ok (scanMessage <$> shown) ∧
    (addedRow m 100 1 ∉ hidden) ∧ addedRow m 100 1 ∈ shown.
Proof.
  intros m w.
  assert (H1 : Event m = messageEvent) by reflexivity.
  assert (H2 : nop (mkCache false) = false) by reflexivity.
  assert (H3 : quiet 2 (faults w)) by apply quiet_nil.
  assert (H4 : clock w < Time m) by (simpl; lia).
  assert (H5 : 0 ≤ Time m) by (simpl; lia).
  split; [exact H1|]. split; [exact H2|]. split; [exact H3|]. split; [exact H4|].
  split; [exact H5|].
  destruct (scheduled_message_visibility (mkCache false) m w H1 H2 H3 H4 H5)
    as (_ & _ & hidden & shown & Hh & Hout & Hs & Hin).
  exists hidden, shown. split; [exact Hh|]. split; [exact Hs|]. split; [exact Hout | exact Hin].
Defined.

(** *** Tags through the comma-joined cell *)

Lemma stringsSplit_nonempty (s : string) (sep : Ascii.ascii) : stringsSplit s sep ≠ [].
Proof.
  induction s as [|ch s IH]; simpl; [done|].
  destruct (decide (ch = sep)); [done|].
  destruct (stringsSplit s sep); done.
Qed.

Lemma stringsSplit_length (s : string) :
  length (stringsSplit s comma) = S (countByte comma s).
Proof.
  induction s as [|ch s IH]; simpl; [done|].
  destruct (decide (ch = comma)); simpl; [by rewrite IH|].
  pose proof (stringsSplit_nonempty s comma).
  destruct (stringsSplit s comma); simpl in *; congruence.
Qed.

Lemma countByte_app (b : Ascii.ascii) (s1 s2 : string) :
  countByte b (s1 +:+ s2) = (countByte b s1 + countByte b s2)%nat.
Proof. induction s1 as [|ch s1 IH]; simpl; [done|]. rewrite IH. lia. Qed.

Lemma stringsSplit_one (t : string) :
  countByte comma t = 0%nat → stringsSplit t comma = [t].
Proof.
  induction t as [|ch t IH]; simpl; [done|].
  destruct (decide (ch = comma)); [done|]. simpl. intros H. by rewrite IH.
Qed.

Lemma stringsSplit_piece (t s : string) :
  countByte comma t = 0%nat →
  stringsSplit (t +:+ String comma s) comma = t :: stringsSplit s comma.
Proof.
  induction t as [|ch t IH]; simpl.
  - done.
  - destruct (decide (ch = comma)); [done|]. simpl. intros H. by rewrite IH.
Qed.

Lemma concat_cons2 (t t' : string) (tags : list string) :
  String.concat "," (t :: t' :: tags) = t +:+ String comma (String.concat "," (t' :: tags)).
Proof. reflexivity. Qed.

Lemma stringsSplit_join (tags : list string) :
  tags ≠ [] →
  Forall (λ t, countByte comma t = 0%nat) tags →
  stringsSplit (String.concat "," tags) comma = tags.
Proof.
  intros Hne Hall. induction Hall as [|t tags Ht Hall IH]; [done|].
  destruct tags as [|t' tags]; [by apply stringsSplit_one|].
  rewrite concat_cons2, stringsSplit_piece by done. f_equal. by apply IH.
Qed.

Lemma countByte_join (tags : list string) :
  tags ≠ [] →
  countByte comma (String.concat "," tags)
    = (length tags - 1 + foldr (λ t n, countByte comma t + n) 0 tags)%nat.
Proof.
  intros Hne. induction tags as [|t tags IH]; [done|].
  destruct tags as [|t' tags]; [simpl; lia|].
  rewrite concat_cons2, countByte_app.
  change (countByte comma (String comma (String.concat "," (t' :: tags))))
    with (S (countByte comma (String.concat "," (t' :: tags)))).
  rewrite IH by done. simpl. lia.
Qed.

Lemma join_empty (tags : list string) :
  String.concat "," tags = "" ↔ tags = [] ∨ tags = [""].
Proof.
  split.
  - destruct tags as [|t [|t' tags]]; [auto | simpl; intros ->; auto |].
    rewrite concat_cons2. destruct t; discriminate.
  - intros [-> | ->]; reflexivity.
Qed.

(** X6: tags come back from the store as they were written exactly when no
    tag contains a comma and the tags are not the one empty tag: a comma
    inside a tag splits it on reading, and a single empty tag is read as no
    tags. *)
Theorem tags_round_trip (r : MessageRow.t) (tags : list string) :
  MessageRow.tags r = stringsJoin tags "," →
  (Tags (scanMessage r) = tags ↔
   Forall (λ t, hasByte comma t = false) tags ∧ tags ≠ [""]).
Proof.
  intros Hr. unfold scanMessage. simpl. rewrite Hr. unfold stringsJoin.
  assert (Hcount : ∀ t, hasByte comma t = false ↔ countByte comma t = 0%nat).
  { induction t as [|ch t IH]; simpl; [done|].
    destruct (decide (ch = comma)); [split; [discriminate | lia]|]. by rewrite IH. }
  destruct (decide (String.concat "," tags ≠ "")) as [Hjoin|Hjoin].
  - assert (Hne : tags ≠ []) by (intros ->; by apply Hjoin).
    split.
    + intros Hsplit. split; [|intros ->; by apply Hjoin].
      pose proof (stringsSplit_length (String.concat "," tags)) as Hlen.
      rewrite Hsplit, countByte_join in Hlen by done.
      assert (Hzero : foldr (λ t n, (countByte comma t + n)%nat) 0%nat tags = 0%nat).
      { destruct tags; [done|]. simpl in *. lia. }
      clear -Hzero Hcount. induction tags as [|t tags IH]; [constructor|].
      simpl in Hzero. constructor; [apply Hcount; lia | apply IH; lia].
    + intros [Hall _]. apply stringsSplit_join; [done|].
      eapply Forall_impl; [exact Hall|]. intros t. apply Hcount.
  - apply dec_stable in Hjoin. apply join_empty in Hjoin as [-> | ->].
    + split; [intros _; split; [constructor | discriminate] | done].
    + split; [discriminate | intros [_ H]; by destruct H].
Qed.

Lemma tags_round_trip_witness :
  let r := MessageRow.mk 1 "m1" 0 0 "alerts" "" "" 0 "warn,disk" "" "" "" 0 0 "" "" "" 1 in
  MessageRow.tags r = stringsJoin ["warn"; "disk"] "," ∧
  Tags (scanMessage r) = ["warn"; "disk"].
Proof.
  intros r.
  assert (H : MessageRow.tags r = stringsJoin ["warn"; "disk"] ",") by reflexivity.
  split; [exact H|].
  apply (tags_round_trip r ["warn"; "disk"] H).
  split; [repeat constructor | discriminate].
Defined.

(** *** A message through the store *)

(** X7: a message event read back from the row [AddMessage] writes for it
    is the message that was written exactly when its tags come back (no
    comma in a tag, not the one empty tag) and its attachment, if it has
    one, has a name and a URL: an attachment without a name or without a URL
    is read back as no attachment. *)
Theorem message_read_back (m : message) (now rowid : Z) :
  Event m = messageEvent →
  (scanMessage (addedRow m now rowid) = m ↔
   (Forall (λ t, hasByte comma t = false) (Tags m) ∧ Tags m ≠ [""]) ∧
   match Attachment m with
   | Some a => Name a ≠ "" ∧ URL a ≠ ""
   | None => True
   end).
Proof.
  intros He.
  pose proof (tags_round_trip (addedRow m now rowid) (Tags m) eq_refl) as Htags.
  assert (Hatt : Attachment (scanMessage (addedRow m now rowid)) = Attachment m ↔
                 match Attachment m with
                 | Some a => Name a ≠ "" ∧ URL a ≠ ""
                 | None => True
                 end).
  { unfold scanMessage, addedRow. simpl.
    destruct (Attachment m) as [[n ty sz ex url ow]|]; simpl.
    - destruct (decide (n ≠ "" ∧ url ≠ "")) as [Hok|Hno]; [done|].
      split; [discriminate | tauto].
    - done. }
  split.
  - intros Heq. split; [apply Htags | apply Hatt]; by rewrite Heq.
  - intros [Ht Ha]. apply Htags in Ht. apply Hatt in Ha.
    destruct m as [id tm up ev tp msg ti pr tg cl att en]. simpl in *. subst ev.
    unfold scanMessage in *. simpl in *. by rewrite Ht, Ha.
Qed.

Lemma message_read_back_witness :
  let m := mkMessage "m1" 90 95 messageEvent "alerts" "disk full" "warning" 4
             ["warn"; "disk"] "http://h/" (Some (mkAttachment "a.txt" "text/plain" 7 500
                                              "http://h/a.txt" "alice")) "" in
  Event m = messageEvent ∧ scanMessage (addedRow m 100 1) = m.
Proof.
  intros m.
  assert (H : Event m = messageEvent) by reflexivity.
  split; [exact H|].
  apply (message_read_back m 100 1 H).
  split; [split; [repeat constructor | discriminate] | split; discriminate].
Defined.

Lemma Message_ok (c : messageCache) (topic id : string) (w : world Store) :
  nextFault (faults w) = false →
  fst (Cache.Message c topic id w)
    = match filter (λ r, MessageRow.topic r = topic ∧ MessageRow.mid r = id) (rows (store w)) with
      | [] => Err (errorsNew "not found")
      | r :: _ => Ok (scanMessage r)
      end.
Proof.
  intros Hq. unfold Cache.Message.
  erewrite bind_dbQuery_ok by (first [exact Hq | reflexivity]).
  rewrite readMessages_allRows.
  destruct (filter _ (rows (store w))); reflexivity.
Qed.

(** X8: [Message] reports "not found" exactly when no row of the topic
    carries the id; otherwise it returns the message of the first such row,
    published or not. *)
Theorem Message_not_found_iff (c : messageCache) (topic id : string) (w : world Store) :
  quiet 1 (faults w) →
  (fst (Cache.Message c topic id w) = Err (errorsNew "not found") ↔
   unknownID (store w) topic id) ∧
  (∀ r, head (filter (λ r, MessageRow.topic r = topic ∧ MessageRow.mid r = id) (rows (store w))) = Some r →
        fst (Cache.Message c topic id w) = Ok (scanMessage r)).
Proof.
  intros Hq. apply quiet_next in Hq as [Hq _]. rewrite Message_ok by exact Hq.
  unfold unknownID.
  destruct (filter _ (rows (store w))) as [|r0 l] eqn:Hf.
  - split; [|discriminate]. split; [|done]. intros _.
    apply Forall_forall. intros r Hr Hm.
    assert (r ∈ filter (λ r, MessageRow.topic r = topic ∧ MessageRow.mid r = id) (rows (store w)))
      as Hin by (by apply list_elem_of_filter).
    rewrite Hf in Hin. by apply elem_of_nil in Hin.
  - split; [|by intros r [= ->]]. split; [discriminate|].
    intros Hun. rewrite (filter_none _ _ Hun) in Hf. discriminate.
Qed.

Lemma Message_not_found_iff_witness :
  let r1 := MessageRow.mk 1 "m1" 500 500 "alerts" "scheduled" "" 0 "" "" "" "" 0 0 "" "" "" 0 in
  let w := World (mkStore [r1] 1) [] 100 in
  quiet 1 (faults w) ∧
  fst (Cache.Message (mkCache false) "alerts" "m1" w) = Ok (scanMessage r1) ∧
  fst (Cache.Message (mkCache false) "alerts" "m2" w) = Err (errorsNew "not found").
Proof.
  intros r1 w.
  assert (H : quiet 1 (faults w)) by apply quiet_nil.
  split; [exact H|]. split.
  - apply (proj2 (Message_not_found_iff (mkCache false) "alerts" "m1" w H)). reflexivity.
  - apply (proj1 (Message_not_found_iff (mkCache false) "alerts" "m2" w H)).
    repeat constructor. intros [_ ?]. discriminate.
Defined.



(** *** Due messages and the publisher *)

(** X10: [MessagesDue] returns the messages of exactly the rows, of any
    topic, that are not published and whose time is at or before the clock,
    in the order of time and then position; it changes nothing. *)
Theorem MessagesDue_exact (c : messageCache) (w : world Store) :
  quiet 1 (faults w) →
  ∃ l : list MessageRow.t,
    MessagesDue c w
      = (Ok (scanMessage <$> l), World (store w) (tail (faults w)) (clock w)) ∧
    l ≡ₚ filter (isDue (clock w)) (rows (store w)) ∧
    Sorted byTimeID l ∧
    (∀ r, MessageRow.published r = 1 → r ∉ l) ∧
    (∀ r, clock w < MessageRow.time r → r ∉ l).
Proof.
  intros Hq. apply quiet_next in Hq as [Hq _].
  unfold MessagesDue. erewrite bind_ok by reflexivity.
  erewrite bind_dbQuery_ok by (first [exact Hq | reflexivity]).
  unfold lift. rewrite readMessages_allRows.
  eexists. split; [reflexivity|]. split; [apply orderByTimeID_perm|].
  split; [apply orderByTimeID_sorted|].
  split; intros r Hr; rewrite orderByTimeID_perm, list_elem_of_filter;
    intros [[? ?] _]; lia.
Qed.

Lemma MessagesDue_exact_witness :
  let r1 := MessageRow.mk 1 "m1" 90 90 "alerts" "due" "" 0 "" "" "" "" 0 0 "" "" "" 0 in
  let r2 := MessageRow.mk 2 "m2" 500 500 "alerts" "later" "" 0 "" "" "" "" 0 0 "" "" "" 0 in
  let w := World (mkStore [r1; r2] 2) [] 100 in
  quiet 1 (faults w) ∧
  ∃ l, fst (MessagesDue (mkCache false) w) = Ok (scanMessage <$> l) ∧ r1 ∈ l ∧ (r2 ∉ l).
Proof.
  intros r1 r2 w.
  assert (H : quiet 1 (faults w)) by apply quiet_nil.
  split; [exact H|].
  destruct (MessagesDue_exact (mkCache false) w H) as (l & Hl & Hperm & _ & _ & Hlate).
  exists l. rewrite Hl. split; [reflexivity|]. split.
  - rewrite Hperm. apply list_elem_of_filter. split; [split; simpl; [lia | done]|].
    apply list_elem_of_here.
  - apply Hlate. simpl. lia.
Defined.

Lemma MarkPublished_ok (c : messageCache) (m : message) (w : world Store) :
  nextFault (faults w) = false →
  MarkPublished c m w
    = (Ok (), World (mkStore ((λ r, if decide (MessageRow.mid r = ID m) then asPublished r else r)
                              <$> rows (store w)) (seq (store w)))
                (tail (faults w)) (clock w)).
Proof.
  intros Hq. unfold MarkPublished, dbExec, updateMessagePublishedQuery. by rewrite Hq.
Qed.

Lemma asPublished_idemp (r : MessageRow.t) : asPublished (asPublished r) = asPublished r.
Proof. reflexivity. Qed.

Lemma markAllPublished_ok (c : messageCache) (due : list message) (w : world Store) :
  quiet (length due) (faults w) →
  markAllPublished c due w
    = (Ok (), World (mkStore ((λ r, if decide (MessageRow.mid r ∈ ID <$> due)
                                    then asPublished r else r)
                              <$> rows (store w)) (seq (store w)))
                (drop (length due) (faults w)) (clock w)).
Proof.
  revert w. induction due as [|m due IH]; intros w Hq.
  - destruct w as [[rs sq] fs t]. simpl. unfold ret. do 3 f_equal.
    rewrite <- (list_fmap_id rs) at 1. apply list_fmap_ext. intros i r _.
    reflexivity.
  - apply quiet_next in Hq as [Hq1 Hq].
    cbn [markAllPublished]. erewrite bind_ok by (by apply MarkPublished_ok).
    rewrite IH by exact Hq. cbn [store faults clock rows seq length].
    rewrite tail_drop, drop_drop. do 3 f_equal.
    rewrite <- list_fmap_compose. apply list_fmap_ext. intros i r _.
    unfold compose. cbv beta. rewrite fmap_cons.
    destruct (decide (MessageRow.mid r = ID m)) as [Hm|Hm].
    + rewrite (decide_True (P := MessageRow.mid r ∈ ID m :: (ID <$> due)))
        by (rewrite Hm; apply list_elem_of_here).
      change (MessageRow.mid (asPublished r)) with (MessageRow.mid r).
      by destruct (decide (MessageRow.mid r ∈ ID <$> due)).
    + destruct (decide (MessageRow.mid r ∈ ID <$> due)) as [Hin|Hin].
      * by rewrite decide_True by (by apply list_elem_of_further).
      * rewrite decide_False; [done|]. intros [?|?]%elem_of_cons; done.
Qed.

(** X11: when a publisher takes the due messages from [MessagesDue] and
    calls [MarkPublished] for each of them, none of the calls fails and
    nothing is due any more: a second [MessagesDue] at the same clock is
    empty.  No row is added or removed; a row that does not share its
    message id with a due row is left as it was. *)
Theorem publishDue_leaves_nothing_due (c : messageCache) (w : world Store) :
  quiet (2 + length (rows (store w))) (faults w) →
  ∃ w1 : world Store,
    publishDue c w = (Ok (), w1) ∧
    clock w1 = clock w ∧
    fst (MessagesDue c w1) = Ok [] ∧
    length (rows (store w1)) = length (rows (store w)) ∧
    (∀ i r, rows (store w) !! i = Some r →
            (∀ r', r' ∈ rows (store w) → isDue (clock w) r' → MessageRow.mid r' ≠ MessageRow.mid r) →
            rows (store w1) !! i = Some r).
Proof.
  intros Hq.
  assert (Hq1 : quiet 1 (faults w)) by (eapply quiet_le; [|exact Hq]; lia).
  destruct (MessagesDue_exact c w Hq1) as (l & Hdue & Hperm & _ & _ & _).
  assert (Hlen : (length l ≤ length (rows (store w)))%nat).
  { rewrite Hperm. apply length_filter. }
  assert (Hql : quiet (length (scanMessage <$> l)) (faults (World (store w) (tail (faults w)) (clock w)))).
  { rewrite length_fmap. simpl. rewrite tail_drop. apply quiet_drop.
    eapply quiet_le; [|exact Hq]. lia. }
  unfold publishDue. erewrite bind_ok by exact Hdue.
  rewrite markAllPublished_ok by exact Hql.
  eexists. split; [reflexivity|]. cbn [store faults clock rows seq].
  split; [reflexivity|].
  assert (Hids : ∀ r, r ∈ l → MessageRow.mid r ∈ ID <$> (scanMessage <$> l)).
  { intros r Hr. rewrite <- list_fmap_compose. apply list_elem_of_fmap.
    exists r. split; [reflexivity | exact Hr]. }
  split; [|split].
  - assert (Hq2 : nextFault (drop (length (scanMessage <$> l)) (tail (faults w))) = false).
    { rewrite length_fmap, tail_drop, drop_drop.
      assert (quiet 1 (drop (1 + length l) (faults w))) as Hd.
      { apply quiet_drop. eapply quiet_le; [|exact Hq]. lia. }
      by apply quiet_next in Hd as [Hd _]. }
    unfold MessagesDue. erewrite bind_ok by reflexivity.
    erewrite bind_dbQuery_ok by (first [exact Hq2 | reflexivity]).
    unfold lift. rewrite readMessages_allRows. cbn [fst store rows clock].
    rewrite filter_none; [reflexivity|].
    apply Forall_fmap, Forall_forall. intros r Hr. simpl.
    destruct (decide (MessageRow.mid r ∈ ID <$> (scanMessage <$> l))) as [Hin|Hin].
    + intros [_ Hp]. discriminate Hp.
    + intros Hd. apply Hin, Hids. rewrite Hperm. by apply list_elem_of_filter.
  - by rewrite length_fmap.
  - intros i r Hi Hother. rewrite list_lookup_fmap, Hi. simpl.
    rewrite decide_False; [done|].
    rewrite <- list_fmap_compose. intros (r' & Hmid & Hr')%list_elem_of_fmap.
    rewrite Hperm in Hr'. apply list_elem_of_filter in Hr' as [Hd Hr'].
    apply (Hother r' Hr' Hd). simpl in Hmid. by rewrite Hmid.
Qed.

Lemma publishDue_leaves_nothing_due_witness :
  let r1 := MessageRow.mk 1 "m1" 90 90 "alerts" "due" "" 0 "" "" "" "" 0 0 "" "" "" 0 in
  let r2 := MessageRow.mk 2 "m2" 500 500 "alerts" "later" "" 0 "" "" "" "" 0 0 "" "" "" 0 in
  let w := World (mkStore [r1; r2] 2) [] 100 in
  quiet (2 + length (rows (store w))) (faults w) ∧
  ∃ w1, publishDue (mkCache false) w = (Ok (), w1) ∧
        fst (MessagesDue (mkCache false) w1) = Ok [] ∧
        rows (store w1) !! 1%nat = Some r2.
Proof.
  intros r1 r2 w.
  assert (H : quiet (2 + length (rows (store w))) (faults w)) by apply quiet_nil.
  split; [exact H|].
  destruct (publishDue_leaves_nothing_due (mkCache false) w H)
    as (w1 & Hrun & _ & Hdue & _ & Hkeep).
  exists w1. split; [exact Hrun|]. split; [exact Hdue|].
  apply Hkeep; [reflexivity|].
  intros r' Hr' [Ht Hp].
  apply elem_of_cons in Hr' as [->|Hr']; [discriminate|].
  apply elem_of_cons in Hr' as [->|Hr']; [simpl in Ht; lia|].
  by apply elem_of_nil in Hr'.
Defined.

(** *** Row positions *)

Lemma AddMessage_store (c : messageCache) (m : message) (w : world Store) :
  store (snd (AddMessage c m w)) = store w ∨
  store (snd (AddMessage c m w))
    = mkStore (rows (store w) ++ [addedRow m (clock w) (nextRowID (store w))])
        (nextRowID (store w)).
Proof.
  destruct (decide (Event m = messageEvent)) as [He|He];
    [|left; unfold AddMessage; by rewrite decide_True].
  destruct (nop c) eqn:Hnop;
    [left; unfold AddMessage; rewrite decide_False by (by intros ?); by rewrite Hnop|].
  destruct (nextFault (faults w)) eqn:Hq; [|right; by rewrite AddMessage_ok].
  left. unfold AddMessage. rewrite decide_False by (by intros ?). rewrite Hnop.
  erewrite bind_ok by reflexivity.
  destruct (Attachment m); unfold dbExec; by rewrite Hq.
Qed.

Lemma UpdateMessage_store (c : messageCache) (m : message) (w : world Store) :
  ∃ f : MessageRow.t → MessageRow.t,
    (∀ r, MessageRow.id (f r) = MessageRow.id r ∧ MessageRow.published (f r) = MessageRow.published r) ∧
    store (snd (UpdateMessage c m w)) = mkStore (f <$> rows (store w)) (seq (store w)).
Proof.
  assert (Hid : store w = mkStore (id <$> rows (store w)) (seq (store w))).
  { rewrite list_fmap_id. by destruct (store w). }
  unfold UpdateMessage.
  destruct (decide (Event m ≠ messageEvent)); [by exists id|].
  destruct (nop c); [by exists id|].
  unfold dbExec, updateMessageQuery.
  destruct (nextFault (faults w)); [by exists id|].
  eexists. split; [|reflexivity]. intros r. simpl. by destruct (decide _).
Qed.

Lemma MarkPublished_store (c : messageCache) (m : message) (w : world Store) :
  ∃ f : MessageRow.t → MessageRow.t,
    (∀ r, MessageRow.id (f r) = MessageRow.id r) ∧
    store (snd (MarkPublished c m w)) = mkStore (f <$> rows (store w)) (seq (store w)).
Proof.
  unfold MarkPublished, dbExec, updateMessagePublishedQuery.
  destruct (nextFault (faults w)).
  - exists id. split; [done|]. rewrite list_fmap_id. by destruct (store w).
  - eexists. split; [|reflexivity]. intros r. simpl. by destruct (decide _).
Qed.

Lemma Prune_store (c : messageCache) (olderThan : Z) (w : world Store) :
  store (snd (Prune c olderThan w)) = store w ∨
  store (snd (Prune c olderThan w))
    = mkStore (filter (λ r, ¬ (MessageRow.time r < olderThan ∧ MessageRow.published r = 1))
                 (rows (store w))) (seq (store w)).
Proof.
  unfold Prune, dbExec, pruneMessagesQuery.
  destruct (nextFault (faults w)); [by left | by right].
Qed.

Lemma wellFormed_fmap (f : MessageRow.t → MessageRow.t) (s : Store) :
  (∀ r, MessageRow.id (f r) = MessageRow.id r) →
  wellFormed s → wellFormed (mkStore (f <$> rows s) (seq s)).
Proof.
  intros Hf [Hs Hb]. split; simpl.
  - rewrite <- list_fmap_compose.
    replace (MessageRow.id ∘ f <$> rows s) with (MessageRow.id <$> rows s); [done|].
    apply list_fmap_ext. intros i r _. simpl. by rewrite Hf.
  - apply Forall_fmap. eapply Forall_impl; [exact Hb|]. intros r Hr. simpl. by rewrite Hf.
Qed.

Lemma wellFormed_filter (P : MessageRow.t → Prop) `{!∀ r, Decision (P r)} (s : Store) :
  wellFormed s → wellFormed (mkStore (filter P (rows s)) (seq s)).
Proof.
  intros [Hs Hb]. split; simpl.
  - clear Hb. induction (rows s) as [|r l IH]; [done|].
    rewrite fmap_cons in Hs. apply StronglySorted_cons in Hs as [Hr Hs].
    rewrite filter_cons. destruct (decide (P r)); [|by apply IH].
    rewrite fmap_cons. apply StronglySorted_cons. split; [|by apply IH].
    rewrite Forall_fmap in Hr. apply Forall_fmap, Forall_forall.
    intros r' [_ Hr']%list_elem_of_filter. rewrite Forall_forall in Hr. by apply Hr.
  - apply Forall_forall. intros r [_ Hr]%list_elem_of_filter.
    rewrite Forall_forall in Hb. by apply Hb.
Qed.

Lemma wellFormed_append (s : Store) (r : MessageRow.t) :
  MessageRow.id r = nextRowID s →
  wellFormed s → wellFormed (mkStore (rows s ++ [r]) (nextRowID s)).
Proof.
  intros Hr [Hs Hb]. pose proof (nextRowID_fresh s) as Hfresh. split; simpl.
  - rewrite fmap_app. apply StronglySorted_app. split; [|split].
    + intros x1 x2 (r1 & -> & Hr1)%list_elem_of_fmap Hx2.
      apply list_elem_of_singleton in Hx2 as ->. rewrite Hr.
      rewrite Forall_forall in Hfresh. by apply Hfresh.
    + exact Hs.
    + repeat constructor.
  - apply Forall_app. split.
    + eapply Forall_impl; [exact Hfresh|]. intros r' Hr'. simpl in Hr'. lia.
    + constructor; [lia | constructor].
Qed.

Lemma runWrite_wellFormed (c : messageCache) (op : write) (w : world Store) :
  wellFormed (store w) →
  wellFormed (store (snd (runWrite c op w))) ∧
  seq (store w) ≤ seq (store (snd (runWrite c op w))).
Proof.
  intros Hw. destruct op as [m|m|m|t]; simpl.
  - destruct (AddMessage_store c m w) as [-> | ->]; [split; [done | lia]|].
    split; [by apply wellFormed_append|]. simpl.
    pose proof (nextRowID_above_seq (store w)). lia.
  - destruct (UpdateMessage_store c m w) as (f & Hf & ->).
    split; [apply wellFormed_fmap; [apply Hf | done] | simpl; lia].
  - destruct (MarkPublished_store c m w) as (f & Hf & ->).
    split; [by apply wellFormed_fmap | simpl; lia].
  - destruct (Prune_store c t w) as [-> | ->]; [split; [done | lia]|].
    split; [by apply wellFormed_filter | simpl; lia].
Qed.

(** X12: row positions are never reused.  Starting from a table whose rows
    are in the order of their ids, without a repeated id and with no id
    above the counter, any sequence of [AddMessage], [UpdateMessage],
    [MarkPublished] and [Prune] calls, failing or not, leaves such a table,
    and the counter never goes down: the id the next added row gets is above
    the id of every row in the table and above the counter the sequence
    started from, hence above the ids of rows pruned on the way. *)
Theorem row_positions_never_reused (c : messageCache) (ops : list write) (w : world Store) :
  wellFormed (store w) →
  wellFormed (store (runWrites c ops w)) ∧
  seq (store w) ≤ seq (store (runWrites c ops w)) ∧
  NoDup (MessageRow.id <$> rows (store (runWrites c ops w))) ∧
  ∀ m, Forall (λ r, MessageRow.id r < MessageRow.id (addedRow m (clock (runWrites c ops w))
                                         (nextRowID (store (runWrites c ops w)))))
              (rows (store (runWrites c ops w))) ∧
       seq (store w) < MessageRow.id (addedRow m (clock (runWrites c ops w))
                                 (nextRowID (store (runWrites c ops w)))).
Proof.
  intros Hw.
  assert (H : wellFormed (store (runWrites c ops w)) ∧
              seq (store w) ≤ seq (store (runWrites c ops w))).
  { revert w Hw. unfold runWrites. induction ops as [|op ops IH]; intros w Hw; simpl.
    - split; [done | lia].
    - destruct (runWrite_wellFormed c op w Hw) as [Hw1 Hs1].
      destruct (IH _ Hw1) as [Hw2 Hs2]. split; [done | lia]. }
  destruct H as [Hwf Hseq]. split; [exact Hwf|]. split; [exact Hseq|]. split.
  - destruct Hwf as [Hs _]. clear -Hs.
    induction (MessageRow.id <$> rows (store (runWrites c ops w))) as [|x l IH]; [constructor|].
    apply StronglySorted_cons in Hs as [Hx Hs]. constructor; [|by apply IH].
    intros Hin. rewrite Forall_forall in Hx. specialize (Hx x Hin). lia.
  - intros m. simpl. split; [apply nextRowID_fresh|].
    pose proof (nextRowID_above_seq (store (runWrites c ops w))). lia.
Qed.

Lemma row_positions_never_reused_witness :
  let m := mkMessage "m1" 90 90 messageEvent "alerts" "a" "" 3 [] "" None "" in
  let ops := [callAddMessage m; callPrune 1000; callAddMessage m] in
  let w := World emptyStore [] 100 in
  wellFormed (store w) ∧
  (MessageRow.id <$> rows (store (runWrites (mkCache false) ops w))) = [2] ∧
  wellFormed (store (runWrites (mkCache false) ops w)).
Proof.
  intros m ops w.
  assert (H : wellFormed (store w)) by (split; constructor).
  split; [exact H|]. split; [reflexivity|].
  exact (proj1 (row_positions_never_reused (mkCache false) ops w H)).
Defined.

(** X13: a no-op cache never reaches the database in [AddMessage] and
    [UpdateMessage]: whatever the messages and however many the calls, the
    database, the pending engine failures included, is as it was, so on an
    empty table [Messages] returns no message for any topic, marker and
    flag. *)
Theorem nop_cache_stays_empty (c : messageCache) (ops : list write) (w : world Store)
    (topic : string) (since : sinceMarker) (scheduled : bool) :
  nop c = true →
  Forall isAddOrUpdate ops →
  rows (store w) = [] →
  quiet 2 (faults w) →
  runWrites c ops w = w ∧
  fst (Messages c topic since scheduled (runWrites c ops w)) = Ok [].
Proof.
  intros Hnop Hops Hempty Hq.
  assert (Hsame : runWrites c ops w = w).
  { unfold runWrites. induction Hops as [|op ops Hop _ IH]; [done|]. simpl.
    replace (snd (runWrite c op w)) with w; [exact IH|].
    destruct op as [m|m|m|t]; try done; simpl.
    - unfold AddMessage. destruct (decide _); [done|]. by rewrite Hnop.
    - unfold UpdateMessage. destruct (decide _); [done|]. by rewrite Hnop. }
  split; [exact Hsame|]. rewrite Hsame.
  destruct (Messages_rows c topic since scheduled w Hq) as (l & -> & _ & _ & Hin).
  destruct l as [|r l]; [done|].
  destruct (Hin r (list_elem_of_here _ _)) as [Hr _].
  rewrite Hempty in Hr. by apply elem_of_nil in Hr.
Qed.

Lemma nop_cache_stays_empty_witness :
  let m := mkMessage "m1" 90 90 messageEvent "alerts" "a" "" 3 [] "" None "" in
  let ops := [callAddMessage m; callUpdateMessage m] in
  let w := World emptyStore [] 100 in
  nop (mkCache true) = true ∧ Forall isAddOrUpdate ops ∧ rows (store w) = [] ∧
  quiet 2 (faults w) ∧
  fst (Messages (mkCache true) "alerts" sinceAllMessages true
         (runWrites (mkCache true) ops w)) = Ok [].
Proof.
  intros m ops w.
  assert (H1 : nop (mkCache true) = true) by reflexivity.
  assert (H2 : Forall isAddOrUpdate ops) by (repeat constructor).
  assert (H3 : rows (store w) = []) by reflexivity.
  assert (H4 : quiet 2 (faults w)) by apply quiet_nil.
  split; [exact H1|]. split; [exact H2|]. split; [exact H3|]. split; [exact H4|].
  exact (proj2 (nop_cache_stays_empty (mkCache true) ops w "alerts" sinceAllMessages true
                  H1 H2 H3 H4)).
Defined.

(** *** Counting, topics and attachments *)

Lemma MessageCount_ok (c : messageCache) (topic : string) (w : world Store) :
  nextFault (faults w) = false →
  fst (MessageCount c topic w)
    = Ok (Z.of_nat (length (filter (λ r, MessageRow.topic r = topic) (rows (store w))))).
Proof.
  intros Hq. unfold MessageCount.
  by erewrite bind_dbQuery_ok by (first [exact Hq | reflexivity]).
Qed.

(** X14: [MessageCount] counts the rows of the topic, published or not, and
    a message added to a cache that is not a no-op raises the count of its
    topic by one, also when it is scheduled, and the count of no other
    topic. *)
Theorem AddMessage_raises_count (c : messageCache) (m : message) (topic : string)
    (w : world Store) :
  Event m = messageEvent →
  nop c = false →
  quiet 2 (faults w) →
  ∃ n : Z,
    n = Z.of_nat (length (filter (λ r, MessageRow.topic r = topic) (rows (store w)))) ∧
    fst (MessageCount c topic w) = Ok n ∧
    fst (MessageCount c topic (snd (AddMessage c m w)))
      = Ok (if decide (Topic m = topic) then n + 1 else n).
Proof.
  intros He Hnop Hq.
  apply quiet_next in Hq as [Hq1 Hq]. apply quiet_next in Hq as [Hq2 _].
  eexists. split; [reflexivity|]. split; [by rewrite MessageCount_ok|].
  rewrite AddMessage_ok by done. rewrite MessageCount_ok by exact Hq2. simpl.
  rewrite filter_app, length_app, filter_cons, filter_nil. simpl.
  destruct (decide (Topic m = topic)); simpl; f_equal; lia.
Qed.

Lemma AddMessage_raises_count_witness :
  let m := mkMessage "m1" 500 500 messageEvent "alerts" "later" "" 3 [] "" None "" in
  let w := World emptyStore [] 100 in
  Event m = messageEvent ∧ nop (mkCache false) = false ∧ quiet 2 (faults w) ∧
  fst (MessageCount (mkCache false) "alerts" (snd (AddMessage (mkCache false) m w))) = Ok 1 ∧
  fst (MessageCount (mkCache false) "other" (snd (AddMessage (mkCache false) m w))) = Ok 0.
Proof.
  intros m w.
  assert (H1 : Event m = messageEvent) by reflexivity.
  assert (H2 : nop (mkCache false) = false) by reflexivity.
  assert (H3 : quiet 2 (faults w)) by apply quiet_nil.
  split; [exact H1|]. split; [exact H2|]. split; [exact H3|]. split.
  - destruct (AddMessage_raises_count (mkCache false) m "alerts" w H1 H2 H3)
      as (n & -> & _ & ->). reflexivity.
  - destruct (AddMessage_raises_count (mkCache false) m "other" w H1 H2 H3)
      as (n & -> & _ & ->). reflexivity.
Defined.

Lemma foldl_newTopic (ids : list string) (acc : gmap string topic) (k : string) :
  foldl (λ (topics : gmap string topic) (id : string), <[id := newTopic id]> topics) acc ids
    !! k
  = if decide (k ∈ ids) then Some (newTopic k) else acc !! k.
Proof.
  revert acc. induction ids as [|id ids IH]; intros acc; cbn [foldl].
  - rewrite decide_False; [done|]. apply not_elem_of_nil.
  - rewrite IH. destruct (decide (k ∈ ids)) as [Hin|Hin].
    + by rewrite decide_True by (by apply list_elem_of_further).
    + destruct (decide (k = id)) as [->|Hne].
      * rewrite decide_True by apply list_elem_of_here. apply lookup_insert_eq.
      * rewrite decide_False by (intros [?|?]%elem_of_cons; done).
        by apply lookup_insert_ne.
Qed.

(** X15: [Topics] returns one entry for each topic that some row carries,
    published or not, and no other: a name is a key of the map exactly when
    a row has it as its topic, and the entry under a name is the topic of
    that name. *)
Theorem Topics_are_the_topics_of_rows (c : messageCache) (w : world Store) :
  quiet 1 (faults w) →
  ∃ topics : gmap string topic,
    Topics c w = (Ok topics, World (store w) (tail (faults w)) (clock w)) ∧
    (∀ name, is_Some (topics !! name) ↔ ∃ r, r ∈ rows (store w) ∧ MessageRow.topic r = name) ∧
    (∀ name t, topics !! name = Some t → t = newTopic name).
Proof.
  intros Hq. apply quiet_next in Hq as [Hq _].
  unfold Topics. erewrite bind_dbQuery_ok by (first [exact Hq | reflexivity]).
  simpl. unfold ret. eexists. split; [reflexivity|]. split.
  - intros name. rewrite foldl_newTopic, lookup_empty.
    destruct (decide (name ∈ remove_dups (MessageRow.topic <$> rows (store w)))) as [Hin|Hin].
    + split; [|eauto]. intros _.
      apply elem_of_remove_dups, list_elem_of_fmap in Hin as (r & -> & Hr). eauto.
    + split; [by intros [? ?]|]. intros (r & Hr & <-). destruct Hin.
      apply elem_of_remove_dups, list_elem_of_fmap. eauto.
  - intros name t. rewrite foldl_newTopic, lookup_empty.
    destruct (decide _); [by intros [= <-] | discriminate].
Qed.

Lemma Topics_are_the_topics_of_rows_witness :
  let r1 := MessageRow.mk 1 "m1" 90 90 "alerts" "a" "" 0 "" "" "" "" 0 0 "" "" "" 1 in
  let r2 := MessageRow.mk 2 "m2" 500 500 "backup" "b" "" 0 "" "" "" "" 0 0 "" "" "" 0 in
  let r3 := MessageRow.mk 3 "m3" 95 95 "alerts" "c" "" 0 "" "" "" "" 0 0 "" "" "" 1 in
  let w := World (mkStore [r1; r2; r3] 3) [] 100 in
  quiet 1 (faults w) ∧
  ∃ topics, fst (Topics (mkCache false) w) = Ok topics ∧
            topics !! "backup" = Some (newTopic "backup") ∧ topics !! "none" = None.
Proof.
  intros r1 r2 r3 w.
  assert (H : quiet 1 (faults w)) by apply quiet_nil.
  split; [exact H|].
  destruct (Topics_are_the_topics_of_rows (mkCache false) w H) as (topics & -> & Hkeys & Hval).
  exists topics. split; [reflexivity|]. split.
  - destruct (proj2 (Hkeys "backup")) as [t Ht].
    { exists r2. split; [|reflexivity]. apply list_elem_of_further, list_elem_of_here. }
    by rewrite Ht, (Hval _ _ Ht).
  - apply eq_None_not_Some. intros (r & Hr & Htopic)%Hkeys.
    repeat (apply elem_of_cons in Hr as [->|Hr]; [discriminate|]).
    by apply elem_of_nil in Hr.
Defined.

(** X16: [AttachmentsExpired] returns the message ids of exactly the rows
    whose attachment expiry is set (above 0) and before the clock.  A row
    whose expiry is 0 is never reported, and no row is both reported here
    and counted by [AttachmentsSize], which takes the rows whose expiry is
    at or after the clock. *)
Theorem AttachmentsExpired_exact (c : messageCache) (w : world Store) :
  quiet 1 (faults w) →
  ∃ l : list MessageRow.t,
    AttachmentsExpired c w
      = (Ok (MessageRow.mid <$> l), World (store w) (tail (faults w)) (clock w)) ∧
    l = filter (λ r, 0 < MessageRow.attachment_expires r ∧ MessageRow.attachment_expires r < clock w)
          (rows (store w)) ∧
    (∀ r, MessageRow.attachment_expires r = 0 → r ∉ l) ∧
    (∀ r owner, r ∈ l →
       r ∉ filter (λ r, MessageRow.attachment_owner r = owner ∧ clock w ≤ MessageRow.attachment_expires r)
             (rows (store w))).
Proof.
  intros Hq. apply quiet_next in Hq as [Hq _].
  unfold AttachmentsExpired. erewrite bind_ok by reflexivity.
  erewrite bind_dbQuery_ok by (first [exact Hq | reflexivity]).
  simpl. unfold ret. eexists. split; [reflexivity|]. split; [reflexivity|]. split.
  - intros r Hr [[? ?] _]%list_elem_of_filter. lia.
  - intros r owner [[? ?] _]%list_elem_of_filter [[? ?] _]%list_elem_of_filter. lia.
Qed.

Lemma AttachmentsExpired_exact_witness :
  let r1 := MessageRow.mk 1 "m1" 90 90 "alerts" "a" "" 0 "" "" "a.bin" "" 100 50
              "http://h/a.bin" "alice" "" 1 in
  let r2 := MessageRow.mk 2 "m2" 95 95 "alerts" "b" "" 0 "" "" "" "" 0 0 "" "" "" 1 in
  let w := World (mkStore [r1; r2] 2) [] 100 in
  quiet 1 (faults w) ∧ fst (AttachmentsExpired (mkCache false) w) = Ok ["m1"].
Proof.
  intros r1 r2 w.
  assert (H : quiet 1 (faults w)) by apply quiet_nil.
  split; [exact H|].
  destruct (AttachmentsExpired_exact (mkCache false) w H) as (l & -> & -> & _).
  reflexivity.
Defined.

(** X17: pruning twice is pruning once with the later cutoff: [Prune] with
    cutoff [a] followed by [Prune] with cutoff [b] leaves the rows that a
    single [Prune] with the larger of the two leaves. *)
Theorem Prune_twice (c : messageCache) (a b : Z) (w : world Store) :
  quiet 2 (faults w) →
  fst (Prune c a w) = Ok () ∧
  fst (Prune c b (snd (Prune c a w))) = Ok () ∧
  store (snd (Prune c b (snd (Prune c a w)))) = store (snd (Prune c (Z.max a b) w)).
Proof.
  intros Hq. apply quiet_next in Hq as [Hq1 Hq]. apply quiet_next in Hq as [Hq2 _].
  unfold Prune, dbExec, pruneMessagesQuery. rewrite Hq1. simpl. rewrite Hq2. simpl.
  split; [done|]. split; [done|]. f_equal.
  rewrite list_filter_filter. apply list_filter_iff. intros r. lia.
Qed.

Lemma Prune_twice_witness :
  let r1 := MessageRow.mk 1 "m1" 90 90 "alerts" "a" "" 0 "" "" "" "" 0 0 "" "" "" 1 in
  let r2 := MessageRow.mk 2 "m2" 150 150 "alerts" "b" "" 0 "" "" "" "" 0 0 "" "" "" 1 in
  let w := World (mkStore [r1; r2] 2) [] 1000 in
  quiet 2 (faults w) ∧
  rows (store (snd (Prune (mkCache false) 100 (snd (Prune (mkCache false) 200 w))))) = [].
Proof.
  intros r1 r2 w.
  assert (H : quiet 2 (faults w)) by apply quiet_nil.
  split; [exact H|].
  destruct (Prune_twice (mkCache false) 200 100 w H) as (_ & _ & ->). reflexivity.
Defined.

Lemma AttachmentsSize_ok (c : messageCache) (owner : string) (w : world Store) :
  nextFault (faults w) = false →
  addsUpInInt64 (MessageRow.attachment_size <$>
                   filter (λ r, MessageRow.attachment_owner r = owner ∧
                                clock w ≤ MessageRow.attachment_expires r) (rows (store w))) →
  fst (AttachmentsSize c owner w)
    = Ok (sumZ (MessageRow.attachment_size <$>
                  filter (λ r, MessageRow.attachment_owner r = owner ∧
                               clock w ≤ MessageRow.attachment_expires r) (rows (store w)))).
Proof.
  intros Hq Hrange. unfold AttachmentsSize. erewrite bind_ok by reflexivity.
  unfold bind. rewrite dbQuery_ok by exact Hq.
  unfold selectAttachmentsSizeQuery. cbn [store clock].
  destruct (SUM_exact _ Hrange) as (v & -> & HS).
  simpl. by rewrite HS.
Qed.

Lemma sumZ_snoc (l : list Z) (x : Z) : sumZ (l ++ [x]) = sumZ l + x.
Proof. unfold sumZ. induction l as [|y l IH]; simpl; [lia|]. rewrite IH. lia. Qed.

Lemma addsUpInInt64_prefix (l k : list Z) : addsUpInInt64 (l ++ k) → addsUpInInt64 l.
Proof.
  unfold addsUpInInt64. generalize 0. induction l as [|x l IH]; intros acc H; simpl in *.
  - constructor.
  - apply Forall_cons in H as [Hx H]. constructor; [exact Hx | by apply IH].
Qed.

(** X18: a message added to a cache that is not a no-op adds the size of its
    attachment to what [AttachmentsSize] returns for the attachment's owner,
    when the attachment has not expired at the clock, and adds nothing for
    any other owner, nothing when it has expired and nothing when there is
    no attachment.  Whether the attachment has a name and a URL plays no
    part in the count. *)
Theorem AddMessage_adds_to_quota (c : messageCache) (m : message) (owner : string)
    (w : world Store) :
  let counted (r : MessageRow.t) :=
    MessageRow.attachment_owner r = owner ∧ clock w ≤ MessageRow.attachment_expires r in
  Event m = messageEvent →
  nop c = false →
  quiet 2 (faults w) →
  addsUpInInt64 (MessageRow.attachment_size <$>
                   filter counted (rows (store (snd (AddMessage c m w))))) →
  ∃ before : Z,
    fst (AttachmentsSize c owner w) = Ok before ∧
    fst (AttachmentsSize c owner (snd (AddMessage c m w)))
      = Ok (before + match Attachment m with
                     | Some a => if decide (Owner a = owner ∧ clock w ≤ Expires a)
                                 then Size a else 0
                     | None => 0
                     end).
Proof.
  intros counted He Hnop Hq.
  apply quiet_next in Hq as [Hq1 Hq]. apply quiet_next in Hq as [Hq2 _].
  rewrite AddMessage_ok by done. cbn [snd store rows]. rewrite filter_app, fmap_app.
  intros Hrange. eexists. split.
  - apply AttachmentsSize_ok; [exact Hq1|]. by eapply addsUpInInt64_prefix.
  - rewrite AttachmentsSize_ok; cbn [store clock rows faults];
      [|exact Hq2|by rewrite filter_app, fmap_app].
    rewrite filter_app, fmap_app. f_equal. fold counted.
    rewrite filter_cons, filter_nil. unfold counted at 2, addedRow. simpl.
    destruct (Attachment m) as [a|]; simpl.
    + destruct (decide (Owner a = owner ∧ clock w ≤ Expires a)); simpl.
      * apply sumZ_snoc.
      * rewrite app_nil_r. lia.
    + destruct (decide _); simpl; [rewrite sumZ_snoc | rewrite app_nil_r]; lia.
Qed.

Lemma AddMessage_adds_to_quota_witness :
  let m := mkMessage "m1" 90 90 messageEvent "alerts" "file" "" 3 [] ""
             (Some (mkAttachment "" "" 100 500 "" "alice")) "" in
  let w := World emptyStore [] 100 in
  let counted (r : MessageRow.t) :=
    MessageRow.attachment_owner r = "alice" ∧ clock w ≤ MessageRow.attachment_expires r in
  Event m = messageEvent ∧ nop (mkCache false) = false ∧ quiet 2 (faults w) ∧
  addsUpInInt64 (MessageRow.attachment_size <$>
                   filter counted (rows (store (snd (AddMessage (mkCache false) m w))))) ∧
  fst (AttachmentsSize (mkCache false) "alice" (snd (AddMessage (mkCache false) m w)))
    = Ok 100.
Proof.
  intros m w counted.
  assert (H1 : Event m = messageEvent) by reflexivity.
  assert (H2 : nop (mkCache false) = false) by reflexivity.
  assert (H3 : quiet 2 (faults w)) by apply quiet_nil.
  assert (H4 : addsUpInInt64 (MessageRow.attachment_size <$>
                 filter counted (rows (store (snd (AddMessage (mkCache false) m w)))))).
  { repeat constructor; vm_compute; discriminate. }
  split; [exact H1|]. split; [exact H2|]. split; [exact H3|]. split; [exact H4|].
  destruct (AddMessage_adds_to_quota (mkCache false) m "alice" w H1 H2 H3 H4)
    as (before & Hb & ->).
  vm_compute in Hb. injection Hb as <-. reflexivity.
Defined.

(** ** The schema migrator *)

Import Schema.

(** A closed decidable proposition, settled by evaluation. *)
Ltac by_evaluation := apply (bool_decide_unpack _); vm_compute; exact I.

(** *** What a statement leaves alone *)

Lemma insertRow_columns (name : string) (t t' : table) (g : gmap string value) :
  insertRow name t g = Ok t' → columns t' = columns t.
Proof.
  unfold insertRow. intros H. repeat case_match; by simplify_eq.
Qed.

Lemma insertRows_columns (name : string) (gs : list (gmap string value)) (t t' : table) :
  insertRows name t gs = Ok t' → columns t' = columns t.
Proof.
  revert t. induction gs as [|g gs IH]; intros t H; simpl in H; [by simplify_eq|].
  destruct (insertRow name t g) as [t1|e] eqn:H1; [|discriminate].
  rewrite (IH _ H). by eapply insertRow_columns.
Qed.

Lemma apply_frame (st : stmt) (d d' : DB) (n : string) :
  n ∉ targets st →
  apply st d = Ok d' →
  tables d' !! n = tables d !! n.
Proof.
  intros Hn H. destruct st; simpl in *; unfold withTable in H;
    repeat case_match; try discriminate; injection H as <-; simpl; try done;
    repeat (rewrite lookup_insert_ne by (intros <-; apply Hn; repeat constructor));
    repeat (rewrite lookup_delete_ne by (intros <-; apply Hn; repeat constructor));
    done.
Qed.

Lemma step_frame (st : stmt) (ss ss' : session) (n : string) (t : option table) :
  n ∉ targets st → step st ss = Ok ss' → sees ss n t → sees ss' n t.
Proof.
  intros Hn H [Hc Hp]. unfold step in H.
  destruct (pending ss) as [d|] eqn:Hd.
  - specialize (Hp d eq_refl).
    destruct st; try discriminate;
      try (injection H as <-; split; simpl; [done | by intros ? [= <-]]);
      (destruct (apply _ d) as [d1|e] eqn:Ha in H; [|discriminate];
       injection H as <-; split; simpl; [done|];
       intros ? [= <-]; rewrite <- Hp; by eapply apply_frame).
  - destruct st; try discriminate;
      try (injection H as <-; split; simpl; [done | by intros ? [= <-]]);
      (destruct (apply _ (committed ss)) as [d1|e] eqn:Ha in H; [|discriminate];
       injection H as <-; split; simpl; [|done];
       rewrite <- Hc; by eapply apply_frame).
Qed.

Lemma runScript_frame (script : list stmt) (n : string) (t : option table) :
  Forall (λ st, n ∉ targets st) script →
  ∀ ss fs, sees ss n t → sees (runScript script ss fs).1.2 n t.
Proof.
  induction 1 as [|st script Hst _ IH]; intros ss fs Hs; simpl; [done|].
  destruct (nextFault fs); [done|].
  destruct (step st ss) as [ss1|e] eqn:Hstep; [|done].
  apply IH. by eapply step_frame.
Qed.

Lemma dbExecScript_frame (script : list stmt) (n : string) (w : world DB) :
  Forall (λ st, n ∉ targets st) script →
  tables (store (snd (dbExecScript script w))) !! n = tables (store w) !! n.
Proof.
  intros Hs. unfold dbExecScript.
  pose proof (runScript_frame script n (tables (store w) !! n) Hs
                (Session (store w) None) (faults w)) as [Hc _].
  { split; [done|]. simpl. discriminate. }
  destruct (runScript script (Session (store w) None) (faults w)) as [[[e|] ss] fs]; done.
Qed.

(** *** Transactions commit as a whole *)

Lemma runScript_app (a b : list stmt) (ss : session) (fs : list bool) :
  runScript (a ++ b) ss fs
    = match runScript a ss fs with
      | (None, ss1, fs1) => runScript b ss1 fs1
      | failed => failed
      end.
Proof.
  revert ss fs. induction a as [|st a IH]; intros ss fs; simpl; [done|].
  destruct (nextFault fs); [done|].
  destruct (step st ss) as [ss1|e]; [apply IH | done].
Qed.

Lemma step_in_transaction (st : stmt) (d p : DB) :
  st ≠ BEGIN → st ≠ COMMIT →
  step st (Session d (Some p))
    = match apply st p with
      | Ok p' => Ok (Session d (Some p'))
      | Err e => Err e
      end.
Proof. intros Hb Hc. by destruct st. Qed.

(** Inside a transaction a plain text commits nothing and leaves the
    transaction open. *)
Lemma runScript_in_transaction (body : list stmt) :
  plain body →
  ∀ (d p : DB) (fs : list bool),
    committed (runScript body (Session d (Some p)) fs).1.2 = d ∧
    is_Some (pending (runScript body (Session d (Some p)) fs).1.2).
Proof.
  induction 1 as [|st body [Hb Hc] _ IH]; intros d p fs; simpl; [eauto|].
  destruct (nextFault fs); [simpl; eauto|].
  rewrite step_in_transaction by done.
  destruct (apply st p) as [p1|e]; [apply IH | simpl; eauto].
Qed.

(** A text of the shape [BEGIN; ...; COMMIT] that fails leaves the store as
    it was. *)
Lemma transaction_atomic (body : list stmt) (w w' : world DB) (e : error) :
  plain body →
  dbExecScript (BEGIN :: body ++ [COMMIT]) w = (Err e, w') →
  store w' = store w.
Proof.
  intros Hb. unfold dbExecScript. simpl.
  destruct (nextFault (faults w)); [by intros [= _ <-]|].
  rewrite runScript_app.
  pose proof (runScript_in_transaction body Hb (store w) (store w) (tail (faults w)))
    as [Hc [p Hp]].
  destruct (runScript body _ _) as [[[e1|] ss1] fs1]; simpl in *.
  - intros [= _ <-]. done.
  - destruct (nextFault fs1); [by intros [= _ <-]|].
    unfold step. rewrite Hp. simpl. discriminate.
Qed.

(** So does a text of one statement. *)
Lemma single_statement_atomic (st : stmt) (w w' : world DB) (e : error) :
  dbExecScript [st] w = (Err e, w') → store w' = store w.
Proof.
  unfold dbExecScript. simpl.
  destruct (nextFault (faults w)); [by intros [= _ <-]|].
  destruct (step st _) as [ss1|e1]; [discriminate | by intros [= _ <-]].
Qed.

(** *** The version record *)

Lemma recordedVersion_frame (d d' : DB) :
  tables d' !! "schemaVersion" = tables d !! "schemaVersion" →
  recordedVersion d' = recordedVersion d.
Proof.
  intros H. unfold recordedVersion, selectSchemaVersionQuery. by rewrite H.
Qed.

Lemma atVersion_frame (d d' : DB) (v : Z) :
  tables d' !! "schemaVersion" = tables d !! "schemaVersion" →
  atVersion d v → atVersion d' v.
Proof.
  intros H (t & Ht & Hcols & Hv). exists t.
  rewrite H, (recordedVersion_frame _ _ H). done.
Qed.

Lemma version_rows_updated (V : value) (l : list (gmap string value)) :
  is_Some (head (omap (λ r : gmap string value, r !! "version")
                   (filter (λ r : gmap string value, r !! "id" = Some (VInt 1)) l))) →
  head (omap (λ r : gmap string value, r !! "version")
          (filter (λ r : gmap string value, r !! "id" = Some (VInt 1))
             ((λ r : gmap string value,
                 if decide (r !! "id" = Some (VInt 1)) then <["version" := V]> r else r)
              <$> l)))
    = Some V.
Proof.
  induction l as [|r l IH]; simpl; [by intros [? ?]|].
  rewrite filter_cons. destruct (decide (r !! "id" = Some (VInt 1))) as [Hid|Hid].
  - intros _. rewrite filter_cons_True by (by rewrite lookup_insert_ne).
    simpl. by rewrite lookup_insert_eq.
  - intros H. rewrite filter_cons_False by done. by apply IH.
Qed.

(** The version write, on a store that has a version record: it succeeds
    unless the engine fails, then the store records the new version and no
    other table has changed; when it fails the store is what it was. *)
Lemma updateSchemaVersion_spec (v v' : Z) (w : world DB) :
  atVersion (store w) v →
  match dbExecScript (updateSchemaVersion v') w with
  | (Ok _, w2) =>
      atVersion (store w2) v' ∧
      ∀ n, n ≠ "schemaVersion" → tables (store w2) !! n = tables (store w) !! n
  | (Err e, w2) => store w2 = store w
  end.
Proof.
  intros (t & Ht & Hcols & Hv).
  destruct (dbExecScript (updateSchemaVersion v') w) as [[[]|e] w2] eqn:Hrun;
    [|by eapply single_statement_atomic].
  destruct t as [cols rows ai]. simpl in Hcols. subst cols.
  revert Hrun. unfold dbExecScript, updateSchemaVersion. simpl.
  destruct (nextFault (faults w)); [discriminate|].
  unfold step. simpl. unfold withTable. rewrite Ht.
  replace (columnOf (Table schemaVersionColumns rows ai) "version")
    with (Some (Col "version" INT NOT_NULL)) by reflexivity.
  rewrite decide_True by by_evaluation.
  intros [= <-]. simpl. split.
  - eexists. split; [apply lookup_insert_eq|]. split; [done|].
    unfold recordedVersion, selectSchemaVersionQuery in *. simpl.
    rewrite lookup_insert_eq. rewrite Ht in Hv.
    rewrite decide_True in Hv by by_evaluation.
    rewrite decide_True by by_evaluation.
    simpl in *. apply version_rows_updated. by rewrite Hv.
  - intros n Hn. by rewrite lookup_insert_ne.
Qed.

(** Every step that starts from a recorded version has the two phases. *)
Lemma twoPhase_intro (v : Z) (structural : list stmt) (next : M DB unit) :
  (∀ w w' e, dbExecScript structural w = (Err e, w') → store w' = store w) →
  Forall (λ st, "schemaVersion" ∉ targets st) structural →
  twoPhase v structural
    (run dbExecScript structural;; run dbExecScript (updateSchemaVersion (v + 1));; next)
    next.
Proof.
  intros Hatomic Hleaves w Hv.
  destruct (dbExecScript structural w) as [[[]|e] w1] eqn:H1.
  - assert (Hv1 : atVersion (store w1) v).
    { eapply atVersion_frame; [|exact Hv].
      pose proof (dbExecScript_frame structural "schemaVersion" w Hleaves) as Hf.
      by rewrite H1 in Hf. }
    split; [exact Hv1|].
    pose proof (updateSchemaVersion_spec v (v + 1) w1 Hv1) as H2.
    erewrite (bind_ok _ _ w w1) by exact H1.
    destruct (dbExecScript (updateSchemaVersion (v + 1)) w1) as [[[]|e] w2] eqn:H3.
    + erewrite bind_ok by exact H3. destruct H2 as [H2 H2']. split; [done|].
      split; [done|]. by apply H2'.
    + erewrite bind_err by exact H3. done.
  - erewrite bind_err by exact H1. split; [done|]. by eapply Hatomic.
Qed.

(** *** The steps of the migrator *)

Lemma transactional_text_atomic (script : list stmt) :
  script = BEGIN :: transactionBody script ++ [COMMIT] →
  plain (transactionBody script) →
  ∀ w w' e, dbExecScript script w = (Err e, w') → store w' = store w.
Proof.
  intros Hshape Hplain w w' e. rewrite Hshape. by apply transaction_atomic.
Qed.

Ltac plain_text := repeat (constructor; [split; discriminate|]); constructor.

Ltac leaves_alone := repeat (constructor; [by_evaluation|]); constructor.

Lemma createSchemaVersionTable_spec (w : world DB) :
  tables (store w) !! "schemaVersion" = None →
  match dbExecScript createSchemaVersionTableQuery w with
  | (Ok _, w2) =>
      tables (store w2)
        = <["schemaVersion" := Table schemaVersionColumns [] 0]> (tables (store w))
  | (Err e, w2) => store w2 = store w
  end.
Proof.
  intros Hnone.
  destruct (dbExecScript createSchemaVersionTableQuery w) as [[[]|e] w2] eqn:Hrun;
    [|by eapply single_statement_atomic].
  revert Hrun. unfold dbExecScript, createSchemaVersionTableQuery. simpl.
  destruct (nextFault (faults w)); [discriminate|].
  unfold step. simpl. rewrite Hnone. by intros [= <-].
Qed.

Lemma insertSchemaVersion_spec (v : Z) (w : world DB) :
  tables (store w) !! "schemaVersion" = Some (Table schemaVersionColumns [] 0) →
  match dbExecScript (insertSchemaVersion v) w with
  | (Ok _, w3) =>
      atVersion (store w3) v ∧
      ∀ n, n ≠ "schemaVersion" → tables (store w3) !! n = tables (store w) !! n
  | (Err e, w3) => store w3 = store w
  end.
Proof.
  intros Ht.
  destruct (dbExecScript (insertSchemaVersion v) w) as [[[]|e] w3] eqn:Hrun;
    [|by eapply single_statement_atomic].
  revert Hrun. unfold dbExecScript, insertSchemaVersion. simpl.
  destruct (nextFault (faults w)); [discriminate|].
  unfold step. simpl. unfold withTable. rewrite Ht.
  rewrite decide_True by reflexivity.
  match goal with
  | |- context [insertRow ?n ?t ?g] =>
      replace (insertRow n t g)
        with (Ok (Table schemaVersionColumns
                    [list_to_map [("id", VInt 1); ("version", VInt v)]] 0))
        by (vm_compute; reflexivity)
  end.
  intros [= <-]. simpl. split.
  - eexists. split; [apply lookup_insert_eq|]. split; [reflexivity|].
    unfold recordedVersion, selectSchemaVersionQuery. simpl.
    rewrite lookup_insert_eq. vm_compute. reflexivity.
  - intros n Hn. by rewrite lookup_insert_ne.
Qed.

Lemma threePhase_intro (structural : list stmt) (next : M DB unit) :
  (∀ w w' e, dbExecScript structural w = (Err e, w') → store w' = store w) →
  Forall (λ st, "schemaVersion" ∉ targets st) structural →
  threePhase structural
    (run dbExecScript structural;; run dbExecScript createSchemaVersionTableQuery;;
     run dbExecScript (insertSchemaVersion 1);; next)
    next.
Proof.
  intros Hatomic Hleaves w Hnone.
  destruct (dbExecScript structural w) as [[[]|e] w1] eqn:H1;
    [|erewrite bind_err by exact H1; split; [done | by eapply Hatomic]].
  assert (Hnone1 : tables (store w1) !! "schemaVersion" = None).
  { pose proof (dbExecScript_frame structural "schemaVersion" w Hleaves) as Hf.
    rewrite H1 in Hf. simpl in Hf. by rewrite Hf. }
  split; [exact Hnone1|].
  erewrite (bind_ok _ _ w w1) by exact H1.
  pose proof (createSchemaVersionTable_spec w1 Hnone1) as H2.
  destruct (dbExecScript createSchemaVersionTableQuery w1) as [[[]|e] w2] eqn:H2';
    [|erewrite bind_err by exact H2'; done].
  erewrite (bind_ok _ _ w1 w2) by exact H2'.
  assert (Hm : tables (store w2) !! "messages" = tables (store w1) !! "messages").
  { rewrite H2. by rewrite lookup_insert_ne. }
  split.
  { unfold recordedVersion, selectSchemaVersionQuery.
    rewrite H2, lookup_insert_eq. reflexivity. }
  split; [exact Hm|].
  assert (Ht : tables (store w2) !! "schemaVersion"
               = Some (Table schemaVersionColumns [] 0))
    by (rewrite H2; apply lookup_insert_eq).
  pose proof (insertSchemaVersion_spec 1 w2 Ht) as H3.
  destruct (dbExecScript (insertSchemaVersion 1) w2) as [[[]|e] w3] eqn:H3';
    [|erewrite bind_err by exact H3'; done].
  erewrite bind_ok by exact H3'. destruct H3 as [H3 H3f].
  split; [done|]. split; [done|]. rewrite H3f by done. exact Hm.
Qed.

(** C5, as the code has it: in every step the structural change is applied
    as a whole and committed, and only then is the next version recorded, by
    statements of their own.  When the structural change fails the store is
    left as it was.  When it succeeds and the recording of the version
    fails, the store keeps the new structure and still records the old
    version (none, for step 0 -> 1).  When both succeed the store records
    the next version and the migrator goes on with the next step. *)
Theorem migration_steps_two_phase :
  threePhase migrate0To1AlterMessagesTableQuery migrateFrom0 migrateFrom1 ∧
  twoPhase 1 migrate1To2AlterMessagesTableQuery migrateFrom1 migrateFrom2 ∧
  twoPhase 2 migrate2To3AlterMessagesTableQuery migrateFrom2 migrateFrom3 ∧
  twoPhase 3 migrate3To4AlterMessagesTableQuery migrateFrom3 migrateFrom4 ∧
  twoPhase 4 migrate4To5AlterMessagesTableQuery migrateFrom4 (ret ()).
Proof.
  split; [|split; [|split; [|split]]].
  - apply threePhase_intro.
    + apply transactional_text_atomic; [reflexivity | plain_text].
    + leaves_alone.
  - apply (twoPhase_intro 1); [intros w w' e; apply single_statement_atomic|].
    leaves_alone.
  - apply (twoPhase_intro 2).
    + apply transactional_text_atomic; [reflexivity | plain_text].
    + leaves_alone.
  - apply (twoPhase_intro 3); [intros w w' e; apply single_statement_atomic|].
    leaves_alone.
  - apply (twoPhase_intro 4).
    + apply transactional_text_atomic; [reflexivity | plain_text].
    + leaves_alone.
Qed.

(** The stores used below: the sample store stopped before step 1 -> 2 and
    before step 4 -> 5. *)
Lemma interruptedAt_9_atVersion_1 : atVersion (interruptedAt 9) 1.
Proof.
  eexists. split; [vm_compute; reflexivity|]. split; vm_compute; reflexivity.
Qed.

Lemma interruptedAt_23_atVersion_4 : atVersion (interruptedAt 23) 4.
Proof.
  eexists. split; [vm_compute; reflexivity|]. split; vm_compute; reflexivity.
Qed.

(** C5 as stated does not hold.  On a store at version 1, step 1 -> 2 with
    the engine failing at the version write adds the [published] column and
    leaves version 1 recorded; on a store at version 4, step 4 -> 5 with the
    engine failing at the version write rebuilds [messages] and leaves
    version 4 recorded. *)
Lemma migration_step_not_atomic :
  ¬ atomicStep 1 migrateFrom1 ∧ ¬ atomicStep 4 migrateFrom4.
Proof.
  split; intros Hatomic.
  - assert (Hne : messagesColumnNames
                    (store (snd (migrateFrom1 (World (interruptedAt 9) [false; true] 0))))
                  ≠ messagesColumnNames (interruptedAt 9)).
    { intros H. apply (f_equal length) in H. vm_compute in H. discriminate H. }
    apply Hne. unfold messagesColumnNames. rewrite Hatomic; [reflexivity | |].
    + apply interruptedAt_9_atVersion_1.
    + vm_compute. reflexivity.
  - assert (Hne : messagesColumnNames
                    (store (snd (migrateFrom4
                                   (World (interruptedAt 23)
                                      (replicate 8 false ++ [true]) 0))))
                  ≠ messagesColumnNames (interruptedAt 23)).
    { intros H. apply (f_equal length) in H. vm_compute in H. discriminate H. }
    apply Hne. unfold messagesColumnNames. rewrite Hatomic; [reflexivity | |].
    + apply interruptedAt_23_atVersion_4.
    + vm_compute. reflexivity.
Qed.

(** The two runs, evaluated: the error, the version left on record and the
    columns left in [messages]. *)
Example migrateFrom1_interrupted :
  let r := migrateFrom1 (World (interruptedAt 9) [false; true] 0) in
  (fst r, recordedVersion (store (snd r)), messagesColumnNames (store (snd r)))
    = (Err errIO, Some (VInt 1),
       ["id"; "time"; "topic"; "message"; "title"; "priority"; "tags"; "published"]).
Proof. vm_compute. reflexivity. Qed.

Example migrateFrom4_interrupted :
  let r := migrateFrom4 (World (interruptedAt 23) (replicate 8 false ++ [true]) 0) in
  (fst r, recordedVersion (store (snd r)), messagesColumnNames (store (snd r)))
    = (Err errIO, Some (VInt 4),
       ["id"; "mid"; "time"; "topic"; "message"; "title"; "priority"; "tags"; "click";
        "attachment_name"; "attachment_type"; "attachment_size"; "attachment_expires";
        "attachment_url"; "attachment_owner"; "encoding"; "published"]).
Proof. vm_compute. reflexivity. Qed.

(** The next start after the first of these runs finds version 1 and runs
    step 1 -> 2 again, which the engine refuses: the column is there. *)
Example reopen_after_interrupted_step :
  fst (setupCacheDB
         (World (store (snd (migrateFrom1 (World (interruptedAt 9) [false; true] 0))))
            [] 0))
    = Err (errDriver "duplicate column name: published").
Proof. vm_compute. reflexivity. Qed.

(** *** The layout a migrated store ends with *)

Lemma runScript_cons_ok (st : stmt) (rest : list stmt) (ss ss' : session)
    (fs fs' : list bool) :
  runScript (st :: rest) ss fs = (None, ss', fs') →
  ∃ ss1, step st ss = Ok ss1 ∧ runScript rest ss1 (tail fs) = (None, ss', fs').
Proof.
  simpl. destruct (nextFault fs); [discriminate|].
  destruct (step st ss) as [ss1|e]; [eauto | discriminate].
Qed.

Lemma step_in_transaction_ok (st : stmt) (d p : DB) (ss1 : session) :
  st ≠ BEGIN → st ≠ COMMIT →
  step st (Session d (Some p)) = Ok ss1 →
  ∃ p1, apply st p = Ok p1 ∧ ss1 = Session d (Some p1).
Proof.
  intros Hb Hc. rewrite step_in_transaction by done.
  destruct (apply st p) as [p1|e]; [|discriminate]. intros [= <-]. eauto.
Qed.

Lemma apply_create_index_tables (index on col : string) (d d' : DB) :
  apply (CREATE_INDEX_IF_NOT_EXISTS index on col) d = Ok d' → tables d' = tables d.
Proof.
  simpl. unfold withTable. intros H.
  repeat case_match; try discriminate; by injection H as <-.
Qed.

Lemma apply_insert_select_tables (dst src : string) (dstCols srcCols : list string)
    (d d' : DB) :
  apply (INSERT_INTO_SELECT dst dstCols srcCols src) d = Ok d' →
  ∃ to to', tables d !! dst = Some to ∧ columns to' = columns to ∧
            tables d' = <[dst := to']> (tables d).
Proof.
  simpl. unfold withTable. intros H.
  destruct (tables d !! src) as [from|]; [|discriminate].
  destruct (tables d !! dst) as [to|]; [|discriminate].
  repeat case_match; try discriminate. injection H as <-.
  eexists _, _. split; [done|]. split; [|done]. by eapply insertRows_columns.
Qed.

Lemma apply_drop_tables (name : string) (d d' : DB) :
  apply (DROP_TABLE name) d = Ok d' → tables d' = delete name (tables d).
Proof.
  simpl. unfold withTable. intros H.
  destruct (tables d !! name); [|discriminate]. by injection H as <-.
Qed.

Lemma apply_rename_tables (name newName : string) (d d' : DB) :
  apply (ALTER_TABLE_RENAME_TO name newName) d = Ok d' →
  ∃ t, tables d !! name = Some t ∧
       tables d' = <[newName := t]> (delete name (tables d)).
Proof.
  simpl. unfold withTable. intros H.
  destruct (tables d !! name) as [t|]; [|discriminate].
  destruct (tables d !! newName); [discriminate|]. injection H as <-. eauto.
Qed.

(** The 4 -> 5 text, when it succeeds on a store without a leftover
    [messages_new], leaves a [messages] relation with the columns the text
    declares for [messages_new]. *)
Lemma migrate4To5_columns (w w1 : world DB) :
  tables (store w) !! "messages_new" = None →
  dbExecScript migrate4To5AlterMessagesTableQuery w = (Ok (), w1) →
  messagesColumns (store w1) = Some messagesNewColumns.
Proof.
  intros Hnone. unfold dbExecScript.
  destruct (runScript _ _ _) as [[[e|] ss] fs] eqn:Hrun; [discriminate|].
  intros [= <-]. unfold messagesColumns. simpl. revert Hrun.
  unfold migrate4To5AlterMessagesTableQuery.
  intros (s1 & H1 & Hrun)%runScript_cons_ok.
  injection H1 as <-.
  apply runScript_cons_ok in Hrun as (s2 & H2 & Hrun).
  apply step_in_transaction_ok in H2 as (p2 & Hp2 & ->); [|done..].
  simpl in Hp2. rewrite Hnone in Hp2. injection Hp2 as <-.
  apply runScript_cons_ok in Hrun as (s3 & H3 & Hrun).
  apply step_in_transaction_ok in H3 as (p3 & Hp3 & ->); [|done..].
  apply apply_create_index_tables in Hp3. simpl in Hp3.
  apply runScript_cons_ok in Hrun as (s4 & H4 & Hrun).
  apply step_in_transaction_ok in H4 as (p4 & Hp4 & ->); [|done..].
  apply apply_create_index_tables in Hp4. rewrite Hp3 in Hp4.
  apply runScript_cons_ok in Hrun as (s5 & H5 & Hrun).
  apply step_in_transaction_ok in H5 as (p5 & Hp5 & ->); [|done..].
  apply apply_insert_select_tables in Hp5 as (to & to' & Hto & Hcols & Hp5).
  rewrite Hp4, lookup_insert_eq in Hto. injection Hto as <-. simpl in Hcols.
  rewrite Hp4 in Hp5.
  apply runScript_cons_ok in Hrun as (s6 & H6 & Hrun).
  apply step_in_transaction_ok in H6 as (p6 & Hp6 & ->); [|done..].
  apply apply_drop_tables in Hp6. rewrite Hp5 in Hp6.
  apply runScript_cons_ok in Hrun as (s7 & H7 & Hrun).
  apply step_in_transaction_ok in H7 as (p7 & Hp7 & ->); [|done..].
  apply apply_rename_tables in Hp7 as (t & Ht & Hp7).
  rewrite Hp6, lookup_delete_ne, lookup_insert_eq in Ht by done.
  injection Ht as <-.
  apply runScript_cons_ok in Hrun as (s8 & H8 & Hrun).
  injection H8 as <-. simpl in Hrun. injection Hrun as <- _.
  simpl. rewrite Hp7, lookup_insert_eq. simpl. by rewrite Hcols.
Qed.

Lemma migrateFrom4_columns (w w' : world DB) :
  tables (store w) !! "messages_new" = None →
  migrateFrom4 w = (Ok (), w') →
  messagesColumns (store w') = Some messagesNewColumns.
Proof.
  intros Hnone. unfold migrateFrom4.
  intros ([] & w1 & H1 & H2)%bind_inv_ok.
  apply bind_inv_ok in H2 as ([] & w2 & H2 & H3). injection H3 as <-.
  pose proof (dbExecScript_frame (updateSchemaVersion 5) "messages" w1) as Hf.
  rewrite H2 in Hf. unfold messagesColumns. simpl in Hf. rewrite Hf by leaves_alone.
  by eapply migrate4To5_columns.
Qed.

(** A text that does not write [messages_new], followed by the rest of a
    step. *)
Lemma script_then (script : list stmt) (next : M DB unit) (Q : world DB → Prop) :
  Forall (λ st, "messages_new" ∉ targets st) script →
  (∀ w1 w', tables (store w1) !! "messages_new" = None →
            next w1 = (Ok (), w') → Q w') →
  ∀ w w', tables (store w) !! "messages_new" = None →
          (run dbExecScript script;; next) w = (Ok (), w') → Q w'.
Proof.
  intros Hs Hnext w w' Hnone ([] & w1 & H1 & H2)%bind_inv_ok.
  eapply Hnext; [|exact H2].
  pose proof (dbExecScript_frame script "messages_new" w Hs) as Hf.
  rewrite H1 in Hf. simpl in Hf. by rewrite Hf.
Qed.

Lemma doMigrations_columns (v : Z) (w w' : world DB) :
  v ≠ currentSchemaVersion →
  tables (store w) !! "messages_new" = None →
  doMigrations v w = (Ok (), w') →
  messagesColumns (store w') = Some messagesNewColumns.
Proof.
  intros Hv. revert w w'.
  set (Q := λ w' : world DB, messagesColumns (store w') = Some messagesNewColumns).
  assert (H4 : ∀ w w', tables (store w) !! "messages_new" = None →
                       migrateFrom4 w = (Ok (), w') → Q w')
    by (intros; by eapply migrateFrom4_columns).
  assert (H3 : ∀ w w', tables (store w) !! "messages_new" = None →
                       migrateFrom3 w = (Ok (), w') → Q w').
  { apply script_then; [leaves_alone|]. apply script_then; [leaves_alone|]. exact H4. }
  assert (H2 : ∀ w w', tables (store w) !! "messages_new" = None →
                       migrateFrom2 w = (Ok (), w') → Q w').
  { apply script_then; [leaves_alone|]. apply script_then; [leaves_alone|]. exact H3. }
  assert (H1 : ∀ w w', tables (store w) !! "messages_new" = None →
                       migrateFrom1 w = (Ok (), w') → Q w').
  { apply script_then; [leaves_alone|]. apply script_then; [leaves_alone|]. exact H2. }
  assert (H0 : ∀ w w', tables (store w) !! "messages_new" = None →
                       migrateFrom0 w = (Ok (), w') → Q w').
  { apply script_then; [leaves_alone|]. apply script_then; [leaves_alone|].
    apply script_then; [leaves_alone|]. exact H1. }
  intros w w' Hnone. unfold doMigrations, fail.
  repeat case_decide; try done; try discriminate; intros Hrun;
    [by apply (H0 w) | by apply (H1 w) | by apply (H2 w) | by apply (H3 w)
    | by apply (H4 w)].
Qed.

Lemma insert_refused_without_updated (d : DB) (vals : list value) (fs : list bool)
    (t : Z) :
  messagesColumns d = Some messagesNewColumns →
  quiet 1 fs →
  fst (dbExecScript (insertMessageQuery vals) (World d fs t))
    = Err (errDriver "table messages has no column named updated").
Proof.
  unfold messagesColumns. intros Hcols Hq. apply quiet_next in Hq as [Hq _].
  destruct (tables d !! "messages") as [[cols rows ai]|] eqn:Ht; [|discriminate].
  injection Hcols as ->.
  unfold dbExecScript, insertMessageQuery. simpl. rewrite Hq.
  unfold step. simpl. unfold withTable. rewrite Ht.
  vm_compute. reflexivity.
Qed.

(** C6 fails on the code.  A store opened at any earlier version, whose
    migration runs to the end, has a [messages] relation with exactly the
    columns the 4 -> 5 text declares.  The [updated] column, which a newly
    created store has and which [insertMessageQuery] writes, is not among
    them, and every later insertion is refused. *)
Theorem migrated_layout_lacks_updated (w w' : world DB) :
  priorStore (store w) →
  quiet 1 (faults w) →
  setupCacheDB w = (Ok (), w') →
  messagesColumns (store w') = Some messagesNewColumns ∧
  ("updated" ∉ messagesColumnNames (store w')) ∧
  "updated" ∈ messagesColumnNames freshDB ∧
  ∀ vals fs t,
    quiet 1 fs →
    fst (dbExecScript (insertMessageQuery vals) (World (store w') fs t))
      = Err (errDriver "table messages has no column named updated").
Proof.
  intros ([tm Hm] & Hnone & Hver) Hq Hrun.
  apply quiet_next in Hq as [Hq _].
  assert (Hcols : messagesColumns (store w') = Some messagesNewColumns).
  { revert Hrun. unfold setupCacheDB.
    rewrite dbQuery_ok by exact Hq.
    unfold selectMessagesCountQuery at 1. rewrite Hm.
    unfold dbQuery. simpl.
    destruct (nextFault (tail (faults w))).
    { by apply doMigrations_columns. }
    unfold recordedVersion in Hver.
    destruct (selectSchemaVersionQuery (store w)) as [rs|e];
      [|by apply doMigrations_columns].
    destruct (items rs) as [|[z|s] vs]; simpl in *; [discriminate| |discriminate].
    apply doMigrations_columns; [|done]. intros ->. done. }
  split; [exact Hcols|]. split; [|split].
  - unfold messagesColumnNames. rewrite Hcols. by_evaluation.
  - by_evaluation.
  - intros vals fs t Hfs. by apply insert_refused_without_updated.
Qed.

Lemma migrated_layout_lacks_updated_witness :
  let w := World (legacyDB [legacyRow "a1" 10 "alerts" "disk full"]) [] 0 in
  priorStore (store w) ∧ quiet 1 (faults w) ∧
  fst (setupCacheDB w) = Ok () ∧
  ("updated" ∉ messagesColumnNames (store (snd (setupCacheDB w)))) ∧
  "updated" ∈ messagesColumnNames freshDB.
Proof.
  intros w.
  assert (H1 : priorStore (store w)).
  { split; [by_evaluation|]. split; [vm_compute; reflexivity|].
    vm_compute. discriminate. }
  assert (H2 : quiet 1 (faults w)) by apply quiet_nil.
  assert (H3 : fst (setupCacheDB w) = Ok ()) by (vm_compute; reflexivity).
  split; [exact H1|]. split; [exact H2|]. split; [exact H3|].
  destruct (setupCacheDB w) as [r w'] eqn:Hrun. simpl in H3. subst r.
  destruct (migrated_layout_lacks_updated w w' H1 H2 Hrun) as (_ & Hno & Hfresh & _).
  split; [exact Hno | exact Hfresh].
Defined.

(** The same on the sample store, evaluated: the store opens without error
    at version 5, its rows keep their cells, the old [id] now under [mid],
    and there is no [updated] cell. *)
Example migrated_store_evaluated :
  let d := store (snd (setupCacheDB
                         (World (legacyDB [legacyRow "a1" 10 "alerts" "disk full"]) [] 0))) in
  recordedVersion d = Some (VInt 5) ∧
  ((λ t : table, (λ r : gmap string value,
                    (r !! "id", r !! "mid", r !! "time", r !! "topic", r !! "message",
                     r !! "published", r !! "updated")) <$> body t)
     <$> tables d !! "messages")
    = Some [(Some (VInt 1), Some (VText "a1"), Some (VInt 10), Some (VText "alerts"),
             Some (VText "disk full"), Some (VInt 1), None)].
Proof. split; vm_compute; reflexivity. Qed.

(** ** Further properties of the schema migrator *)

Lemma setupCacheDB_existing (w : world DB) :
  is_Some (tables (store w) !! "messages") →
  quiet 2 (faults w) →
  setupCacheDB w
    = match selectSchemaVersionQuery (store w) with
      | Ok rowsSV =>
          match items rowsSV with
          | [] => (Err (errorsNew "cannot determine schema version: cache file may be corrupt"),
                   World (store w) (drop 2 (faults w)) (clock w))
          | v :: _ =>
              match scanInt v with
              | Err e => (Err e, World (store w) (drop 2 (faults w)) (clock w))
              | Ok schemaVersion =>
                  doMigrations schemaVersion (World (store w) (drop 2 (faults w)) (clock w))
              end
          end
      | Err _ => doMigrations 0 (World (store w) (drop 2 (faults w)) (clock w))
      end.
Proof.
  intros [t Ht] Hq. apply quiet_next in Hq as [Hq1 Hq]. apply quiet_next in Hq as [Hq2 _].
  unfold setupCacheDB. rewrite dbQuery_ok by exact Hq1.
  unfold selectMessagesCountQuery at 1. rewrite Ht.
  rewrite dbQuery_ok by exact Hq2. cbn [store faults clock].
  rewrite (tail_drop (faults w)), tail_drop, drop_drop. reflexivity.
Qed.

(** X19: opening a store that has a [messages] relation and records the
    current version changes nothing and returns no error: the two queries
    that find the version are the only statements sent. *)
Theorem setupCacheDB_current_unchanged (w : world DB) :
  is_Some (tables (store w) !! "messages") →
  recordedVersion (store w) = Some (VInt currentSchemaVersion) →
  quiet 2 (faults w) →
  setupCacheDB w = (Ok (), World (store w) (drop 2 (faults w)) (clock w)).
Proof.
  intros Hm Hv Hq. rewrite setupCacheDB_existing by done.
  unfold recordedVersion in Hv.
  destruct (selectSchemaVersionQuery (store w)) as [rs|e]; [|discriminate].
  destruct (items rs) as [|v vs]; [discriminate|]. simpl in Hv. injection Hv as ->.
  reflexivity.
Qed.

Lemma setupCacheDB_current_unchanged_witness :
  let w := World freshDB [] 0 in
  is_Some (tables (store w) !! "messages") ∧
  recordedVersion (store w) = Some (VInt currentSchemaVersion) ∧
  quiet 2 (faults w) ∧
  setupCacheDB w = (Ok (), w).
Proof.
  intros w.
  assert (H1 : is_Some (tables (store w) !! "messages")) by by_evaluation.
  assert (H2 : recordedVersion (store w) = Some (VInt currentSchemaVersion))
    by (vm_compute; reflexivity).
  assert (H3 : quiet 2 (faults w)) by apply quiet_nil.
  split; [exact H1|]. split; [exact H2|]. split; [exact H3|].
  exact (setupCacheDB_current_unchanged w H1 H2 H3).
Defined.

(** X20: a store that records a version other than 0 to 5, a later one or a
    negative one, is refused with the error that names the version, and is
    left as it was. *)
Theorem setupCacheDB_unknown_version (w : world DB) (v : Z) :
  is_Some (tables (store w) !! "messages") →
  recordedVersion (store w) = Some (VInt v) →
  ¬ (0 ≤ v ≤ 5) →
  quiet 2 (faults w) →
  setupCacheDB w
    = (Err (fmtErrorf "unexpected schema version found: %d" v),
       World (store w) (drop 2 (faults w)) (clock w)).
Proof.
  intros Hm Hv Hout Hq. rewrite setupCacheDB_existing by done.
  unfold recordedVersion in Hv.
  destruct (selectSchemaVersionQuery (store w)) as [rs|e]; [|discriminate].
  destruct (items rs) as [|v' vs]; [discriminate|]. simpl in Hv. injection Hv as ->.
  simpl. unfold doMigrations, currentSchemaVersion.
  repeat (rewrite decide_False by lia). reflexivity.
Qed.

Lemma setupCacheDB_unknown_version_witness :
  let d := mkDB (<["schemaVersion" :=
                    Table schemaVersionColumns
                      [list_to_map [("id", VInt 1); ("version", VInt 6)]] 0]>
                   (tables freshDB)) (indexes freshDB) in
  let w := World d [] 0 in
  is_Some (tables (store w) !! "messages") ∧
  recordedVersion (store w) = Some (VInt 6) ∧ ¬ (0 ≤ 6 ≤ 5) ∧ quiet 2 (faults w) ∧
  setupCacheDB w = (Err (fmtErrorf "unexpected schema version found: %d" 6), w).
Proof.
  intros d w.
  assert (H1 : is_Some (tables (store w) !! "messages")) by by_evaluation.
  assert (H2 : recordedVersion (store w) = Some (VInt 6)) by (vm_compute; reflexivity).
  assert (H3 : ¬ (0 ≤ 6 ≤ 5)) by lia.
  assert (H4 : quiet 2 (faults w)) by apply quiet_nil.
  split; [exact H1|]. split; [exact H2|]. split; [exact H3|]. split; [exact H4|].
  exact (setupCacheDB_unknown_version w 6 H1 H2 H3 H4).
Defined.

(** X21: a store that has a [messages] relation and a version table in which
    no row has id 1 is refused as corrupt, and is left as it was; the code
    does not take it for a store of version 0. *)
Theorem setupCacheDB_corrupt (w : world DB) (t : table) :
  is_Some (tables (store w) !! "messages") →
  tables (store w) !! "schemaVersion" = Some t →
  hasColumn t "version" → hasColumn t "id" →
  Forall (λ r : gmap string value, r !! "id" ≠ Some (VInt 1)) (body t) →
  quiet 2 (faults w) →
  setupCacheDB w
    = (Err (errorsNew "cannot determine schema version: cache file may be corrupt"),
       World (store w) (drop 2 (faults w)) (clock w)).
Proof.
  intros Hm Ht Hc1 Hc2 Hrows Hq. rewrite setupCacheDB_existing by done.
  unfold selectSchemaVersionQuery. rewrite Ht.
  rewrite decide_True by done. simpl.
  rewrite (filter_none _ _ Hrows). reflexivity.
Qed.

Lemma setupCacheDB_corrupt_witness :
  let t := Table schemaVersionColumns [] 0 in
  let d := mkDB (<["schemaVersion" := t]> (tables freshDB)) (indexes freshDB) in
  let w := World d [] 0 in
  is_Some (tables (store w) !! "messages") ∧
  tables (store w) !! "schemaVersion" = Some t ∧
  hasColumn t "version" ∧ hasColumn t "id" ∧
  Forall (λ r : gmap string value, r !! "id" ≠ Some (VInt 1)) (body t) ∧
  quiet 2 (faults w) ∧
  fst (setupCacheDB w)
    = Err (errorsNew "cannot determine schema version: cache file may be corrupt").
Proof.
  intros t d w.
  assert (H1 : is_Some (tables (store w) !! "messages")) by by_evaluation.
  assert (H2 : tables (store w) !! "schemaVersion" = Some t) by apply lookup_insert_eq.
  assert (H3 : hasColumn t "version") by by_evaluation.
  assert (H4 : hasColumn t "id") by by_evaluation.
  assert (H5 : Forall (λ r : gmap string value, r !! "id" ≠ Some (VInt 1)) (body t))
    by constructor.
  assert (H6 : quiet 2 (faults w)) by apply quiet_nil.
  split; [exact H1|]. split; [exact H2|]. split; [exact H3|]. split; [exact H4|].
  split; [exact H5|]. split; [exact H6|].
  by rewrite (setupCacheDB_corrupt w t H1 H2 H3 H4 H5 H6).
Defined.

(** *** Where a successful opening ends *)

Lemma step1_phases : twoPhase 1 migrate1To2AlterMessagesTableQuery migrateFrom1 migrateFrom2.
Proof.
  apply (twoPhase_intro 1); [intros w w' e; apply single_statement_atomic|]. leaves_alone.
Qed.

Lemma step2_phases : twoPhase 2 migrate2To3AlterMessagesTableQuery migrateFrom2 migrateFrom3.
Proof.
  apply (twoPhase_intro 2); [|leaves_alone].
  apply transactional_text_atomic; [reflexivity | plain_text].
Qed.

Lemma step3_phases : twoPhase 3 migrate3To4AlterMessagesTableQuery migrateFrom3 migrateFrom4.
Proof.
  apply (twoPhase_intro 3); [intros w w' e; apply single_statement_atomic|]. leaves_alone.
Qed.

Lemma step4_phases : twoPhase 4 migrate4To5AlterMessagesTableQuery migrateFrom4 (ret ()).
Proof.
  apply (twoPhase_intro 4); [|leaves_alone].
  apply transactional_text_atomic; [reflexivity | plain_text].
Qed.

Lemma step0_phases : threePhase migrate0To1AlterMessagesTableQuery migrateFrom0 migrateFrom1.
Proof.
  apply threePhase_intro; [|leaves_alone].
  apply transactional_text_atomic; [reflexivity | plain_text].
Qed.

Lemma twoPhase_ok (v : Z) (structural : list stmt) (migrate next : M DB unit)
    (w w' : world DB) :
  twoPhase v structural migrate next →
  atVersion (store w) v →
  migrate w = (Ok (), w') →
  ∃ w2, next w2 = (Ok (), w') ∧ atVersion (store w2) (v + 1).
Proof.
  intros Hstep Hv Hrun. specialize (Hstep w Hv).
  destruct (dbExecScript structural w) as [[[]|e] w1].
  - destruct Hstep as [_ Hstep].
    destruct (dbExecScript (updateSchemaVersion (v + 1)) w1) as [[[]|e] w2].
    + destruct Hstep as (Hm & Hv2 & _). exists w2. split; [congruence | done].
    + destruct Hstep as [Hm _]. congruence.
  - destruct Hstep as [Hm _]. congruence.
Qed.

Lemma threePhase_ok (structural : list stmt) (migrate next : M DB unit) (w w' : world DB) :
  threePhase structural migrate next →
  tables (store w) !! "schemaVersion" = None →
  migrate w = (Ok (), w') →
  ∃ w3, next w3 = (Ok (), w') ∧ atVersion (store w3) 1.
Proof.
  intros Hstep Hv Hrun. specialize (Hstep w Hv).
  destruct (dbExecScript structural w) as [[[]|e] w1]; [|destruct Hstep; congruence].
  destruct Hstep as [_ Hstep].
  destruct (dbExecScript createSchemaVersionTableQuery w1) as [[[]|e] w2];
    [|destruct Hstep; congruence].
  destruct Hstep as (_ & _ & Hstep).
  destruct (dbExecScript (insertSchemaVersion 1) w2) as [[[]|e] w3];
    [|destruct Hstep; congruence].
  destruct Hstep as (Hm & Hv3 & _). exists w3. split; [congruence | done].
Qed.

Lemma migrateFrom4_version (w w' : world DB) :
  atVersion (store w) 4 → migrateFrom4 w = (Ok (), w') → atVersion (store w') 5.
Proof.
  intros Hv Hrun.
  destruct (twoPhase_ok _ _ _ _ _ _ step4_phases Hv Hrun) as (w2 & [= <-] & Hv2). exact Hv2.
Qed.

Lemma migrateFrom3_version (w w' : world DB) :
  atVersion (store w) 3 → migrateFrom3 w = (Ok (), w') → atVersion (store w') 5.
Proof.
  intros Hv Hrun.
  destruct (twoPhase_ok _ _ _ _ _ _ step3_phases Hv Hrun) as (w2 & Hnext & Hv2).
  by eapply migrateFrom4_version.
Qed.

Lemma migrateFrom2_version (w w' : world DB) :
  atVersion (store w) 2 → migrateFrom2 w = (Ok (), w') → atVersion (store w') 5.
Proof.
  intros Hv Hrun.
  destruct (twoPhase_ok _ _ _ _ _ _ step2_phases Hv Hrun) as (w2 & Hnext & Hv2).
  by eapply migrateFrom3_version.
Qed.

Lemma migrateFrom1_version (w w' : world DB) :
  atVersion (store w) 1 → migrateFrom1 w = (Ok (), w') → atVersion (store w') 5.
Proof.
  intros Hv Hrun.
  destruct (twoPhase_ok _ _ _ _ _ _ step1_phases Hv Hrun) as (w2 & Hnext & Hv2).
  by eapply migrateFrom2_version.
Qed.

Lemma migrateFrom0_version (w w' : world DB) :
  tables (store w) !! "schemaVersion" = None →
  migrateFrom0 w = (Ok (), w') → atVersion (store w') 5.
Proof.
  intros Hv Hrun.
  destruct (threePhase_ok _ _ _ _ _ step0_phases Hv Hrun) as (w3 & Hnext & Hv3).
  by eapply migrateFrom1_version.
Qed.

(** X22: whenever opening a store that has a [messages] relation returns no
    error, the store records version 5 afterwards, whether it started
    without a version record or from a recorded version: the chain of steps
    never stops halfway and reports success. *)
Theorem setupCacheDB_ends_at_current (w w' : world DB) :
  is_Some (tables (store w) !! "messages") →
  tables (store w) !! "schemaVersion" = None ∨
    (∃ v, v ≠ 0 ∧ atVersion (store w) v) →
  quiet 2 (faults w) →
  setupCacheDB w = (Ok (), w') →
  atVersion (store w') 5.
Proof.
  intros Hm Hstart Hq. rewrite setupCacheDB_existing by done.
  set (w2 := World (store w) (drop 2 (faults w)) (clock w)).
  destruct Hstart as [Hnone | (v & Hv0 & Hv)].
  - unfold selectSchemaVersionQuery. rewrite Hnone.
    unfold doMigrations. rewrite decide_False by done. rewrite decide_True by done.
    by apply migrateFrom0_version.
  - pose proof Hv as (t & Ht & Hcols & Hrec). unfold recordedVersion in Hrec.
    destruct (selectSchemaVersionQuery (store w)) as [rs|e]; [|discriminate].
    destruct (items rs) as [|v' vs]; [discriminate|]. simpl in Hrec. injection Hrec as ->.
    simpl. unfold doMigrations, fail.
    repeat case_decide; subst; try done; try discriminate.
    + by intros [= <-].
    + by apply migrateFrom1_version.
    + by apply migrateFrom2_version.
    + by apply migrateFrom3_version.
    + by apply migrateFrom4_version.
Qed.

Lemma setupCacheDB_ends_at_current_witness :
  let w := World (legacyDB [legacyRow "a1" 10 "alerts" "disk full"]) [] 0 in
  is_Some (tables (store w) !! "messages") ∧
  tables (store w) !! "schemaVersion" = None ∧
  quiet 2 (faults w) ∧
  fst (setupCacheDB w) = Ok () ∧
  atVersion (store (snd (setupCacheDB w))) 5.
Proof.
  intros w.
  assert (H1 : is_Some (tables (store w) !! "messages")) by by_evaluation.
  assert (H2 : tables (store w) !! "schemaVersion" = None) by (vm_compute; reflexivity).
  assert (H3 : quiet 2 (faults w)) by apply quiet_nil.
  assert (H4 : fst (setupCacheDB w) = Ok ()) by (vm_compute; reflexivity).
  split; [exact H1|]. split; [exact H2|]. split; [exact H3|]. split; [exact H4|].
  destruct (setupCacheDB w) as [r w'] eqn:Hrun. simpl in H4. subst r.
  exact (setupCacheDB_ends_at_current w w' H1 (or_introl H2) H3 Hrun).
Defined.

(** *** A new store *)

Lemma runScript_steps (script : list stmt) (ss ss' : session) (fs : list bool) :
  quiet (length script) fs →
  stepsTo script ss ss' →
  runScript script ss fs = (None, ss', drop (length script) fs).
Proof.
  revert ss fs. induction script as [|st script IH]; intros ss fs Hq Hsteps; simpl in *.
  - by subst.
  - apply quiet_next in Hq as [Hq1 Hq]. destruct Hsteps as (ss1 & Hstep & Hrest).
    rewrite Hq1, Hstep. rewrite (IH _ _ Hq Hrest). by rewrite tail_drop, drop_drop.
Qed.

Lemma dbExecScript_steps (script : list stmt) (w : world DB) (d' : DB) :
  quiet (length script) (faults w) →
  stepsTo script (Session (store w) None) (Session d' None) →
  dbExecScript script w = (Ok (), World d' (drop (length script) (faults w)) (clock w)).
Proof.
  intros Hq Hsteps. unfold dbExecScript. by rewrite (runScript_steps _ _ _ _ Hq Hsteps).
Qed.

Lemma apply_create_index_ok (index on col : string) (d : DB) (t : table) :
  tables d !! on = Some t → hasColumn t col →
  ∃ d', apply (CREATE_INDEX_IF_NOT_EXISTS index on col) d = Ok d' ∧ tables d' = tables d.
Proof.
  intros Ht Hc. simpl. destruct (indexes d !! index); [eauto|].
  unfold withTable. rewrite Ht, decide_True by done. eauto.
Qed.

Lemma createMessagesTable_steps (d : DB) :
  tables d !! "messages" = None →
  ∃ d', stepsTo createMessagesTableQuery (Session d None) (Session d' None) ∧
        ∃ cols, tables d' = <["messages" := Table cols [] 0]> (tables d) ∧
                cname <$> cols
                = ["id"; "mid"; "time"; "updated"; "topic"; "message"; "title"; "priority";
                   "tags"; "click"; "attachment_name"; "attachment_type"; "attachment_size";
                   "attachment_expires"; "attachment_url"; "attachment_owner"; "encoding";
                   "published"].
Proof.
  intros Hnone. unfold createMessagesTableQuery.
  match goal with
  | |- context [CREATE_TABLE_IF_NOT_EXISTS "messages" ?cs] => set (cols := cs)
  end.
  set (d1 := mkDB (<["messages" := Table cols [] 0]> (tables d)) (indexes d)).
  assert (Ht : tables d1 !! "messages" = Some (Table cols [] 0)) by apply lookup_insert_eq.
  destruct (apply_create_index_ok "idx_mid" "messages" "mid" d1 _ Ht) as (d2 & Hd2 & Ht2);
    [by_evaluation|].
  assert (Ht' : tables d2 !! "messages" = Some (Table cols [] 0)) by (by rewrite Ht2).
  destruct (apply_create_index_ok "idx_topic" "messages" "topic" d2 _ Ht') as (d3 & Hd3 & Ht3);
    [by_evaluation|].
  exists d3. split.
  - cbn [stepsTo]. exists (Session d (Some d)). split; [reflexivity|].
    exists (Session d (Some d1)). split.
    { rewrite step_in_transaction by done. cbn [apply]. rewrite Hnone. reflexivity. }
    exists (Session d (Some d2)). split.
    { rewrite step_in_transaction by done. rewrite Hd2. reflexivity. }
    exists (Session d (Some d3)). split.
    { rewrite step_in_transaction by done. rewrite Hd3. reflexivity. }
    exists (Session d3 None). split; reflexivity.
  - exists cols. split; [by rewrite Ht3, Ht2|]. reflexivity.
Qed.

Lemma createSchemaVersionTable_steps (d : DB) :
  tables d !! "schemaVersion" = None →
  stepsTo createSchemaVersionTableQuery (Session d None)
    (Session (mkDB (<["schemaVersion" := Table schemaVersionColumns [] 0]> (tables d))
                (indexes d)) None).
Proof.
  intros Hnone. cbn [stepsTo createSchemaVersionTableQuery]. eexists. split; [|reflexivity].
  unfold step. cbn [pending committed apply]. by rewrite Hnone.
Qed.

Lemma insertSchemaVersion_steps (d : DB) (v : Z) :
  tables d !! "schemaVersion" = Some (Table schemaVersionColumns [] 0) →
  stepsTo (insertSchemaVersion v) (Session d None)
    (Session (mkDB (<["schemaVersion" :=
                       Table schemaVersionColumns
                         [list_to_map [("id", VInt 1); ("version", VInt v)]] 0]>
                      (tables d)) (indexes d)) None).
Proof.
  intros Ht. cbn [stepsTo insertSchemaVersion]. eexists. split; [|reflexivity].
  unfold step. cbn [pending committed apply]. unfold withTable. rewrite Ht.
  rewrite decide_True by reflexivity.
  match goal with
  | |- context [insertRow ?n ?t ?g] =>
      replace (insertRow n t g)
        with (Ok (Table schemaVersionColumns
                    [list_to_map [("id", VInt 1); ("version", VInt v)]] 0))
        by (vm_compute; reflexivity)
  end.
  reflexivity.
Qed.

(** X23: on a database that has neither a [messages] relation nor a version
    table, and with the engine answering, opening creates the store at the
    current version without going through any migration step: afterwards
    [messages] is empty and has the eighteen columns of the current layout,
    [updated] among them, the version on record is 5, and every other table
    of the database is untouched. *)
Theorem setupCacheDB_creates_store (w : world DB) :
  tables (store w) !! "messages" = None →
  tables (store w) !! "schemaVersion" = None →
  quiet 8 (faults w) →
  ∃ w' : world DB,
    setupCacheDB w = (Ok (), w') ∧
    (∃ cols, tables (store w') !! "messages" = Some (Table cols [] 0)) ∧
    messagesColumnNames (store w')
      = ["id"; "mid"; "time"; "updated"; "topic"; "message"; "title"; "priority";
         "tags"; "click"; "attachment_name"; "attachment_type"; "attachment_size";
         "attachment_expires"; "attachment_url"; "attachment_owner"; "encoding";
         "published"] ∧
    atVersion (store w') 5 ∧
    ∀ n, n ≠ "messages" → n ≠ "schemaVersion" →
         tables (store w') !! n = tables (store w) !! n.
Proof.
  intros Hm Hv Hq.
  pose proof Hq as Hq'. apply quiet_next in Hq' as [Hq1 _].
  unfold setupCacheDB. rewrite dbQuery_ok by exact Hq1.
  unfold selectMessagesCountQuery. rewrite Hm.
  set (w1 := World (store w) (tail (faults w)) (clock w)).
  destruct (createMessagesTable_steps (store w) Hm) as (d1 & Hs1 & cols & Ht1 & Hnames).
  assert (Hq7 : quiet 7 (faults w1)).
  { unfold w1. simpl. rewrite tail_drop. by apply (quiet_drop 1 7). }
  assert (Hrun1 : dbExecScript createMessagesTableQuery w1
                  = (Ok (), World d1 (drop 5 (faults w1)) (clock w))).
  { apply (dbExecScript_steps createMessagesTableQuery w1 d1); [|exact Hs1].
    eapply quiet_le; [|exact Hq7]. simpl. lia. }
  set (w2 := World d1 (drop 5 (faults w1)) (clock w)).
  assert (Hv1 : tables d1 !! "schemaVersion" = None)
    by (rewrite Ht1, lookup_insert_ne by done; exact Hv).
  assert (Hrun2 : dbExecScript createSchemaVersionTableQuery w2
                  = (Ok (), World (mkDB (<["schemaVersion" := Table schemaVersionColumns [] 0]>
                                           (tables d1)) (indexes d1))
                              (drop 1 (faults w2)) (clock w))).
  { apply (dbExecScript_steps createSchemaVersionTableQuery w2);
      [|by apply createSchemaVersionTable_steps].
    unfold w2. simpl. eapply (quiet_le 2); [lia|]. by apply (quiet_drop 5 2). }
  set (d2 := mkDB (<["schemaVersion" := Table schemaVersionColumns [] 0]> (tables d1))
               (indexes d1)).
  set (w3 := World d2 (drop 1 (faults w2)) (clock w)).
  assert (Hrun3 : dbExecScript (insertSchemaVersion currentSchemaVersion) w3
                  = (Ok (), World (mkDB (<["schemaVersion" :=
                                            Table schemaVersionColumns
                                              [list_to_map [("id", VInt 1);
                                                            ("version", VInt 5)]] 0]>
                                           (tables d2)) (indexes d2))
                              (drop 1 (faults w3)) (clock w))).
  { apply (dbExecScript_steps (insertSchemaVersion currentSchemaVersion) w3);
      [|apply insertSchemaVersion_steps, lookup_insert_eq].
    unfold w3, w2. simpl. rewrite drop_drop. apply (quiet_drop 6 1).
    eapply quiet_le; [|exact Hq7]. lia. }
  unfold setupNewCacheDB.
  erewrite bind_ok by exact Hrun1. erewrite bind_ok by exact Hrun2.
  erewrite bind_ok by exact Hrun3.
  eexists. split; [reflexivity|]. cbn [store].
  assert (Hmsg : <["schemaVersion" := Table schemaVersionColumns
                     [list_to_map [("id", VInt 1); ("version", VInt 5)]] 0]> (tables d2)
                 !! "messages" = Some (Table cols [] 0)).
  { rewrite lookup_insert_ne by done. unfold d2. cbn [tables].
    rewrite lookup_insert_ne by done. rewrite Ht1. apply lookup_insert_eq. }
  split; [eauto|]. split; [|split].
  - unfold messagesColumnNames, messagesColumns. cbn [tables]. rewrite Hmsg. exact Hnames.
  - eexists. split; [apply lookup_insert_eq|]. split; [reflexivity|].
    unfold recordedVersion, selectSchemaVersionQuery. cbn [tables].
    rewrite lookup_insert_eq. vm_compute. reflexivity.
  - intros n Hn1 Hn2. cbn [tables]. rewrite lookup_insert_ne by done.
    unfold d2. cbn [tables]. rewrite lookup_insert_ne by done.
    rewrite Ht1. by rewrite lookup_insert_ne.
Qed.

Lemma setupCacheDB_creates_store_witness :
  let w := World emptyDB [] 0 in
  tables (store w) !! "messages" = None ∧
  tables (store w) !! "schemaVersion" = None ∧
  quiet 8 (faults w) ∧
  ∃ w', setupCacheDB w = (Ok (), w') ∧ atVersion (store w') 5.
Proof.
  intros w.
  assert (H1 : tables (store w) !! "messages" = None) by reflexivity.
  assert (H2 : tables (store w) !! "schemaVersion" = None) by reflexivity.
  assert (H3 : quiet 8 (faults w)) by apply quiet_nil.
  split; [exact H1|]. split; [exact H2|]. split; [exact H3|].
  destruct (setupCacheDB_creates_store w H1 H2 H3) as (w' & Hrun & _ & _ & Hv & _).
  exists w'. split; [exact Hrun | exact Hv].
Defined.

(** *** Rows through the additive steps *)

Lemma apply_add_column (name : string) (col : column) (dflt : value) (d d' : DB) (t : table) :
  tables d !! name = Some t →
  apply (ALTER_TABLE_ADD_COLUMN name col dflt) d = Ok d' →
  tables d' = <[name := Table (columns t ++ [col])
                          (<[cname col := affinity (ctype col) dflt]> <$> body t)
                          (autoinc t)]> (tables d).
Proof.
  intros Ht. simpl. unfold withTable. rewrite Ht.
  destruct (decide _); [discriminate|]. by intros [= <-].
Qed.

Lemma added_in_transaction (script : list stmt) :
  addsToMessages script →
  ∀ (d p : DB) (t : table) (fs fs' : list bool) (ss' : session),
    tables p !! "messages" = Some t →
    runScript script (Session d (Some p)) fs = (None, ss', fs') →
    ∃ p', ss' = Session d (Some p') ∧
          tables p' !! "messages"
            = Some (Table (columns t ++ addedColumns script)
                      (withCells (addedCells script) <$> body t) (autoinc t)).
Proof.
  induction 1 as [|st script (col & dflt & ->) _ IH]; intros d p t fs fs' ss' Ht Hrun.
  - simpl in Hrun. injection Hrun as <- _. exists p. split; [done|].
    rewrite Ht, app_nil_r. unfold withCells. simpl. rewrite list_fmap_id. by destruct t.
  - apply runScript_cons_ok in Hrun as (ss1 & Hstep & Hrun).
    apply step_in_transaction_ok in Hstep as (p1 & Hp1 & ->); [|done..].
    pose proof (apply_add_column _ _ _ _ _ _ Ht Hp1) as Htab.
    edestruct (IH d p1) as (p' & -> & Hp'); [|exact Hrun|].
    { rewrite Htab. apply lookup_insert_eq. }
    exists p'. split; [done|]. rewrite Hp'. cbn [columns body autoinc].
    f_equal. f_equal.
    + by rewrite <- app_assoc.
    + rewrite <- list_fmap_compose. by apply list_fmap_ext.
Qed.

Lemma added_by_text (script : list stmt) (w w1 : world DB) (t : table) :
  (addsToMessages script ∧ length script = 1%nat) ∨
    (script = BEGIN :: transactionBody script ++ [COMMIT] ∧
     addsToMessages (transactionBody script)) →
  tables (store w) !! "messages" = Some t →
  dbExecScript script w = (Ok (), w1) →
  tables (store w1) !! "messages"
    = Some (Table (columns t ++ addedColumns script)
              (withCells (addedCells script) <$> body t) (autoinc t)).
Proof.
  intros Hshape Ht. unfold dbExecScript.
  destruct (runScript script _ _) as [[[e|] ss] fs] eqn:Hrun; [discriminate|].
  intros [= <-]. cbn [store]. destruct Hshape as [[Hadd Hone] | [Hshape Hadd]].
  - destruct script as [|st [|? ?]]; try discriminate.
    apply Forall_cons in Hadd as [(col & dflt & ->) _].
    apply runScript_cons_ok in Hrun as (ss1 & Hstep & Hrun).
    simpl in Hrun. injection Hrun as <- _.
    unfold step in Hstep. cbn [pending committed] in Hstep.
    destruct (apply _ (store w)) as [d1|e] eqn:Hap; [|discriminate].
    injection Hstep as <-. cbn [committed].
    rewrite (apply_add_column _ _ _ _ _ _ Ht Hap), lookup_insert_eq.
    unfold withCells, addedCells, addedColumns. simpl. reflexivity.
  - assert (Hcells : addedCells script = addedCells (transactionBody script) ∧
                     addedColumns script = addedColumns (transactionBody script)).
    { rewrite Hshape at 1 3. unfold addedCells, addedColumns. cbn [omap list_omap].
      rewrite !omap_app. cbn. by rewrite !app_nil_r. }
    destruct Hcells as [-> ->].
    rewrite Hshape in Hrun.
    apply runScript_cons_ok in Hrun as (ss1 & Hstep & Hrun). injection Hstep as <-.
    rewrite runScript_app in Hrun.
    destruct (runScript (transactionBody script) _ _) as [[[e|] ss2] fs2] eqn:Hbody;
      [discriminate|].
    cbn [committed] in Hbody.
    destruct (added_in_transaction _ Hadd _ _ _ _ _ _ Ht Hbody) as (p' & -> & Hp').
    apply runScript_cons_ok in Hrun as (ss3 & Hstep & Hrun). injection Hstep as <-.
    simpl in Hrun. injection Hrun as <- _. exact Hp'.
Qed.

Lemma withCells_other (cells : list (string * value)) (r : gmap string value) (k : string) :
  k ∉ cells.*1 → withCells cells r !! k = r !! k.
Proof.
  unfold withCells. revert r. induction cells as [|[k' v] cells IH]; intros r Hk; [done|].
  cbn [foldl]. rewrite fmap_cons in Hk. apply not_elem_of_cons in Hk as [Hne Hk].
  rewrite IH by done. by apply lookup_insert_ne.
Qed.

Lemma withCells_added (cells : list (string * value)) (r : gmap string value)
    (k : string) (v : value) :
  NoDup cells.*1 → (k, v) ∈ cells → withCells cells r !! k = Some v.
Proof.
  unfold withCells. revert r. induction cells as [|[k' v'] cells IH]; intros r Hnd Hin.
  - by apply elem_of_nil in Hin.
  - rewrite fmap_cons in Hnd. apply NoDup_cons in Hnd as [Hfresh Hnd]. cbn [foldl].
    apply elem_of_cons in Hin as [[= -> ->]|Hin].
    + pose proof (withCells_other cells (<[k' := v']> r) k' Hfresh) as Ho.
      unfold withCells in Ho. cbn [fst snd]. rewrite Ho. apply lookup_insert_eq.
    + by apply IH.
Qed.

(** X24: the steps 0 -> 1, 1 -> 2, 2 -> 3 and 3 -> 4 add columns and nothing
    else.  When the text of such a step succeeds, [messages] keeps its rows,
    as many and in the same order; every row keeps the cells it had, and
    gets in each new column the default the text declares, such as
    [published] 1 for the rows that were there before step 1 -> 2. *)
Theorem additive_steps_keep_rows (script : list stmt) (w w1 : world DB) (t : table) :
  script ∈ [migrate0To1AlterMessagesTableQuery; migrate1To2AlterMessagesTableQuery;
            migrate2To3AlterMessagesTableQuery; migrate3To4AlterMessagesTableQuery] →
  tables (store w) !! "messages" = Some t →
  dbExecScript script w = (Ok (), w1) →
  ∃ t' : table,
    tables (store w1) !! "messages" = Some t' ∧
    columns t' = (columns t ++ addedColumns script)%list ∧
    length (body t') = length (body t) ∧
    ∀ i r, body t !! i = Some r →
      ∃ r', body t' !! i = Some r' ∧
            (∀ k, k ∉ (addedCells script).*1 → r' !! k = r !! k) ∧
            (∀ k v, (k, v) ∈ addedCells script → r' !! k = Some v).
Proof.
  intros Hscript Ht Hrun.
  assert (Hshape : (addsToMessages script ∧ length script = 1%nat) ∨
                   (script = BEGIN :: transactionBody script ++ [COMMIT] ∧
                    addsToMessages (transactionBody script)) ∧
                   NoDup (addedCells script).*1).
  { repeat (apply elem_of_cons in Hscript as [->|Hscript]);
      [| | | |by apply elem_of_nil in Hscript].
    - right. split; [split; [reflexivity|repeat constructor; eauto]|by_evaluation].
    - left. split; [repeat constructor; eauto | reflexivity].
    - right. split; [split; [reflexivity|repeat constructor; eauto]|by_evaluation].
    - left. split; [repeat constructor; eauto | reflexivity]. }
  assert (Hnd : NoDup (addedCells script).*1).
  { destruct Hshape as [[Hadd Hone]|[_ Hnd]]; [|exact Hnd].
    destruct script as [|st [|? ?]]; try discriminate.
    apply Forall_cons in Hadd as [(col & dflt & ->) _]. simpl. repeat constructor.
    apply not_elem_of_nil. }
  assert (Hshape' : (addsToMessages script ∧ length script = 1%nat) ∨
                    (script = BEGIN :: transactionBody script ++ [COMMIT] ∧
                     addsToMessages (transactionBody script))) by tauto.
  eexists. split; [by apply (added_by_text script w w1 t)|].
  cbn [columns body]. split; [done|]. split; [by rewrite length_fmap|].
  intros i r Hi. rewrite list_lookup_fmap, Hi. eexists. split; [reflexivity|]. split.
  - intros k Hk. by apply withCells_other.
  - intros k v Hkv. by apply withCells_added.
Qed.

Lemma additive_steps_keep_rows_witness :
  let w := World (interruptedAt 9) [] 0 in
  ∃ t, migrate1To2AlterMessagesTableQuery
         ∈ [migrate0To1AlterMessagesTableQuery; migrate1To2AlterMessagesTableQuery;
            migrate2To3AlterMessagesTableQuery; migrate3To4AlterMessagesTableQuery] ∧
       tables (store w) !! "messages" = Some t ∧
       fst (dbExecScript migrate1To2AlterMessagesTableQuery w) = Ok () ∧
       ∃ t', tables (store (snd (dbExecScript migrate1To2AlterMessagesTableQuery w)))
               !! "messages" = Some t' ∧
             Forall (λ r : gmap string value, r !! "published" = Some (VInt 1)) (body t').
Proof.
  intros w.
  destruct (tables (store w) !! "messages") as [t|] eqn:Ht; [|by vm_compute in Ht].
  exists t.
  assert (H1 : migrate1To2AlterMessagesTableQuery
                 ∈ [migrate0To1AlterMessagesTableQuery; migrate1To2AlterMessagesTableQuery;
                    migrate2To3AlterMessagesTableQuery; migrate3To4AlterMessagesTableQuery])
    by (apply list_elem_of_further, list_elem_of_here).
  assert (H3 : fst (dbExecScript migrate1To2AlterMessagesTableQuery w) = Ok ())
    by (vm_compute; reflexivity).
  split; [exact H1|]. split; [reflexivity|]. split; [exact H3|].
  destruct (dbExecScript migrate1To2AlterMessagesTableQuery w) as [res w1] eqn:Hrun.
  simpl in H3. subst res.
  destruct (additive_steps_keep_rows _ w w1 t H1 Ht Hrun) as (t' & Ht' & _ & _ & Hrows).
  exists t'. split; [exact Ht'|].
  apply Forall_forall. intros r' (i & Hi)%list_elem_of_lookup.
  destruct (lookup_lt_is_Some_2 (body t) i) as [r Hr].
  { destruct (additive_steps_keep_rows _ w w1 t H1 Ht Hrun) as (t'' & Ht'' & _ & Hlen & _).
    rewrite Ht' in Ht''. injection Ht'' as <-. rewrite <- Hlen.
    by apply lookup_lt_Some in Hi. }
  destruct (Hrows i r Hr) as (r'' & Hr'' & _ & Hdflt).
  rewrite Hi in Hr''. injection Hr'' as <-.
  apply Hdflt. apply list_elem_of_here.
Defined.

(** The defaults of the additive steps, evaluated: the text ['0'] declared
    for the two integer attachment columns is stored as the integer 0. *)
Example additive_defaults :
  addedCells migrate1To2AlterMessagesTableQuery = [("published", VInt 1)] ∧
  addedCells migrate2To3AlterMessagesTableQuery
    = [("click", VText ""); ("attachment_name", VText ""); ("attachment_type", VText "");
       ("attachment_size", VInt 0); ("attachment_expires", VInt 0);
       ("attachment_owner", VText ""); ("attachment_url", VText "")].
Proof. split; vm_compute; reflexivity. Qed.

(** *** Rows through the rebuild of step 4 -> 5 *)

Lemma insertRow_inv (name : string) (t t' : table) (g : gmap string value) :
  insertRow name t g = Ok t' →
  ∃ cells,
    mapM (λ c, v ← cell (1 + autoinc t) g c; Some (cname c, v)) (columns t) = Some cells ∧
    t' = Table (columns t) (body t ++ [list_to_map cells])
           (if decide (Exists (λ c, cconstraint c = PRIMARY_KEY_AUTOINCREMENT) (columns t))
            then 1 + autoinc t else autoinc t).
Proof.
  unfold insertRow. cbv zeta.
  destruct (mapM _ (columns t)) as [cells|]; [|discriminate].
  destruct (decide (Exists _ (columns t))) as [?|_]; [discriminate|].
  intros [= <-]. eauto.
Qed.

Lemma cells_lookup (rowid : Z) (g : gmap string value) (cols : list column)
    (cells : list (string * value)) :
  NoDup (cname <$> cols) →
  mapM (λ c, v ← cell rowid g c; Some (cname c, v)) cols = Some cells →
  ∀ c, c ∈ cols →
       (list_to_map cells : gmap string value) !! cname c = cell rowid g c ∧
       is_Some (cell rowid g c).
Proof.
  intros Hnd Hcells%mapM_Some. induction Hcells as [|c0 y cols cells Hy _ IH]; intros c Hc.
  - by apply elem_of_nil in Hc.
  - rewrite fmap_cons in Hnd. apply NoDup_cons in Hnd as [Hfresh Hnd].
    destruct (cell rowid g c0) as [v|] eqn:Hv; [|discriminate]. simpl in Hy.
    injection Hy as <-.
    change (list_to_map ((cname c0, v) :: cells) : gmap string value)
      with (<[cname c0 := v]> (list_to_map cells : gmap string value)).
    apply elem_of_cons in Hc as [->|Hc].
    + rewrite Hv. split; [apply lookup_insert_eq | eauto].
    + destruct (IH Hnd c Hc) as [Hl Hs]. split; [|exact Hs].
      rewrite lookup_insert_ne; [exact Hl|].
      intros Heq. apply Hfresh. rewrite Heq. apply list_elem_of_fmap. eauto.
Qed.

Lemma selected_lookup (r : gmap string value) (pairs : list (string * string))
    (d s : string) :
  NoDup pairs.*1 →
  (d, s) ∈ pairs →
  (list_to_map (omap (λ p : string * string, (λ v, (p.1, v)) <$> r !! p.2) pairs)
     : gmap string value) !! d = r !! s.
Proof.
  assert (Hkeys : ∀ (l : list (string * string)) k,
             k ∉ l.*1 →
             (list_to_map (omap (λ p : string * string, (λ v, (p.1, v)) <$> r !! p.2) l)
                : gmap string value) !! k = None).
  { induction l as [|[d0 s0] l IH]; intros k Hk; [done|].
    rewrite fmap_cons in Hk. apply not_elem_of_cons in Hk as [Hne Hk].
    cbn [omap list_omap]. cbn [fst snd]. destruct (r !! s0); simpl; [|by apply IH].
    rewrite lookup_insert_ne by done. by apply IH. }
  induction pairs as [|[d0 s0] pairs IH]; intros Hnd Hin; [by apply elem_of_nil in Hin|].
  rewrite fmap_cons in Hnd. apply NoDup_cons in Hnd as [Hfresh Hnd].
  cbn [omap list_omap]. cbn [fst snd].
  apply elem_of_cons in Hin as [[= -> ->]|Hin].
  - destruct (r !! s0) as [v|]; simpl; [apply lookup_insert_eq | by apply Hkeys].
  - assert (d ≠ d0).
    { intros ->. apply Hfresh. apply list_elem_of_fmap. by exists (d0, s). }
    destruct (r !! s0); simpl; [rewrite lookup_insert_ne by done|]; by apply IH.
Qed.

Lemma selected_no_key (r : gmap string value) (pairs : list (string * string)) (k : string) :
  k ∉ pairs.*1 →
  (list_to_map (omap (λ p : string * string, (λ v, (p.1, v)) <$> r !! p.2) pairs)
     : gmap string value) !! k = None.
Proof.
  induction pairs as [|[d0 s0] l IH]; intros Hk; [done|].
  rewrite fmap_cons in Hk. apply not_elem_of_cons in Hk as [Hne Hk].
  cbn [omap list_omap]. cbn [fst snd]. destruct (r !! s0); simpl; [|by apply IH].
  rewrite lookup_insert_ne by done. by apply IH.
Qed.

(** Rows inserted one after the other into a table with an [AUTOINCREMENT]
    key land behind the rows that are there, in order, with consecutive
    ids. *)
Lemma insertRows_inv (name : string) (gs : list (gmap string value)) (t t' : table) :
  Exists (λ c, cconstraint c = PRIMARY_KEY_AUTOINCREMENT) (columns t) →
  insertRows name t gs = Ok t' →
  ∃ rows' : list (gmap string value),
    body t' = (body t ++ rows')%list ∧ length rows' = length gs ∧
    ∀ (j : nat) g, gs !! j = Some g →
      ∃ cells,
        mapM (λ c, v ← cell (autoinc t + Z.of_nat j + 1) g c; Some (cname c, v)) (columns t)
          = Some cells ∧
        rows' !! j = Some (list_to_map cells).
Proof.
  intros Hauto. revert t Hauto. induction gs as [|g gs IH]; intros t Hauto Hins.
  - simpl in Hins. injection Hins as <-. exists []. rewrite app_nil_r.
    split; [done|]. split; [done|]. intros j g Hj. by rewrite lookup_nil in Hj.
  - simpl in Hins. destruct (insertRow name t g) as [t1|e] eqn:H1; [|discriminate].
    apply insertRow_inv in H1 as (cells & Hcells & ->).
    rewrite decide_True in Hins by exact Hauto.
    apply IH in Hins as (rows' & Hbody & Hlen & Hrows); [|exact Hauto].
    cbn [body columns autoinc] in *.
    exists (list_to_map cells :: rows'). split; [by rewrite Hbody, <- app_assoc|].
    split; [simpl; by rewrite Hlen|].
    intros [|j] g' Hj; simpl in Hj.
    + injection Hj as <-. exists cells. split; [|done].
      replace (autoinc t + Z.of_nat 0 + 1) with (1 + autoinc t) by lia. exact Hcells.
    + destruct (Hrows j g' Hj) as (cells' & Hc' & Hr'). exists cells'. split; [|exact Hr'].
      replace (autoinc t + Z.of_nat (S j) + 1) with (1 + autoinc t + Z.of_nat j + 1) by lia.
      exact Hc'.
Qed.

Lemma apply_insert_select_body (dst src : string) (dstCols srcCols : list string)
    (d d' : DB) (from to : table) :
  tables d !! src = Some from →
  tables d !! dst = Some to →
  apply (INSERT_INTO_SELECT dst dstCols srcCols src) d = Ok d' →
  ∃ to', tables d' = <[dst := to']> (tables d) ∧
         insertRows dst to
           ((λ r : gmap string value,
               list_to_map (omap (λ p : string * string, (λ v, (p.1, v)) <$> r !! p.2)
                              (zip dstCols srcCols))) <$> body from) = Ok to'.
Proof.
  intros Hfrom Hto. simpl. unfold withTable. rewrite Hfrom, Hto.
  destruct (decide _); [|discriminate]. destruct (decide _); [|discriminate].
  destruct (insertRows _ _ _) as [to'|e]; [|discriminate]. intros [= <-]. eauto.
Qed.

(** X25: the rebuild of step 4 -> 5, when it succeeds on a store without
    a leftover [messages_new], keeps every row of [messages], in the same
    order: the row at position [i] gets the row id [i + 1] under [id], and
    each column the text copies carries the old cell under the affinity of
    the new column; the old [id] text is found under [mid]. *)
Theorem rebuild_keeps_rows (w w1 : world DB) (t : table) :
  tables (store w) !! "messages_new" = None →
  tables (store w) !! "messages" = Some t →
  dbExecScript migrate4To5AlterMessagesTableQuery w = (Ok (), w1) →
  ∃ t', tables (store w1) !! "messages" = Some t' ∧
        columns t' = messagesNewColumns ∧
        length (body t') = length (body t) ∧
        ∀ (i : nat) r, body t !! i = Some r →
          ∃ r', body t' !! i = Some r' ∧
                r' !! "id" = Some (VInt (Z.of_nat i + 1)) ∧
                ∀ d s, (d, s) ∈ copiedColumns migrate4To5AlterMessagesTableQuery →
                  ∃ c v, c ∈ messagesNewColumns ∧ cname c = d ∧
                         r !! s = Some v ∧
                         r' !! d = Some (affinity (ctype c) v).
Proof.
  intros Hnone Hmsg. unfold dbExecScript.
  destruct (runScript _ _ _) as [[[e|] ss] fs] eqn:Hrun; [discriminate|].
  intros [= <-]. simpl. revert Hrun.
  unfold migrate4To5AlterMessagesTableQuery at 1.
  intros (s1 & H1 & Hrun)%runScript_cons_ok.
  injection H1 as <-.
  apply runScript_cons_ok in Hrun as (s2 & H2 & Hrun).
  apply step_in_transaction_ok in H2 as (p2 & Hp2 & ->); [|done..].
  simpl in Hp2. rewrite Hnone in Hp2. injection Hp2 as <-.
  apply runScript_cons_ok in Hrun as (s3 & H3 & Hrun).
  apply step_in_transaction_ok in H3 as (p3 & Hp3 & ->); [|done..].
  apply apply_create_index_tables in Hp3. simpl in Hp3.
  apply runScript_cons_ok in Hrun as (s4 & H4 & Hrun).
  apply step_in_transaction_ok in H4 as (p4 & Hp4 & ->); [|done..].
  apply apply_create_index_tables in Hp4. rewrite Hp3 in Hp4.
  apply runScript_cons_ok in Hrun as (s5 & H5 & Hrun).
  apply step_in_transaction_ok in H5 as (p5 & Hp5 & ->); [|done..].
  apply (apply_insert_select_body _ _ _ _ _ _ t (Table messagesNewColumns [] 0))
    in Hp5 as (to' & Hp5 & Hins);
    [|by rewrite Hp4, lookup_insert_ne | by rewrite Hp4, lookup_insert_eq].
  rewrite Hp4 in Hp5.
  apply runScript_cons_ok in Hrun as (s6 & H6 & Hrun).
  apply step_in_transaction_ok in H6 as (p6 & Hp6 & ->); [|done..].
  apply apply_drop_tables in Hp6. rewrite Hp5 in Hp6.
  apply runScript_cons_ok in Hrun as (s7 & H7 & Hrun).
  apply step_in_transaction_ok in H7 as (p7 & Hp7 & ->); [|done..].
  apply apply_rename_tables in Hp7 as (t7 & Ht7 & Hp7).
  rewrite Hp6, lookup_delete_ne, lookup_insert_eq in Ht7 by done.
  injection Ht7 as <-.
  apply runScript_cons_ok in Hrun as (s8 & H8 & Hrun).
  injection H8 as <-. simpl in Hrun. injection Hrun as <- _.
  exists to'. cbn [committed]. rewrite Hp7, lookup_insert_eq. split; [done|].
  assert (Hcols : columns to' = messagesNewColumns)
    by exact (insertRows_columns _ _ _ _ Hins).
  split; [exact Hcols|].
  apply insertRows_inv in Hins as (rows' & Hbody & Hlen & Hrows);
    [|by_evaluation].
  cbn [body columns autoinc app] in Hbody, Hrows. subst rows'.
  rewrite length_fmap in Hlen. split; [exact Hlen|].
  intros i r Hr.
  destruct (Hrows i _ ltac:(by rewrite list_lookup_fmap, Hr)) as (cells & Hcells & Hrow).
  exists (list_to_map cells). split; [exact Hrow|].
  assert (Hnd : NoDup (cname <$> messagesNewColumns)) by by_evaluation.
  pose proof (cells_lookup _ _ _ _ Hnd Hcells) as Hcell.
  split.
  - destruct (Hcell (Col "id" INTEGER PRIMARY_KEY_AUTOINCREMENT)) as [Hid _];
      [apply list_elem_of_here|].
    cbn [cname] in Hid. rewrite Hid. unfold cell. cbn [cname cconstraint].
    rewrite selected_no_key by by_evaluation.
    rewrite decide_True by done. reflexivity.
  - intros d s Hds.
    assert (Hin : (d, s) ∈ zip ["mid"; "time"; "topic"; "message"; "title"; "priority";
                                "tags"; "click"; "attachment_name"; "attachment_type";
                                "attachment_size"; "attachment_expires"; "attachment_url";
                                "attachment_owner"; "encoding"; "published"]
                               ["id"; "time"; "topic"; "message"; "title"; "priority";
                                "tags"; "click"; "attachment_name"; "attachment_type";
                                "attachment_size"; "attachment_expires"; "attachment_url";
                                "attachment_owner"; "encoding"; "published"]).
    { revert Hds. unfold copiedColumns, migrate4To5AlterMessagesTableQuery.
      cbn [omap list_omap mjoin list_join app]. by rewrite app_nil_r. }
    unshelve epose proof (selected_lookup r _ d s _ Hin) as Hsel; [by_evaluation|].
    assert (Hc : ∃ c, c ∈ messagesNewColumns ∧ cname c = (d, s).1).
    { clear -Hin. revert Hin. generalize (d, s). apply Forall_forall.
      apply (Forall_impl
               (λ p : string * string, Exists (λ c, cname c = p.1) messagesNewColumns)).
      - by_evaluation.
      - intros p (c & Hc & Heq)%Exists_exists. exists c. exact (conj Hc Heq). }
    destruct Hc as (c & Hc & Hname). simpl in Hname. subst d.
    destruct (Hcell c Hc) as [Hl [v' Hs]]. rewrite Hl.
    unfold cell in *. rewrite Hsel in *.
    destruct (r !! s) as [v|] eqn:Hv.
    + exists c, v. done.
    + exfalso. destruct (decide (cconstraint c = PRIMARY_KEY_AUTOINCREMENT)) as [Hk|_];
        [|discriminate].
      clear -Hc Hk Hin. 
      assert (Hno : cname c ∉ (zip ["mid"; "time"; "topic"; "message"; "title"; "priority";
                                "tags"; "click"; "attachment_name"; "attachment_type";
                                "attachment_size"; "attachment_expires"; "attachment_url";
                                "attachment_owner"; "encoding"; "published"]
                               ["id"; "time"; "topic"; "message"; "title"; "priority";
                                "tags"; "click"; "attachment_name"; "attachment_type";
                                "attachment_size"; "attachment_expires"; "attachment_url";
                                "attachment_owner"; "encoding"; "published"]).*1).
      { unfold messagesNewColumns in Hc.
        repeat (apply elem_of_cons in Hc as [->|Hc]; [try discriminate Hk; by_evaluation|]).
        by apply elem_of_nil in Hc. }
      apply Hno. apply list_elem_of_fmap. by exists (cname c, s).
Qed.

Lemma rebuild_keeps_rows_witness :
  let w := World (interruptedAt 23) [] 0 in
  ∃ t, tables (store w) !! "messages_new" = None ∧
       tables (store w) !! "messages" = Some t ∧
       fst (dbExecScript migrate4To5AlterMessagesTableQuery w) = Ok () ∧
       ∃ t', tables (store (snd (dbExecScript migrate4To5AlterMessagesTableQuery w)))
               !! "messages" = Some t' ∧
             columns t' = messagesNewColumns ∧
             length (body t') = length (body t).
Proof.
  intros w.
  destruct (tables (store w) !! "messages") as [t|] eqn:Ht; [|by vm_compute in Ht].
  exists t.
  assert (H1 : tables (store w) !! "messages_new" = None) by (vm_compute; reflexivity).
  assert (H3 : fst (dbExecScript migrate4To5AlterMessagesTableQuery w) = Ok ())
    by (vm_compute; reflexivity).
  split; [exact H1|]. split; [reflexivity|]. split; [exact H3|].
  destruct (dbExecScript migrate4To5AlterMessagesTableQuery w) as [res w1] eqn:Hrun.
  simpl in H3. subst res.
  destruct (rebuild_keeps_rows w w1 t H1 Ht Hrun) as (t' & Ht' & Hcols & Hlen & _).
  exists t'. split; [exact Ht'|]. split; [exact Hcols | exact Hlen].
Defined.

(** On a store stopped at version 4 with two rows, evaluated: the rows
    come out in order under the ids 1 and 2, the old ids under [mid]. *)
Example rebuild_evaluated :
  let w := World (interruptedAt 23) [] 0 in
  recordedVersion (store w) = Some (VInt 4) ∧
  ((λ t : table, (λ r : gmap string value, (r !! "id", r !! "time")) <$> body t)
     <$> tables (store w) !! "messages")
    = Some [(Some (VText "a1"), Some (VInt 10)); (Some (VText "b2"), Some (VInt 11))] ∧
  ((λ t : table, (λ r : gmap string value, (r !! "id", r !! "mid", r !! "time")) <$> body t)
     <$> tables (store (snd (dbExecScript migrate4To5AlterMessagesTableQuery w))) !! "messages")
    = Some [(Some (VInt 1), Some (VText "a1"), Some (VInt 10));
            (Some (VInt 2), Some (VText "b2"), Some (VInt 11))].
Proof. repeat split; vm_compute; reflexivity. Qed.
